(** * LiteJSON: document store, session authority, schema registry

    A shallow embedding of the TypeScript sources of the LiteJSON server
    (src/core/fileManager.ts, src/core/auth.ts, src/core/schema.ts,
    src/api/files.ts, src/server.ts) together with the properties of the
    specification that were checked against it.

    Conventions of the embedding.
    - JavaScript strings are [string]s; every character outside the ASCII
      range is outside all character classes used by the program.
    - The file system, the fault behaviour of the [fs] calls, the clock
      and the console are explicit state ([World]); code that may throw
      runs in the monad [IO].
    - [path] is Node's POSIX implementation. *)

From Stdlib Require Import ZArith Ascii String DecimalString.
From stdpp Require Import gmap strings list fin_maps sorting.

Set Warnings "-register-all,-clear-no-such-hyp".
Set Default Proof Using "Type".

(** ** JavaScript string primitives used by the program *)

Module JsString.

Definition in_range (lo hi c : ascii) : bool :=
  ((N_of_ascii lo <=? N_of_ascii c) && (N_of_ascii c <=? N_of_ascii hi))%N.

Definition to_lower (c : ascii) : ascii :=
  if in_range "A"%char "Z"%char c then ascii_of_N (N_of_ascii c + 32) else c.

Fixpoint map_chars (f : ascii → ascii) (s : string) : string :=
  match s with
  | EmptyString => EmptyString
  | String c s' => String (f c) (map_chars f s')
  end.

Definition lower (s : string) : string := map_chars to_lower s.

Fixpoint all_chars (p : ascii → bool) (s : string) : bool :=
  match s with
  | EmptyString => true
  | String c s' => p c && all_chars p s'
  end.

(** [strip_prefix p s] is [Some r] when [s = p ++ r]. *)
Fixpoint strip_prefix (p s : string) : option string :=
  match p, s with
  | EmptyString, _ => Some s
  | String a p', String b s' =>
      if Ascii.eqb a b then strip_prefix p' s' else None
  | String _ _, EmptyString => None
  end.

(** [s.endsWith(suf)]: some tail of [s] is [suf]. *)
Fixpoint endsWith (suf s : string) : bool :=
  if String.eqb s suf then true
  else match s with
       | EmptyString => false
       | String _ s' => endsWith suf s'
       end.

(** [s.includes(pat)]. *)
Fixpoint includes (pat s : string) : bool :=
  match strip_prefix pat s with
  | Some _ => true
  | None => match s with
            | EmptyString => false
            | String _ s' => includes pat s'
            end
  end.

(** [s.replace(pat, rep)] with a string pattern: only the FIRST
    occurrence of [pat] is replaced. *)
Fixpoint replace_first (pat rep s : string) : string :=
  match strip_prefix pat s with
  | Some rest => rep +:+ rest
  | None => match s with
            | EmptyString => EmptyString
            | String c s' => String c (replace_first pat rep s')
            end
  end.

(** [s.replace(/[^...]/g, rep)] for a one-character replacement: every
    character outside the class [keep] becomes [rep]. *)
Definition replace_outside (keep : ascii → bool) (rep : ascii) (s : string)
  : string :=
  map_chars (λ c, if keep c then c else rep) s.

(** [s.replace(/[...]/g, rep)]: every character inside the class. *)
Definition replace_inside (cls : ascii → bool) (rep : ascii) (s : string)
  : string :=
  map_chars (λ c, if cls c then rep else c) s.

(** [s.replace(/<suf>$/i, '')] for a literal lower-case [suf]: the tail
    of [s] that equals [suf] up to letter case is removed, if any. *)
Fixpoint strip_suffix_ci (suf s : string) : string :=
  if String.eqb (lower s) suf then EmptyString
  else match s with
       | EmptyString => EmptyString
       | String c s' => String c (strip_suffix_ci suf s')
       end.

Definition last_char (s : string) : option ascii :=
  last (list_ascii_of_string s).

(** The first [n] characters of [s]. *)
Definition take_chars (n : nat) (s : string) : string :=
  String.substring 0 n s.

Fixpoint drop_spaces (s : string) : string :=
  match s with
  | String c s' => if Ascii.is_space c then drop_spaces s' else s
  | EmptyString => EmptyString
  end.

(** [s.trim()]. *)
Definition trim (s : string) : string :=
  String.rev (drop_spaces (String.rev (drop_spaces s))).

Definition digit (n : N) : ascii := ascii_of_N (48 + n mod 10).

(** The [k] lowest decimal digits of [n], zero padded. *)
Fixpoint pad (k : nat) (n : N) : string :=
  match k with
  | O => EmptyString
  | S k' => pad k' (n / 10) +:+ String (digit n) EmptyString
  end.

(** Decimal numeral of an array index. *)
Definition of_nat (n : nat) : string :=
  NilEmpty.string_of_uint (Nat.to_uint n).

End JsString.

(** ** Node's [path] module (POSIX flavour) *)

Module NodePath.
Import JsString.

Definition is_sep (c : ascii) : bool := Ascii.eqb c "/"%char.

(** Segments of a path between separators; ["a//b"] has an empty one. *)
Fixpoint split (s : string) : list string :=
  match s with
  | EmptyString => [EmptyString]
  | String c s' =>
      if is_sep c then EmptyString :: split s'
      else match split s' with
           | h :: t => String c h :: t
           | [] => [String c EmptyString]
           end
  end.

(** [path.basename(p)]: trailing separators are ignored and the last
    segment is returned; [""] when there is none. *)
Definition basename (p : string) : string :=
  List.last (List.filter (λ s, negb (String.eqb s "")) (split p)) "".

(** One step of [normalizeString]: the stack holds the segments kept so
    far, innermost first. *)
Definition resolve_step (allowAboveRoot : bool) (stack : list string)
    (seg : string) : list string :=
  if String.eqb seg "" then stack
  else if String.eqb seg "." then stack
  else if String.eqb seg ".." then
    match stack with
    | top :: rest =>
        if String.eqb top ".." then seg :: stack else rest
    | [] => if allowAboveRoot then [seg] else []
    end
  else seg :: stack.

Definition resolve (allowAboveRoot : bool) (segs : list string)
  : list string :=
  List.rev (List.fold_left (resolve_step allowAboveRoot) segs []).

Fixpoint join_segs (segs : list string) : string :=
  match segs with
  | [] => ""
  | [s] => s
  | s :: rest => s +:+ "/" +:+ join_segs rest
  end.

Definition isAbsolute (p : string) : bool :=
  match p with String c _ => is_sep c | EmptyString => false end.

Definition trailingSeparator (p : string) : bool :=
  match last_char p with Some c => is_sep c | None => false end.

(** [path.normalize(p)]. *)
Definition normalize (p : string) : string :=
  if String.eqb p "" then "."
  else
    let abs := isAbsolute p in
    let trail := trailingSeparator p in
    let body := join_segs (resolve (negb abs) (split p)) in
    if String.eqb body "" then
      (if abs then "/" else if trail then "./" else ".")
    else
      let body' := if trail then body +:+ "/" else body in
      if abs then "/" +:+ body' else body'.

(** [path.join(a, b)]: empty arguments are skipped. *)
Definition join (a b : string) : string :=
  if String.eqb a "" then
    (if String.eqb b "" then "." else normalize b)
  else if String.eqb b "" then normalize a
  else normalize (a +:+ "/" +:+ b).

(** The text that [join dir f] puts in front of a plain entry name [f]:
    the normalized directory followed by a separator. *)
Definition dir_prefix (dir : string) : string :=
  if String.eqb dir "" then ""
  else
    let abs := isAbsolute dir in
    (if abs then "/" else "") +:+
    List.fold_right (λ s acc, s +:+ "/" +:+ acc) ""
      (resolve (negb abs) (split dir)).

(** A plain directory entry name: non-empty, no separator, and neither
    of the two special names. *)
Definition is_entry_name (f : string) : bool :=
  negb (String.eqb f "") && negb (String.eqb f ".")
  && negb (String.eqb f "..") && all_chars (λ c, negb (is_sep c)) f.

End NodePath.

(** ** JSON values

    Numbers are kept as integers: the code in scope only distinguishes
    zero from non-zero. *)

Inductive json :=
  | JNull
  | JBool (b : bool)
  | JNum (n : Z)
  | JStr (s : string)
  | JArr (items : list json)
  | JObj (fields : list (string * json)).

(** JavaScript truthiness of a JSON value ([!data] is its negation). *)
Definition truthy (v : json) : bool :=
  match v with
  | JNull => false
  | JBool b => b
  | JNum n => negb (n =? 0)%Z
  | JStr s => negb (String.eqb s "")
  | JArr _ => true
  | JObj _ => true
  end.

(** A possibly [undefined] value in a condition. *)
Definition truthy_opt (v : option json) : bool :=
  match v with Some j => truthy j | None => false end.

Definition truthy_str (v : option string) : bool :=
  match v with Some s => negb (String.eqb s "") | None => false end.

Fixpoint index_from {A} (i : nat) (l : list A) : list (string * A) :=
  match l with
  | [] => []
  | x :: l' => (JsString.of_nat i, x) :: index_from (S i) l'
  end.

Definition chars_of (s : string) : list json :=
  List.map (λ c, JStr (String c EmptyString)) (list_ascii_of_string s).

(** Own enumerable properties copied by an object spread [{...v}]. *)
Definition spread (v : json) : list (string * json) :=
  match v with
  | JObj fs => fs
  | JArr l => index_from 0 l
  | JStr s => index_from 0 (chars_of s)
  | _ => []
  end.

(** Property assignment: an existing key keeps its position. *)
Fixpoint obj_set (k : string) (v : json) (fs : list (string * json))
  : list (string * json) :=
  match fs with
  | [] => [(k, v)]
  | (k', v') :: fs' =>
      if String.eqb k k' then (k, v) :: fs' else (k', v') :: obj_set k v fs'
  end.

(** An array index: the canonical decimal numeral of an integer from 0
    to 2^32 - 2. *)
Fixpoint digits_value (s : string) (acc : N) : option N :=
  match s with
  | EmptyString => Some acc
  | String c s' =>
      if JsString.in_range "0" "9" c
      then digits_value s' (acc * 10 + (N_of_ascii c - 48))%N
      else None
  end.

Definition array_index (k : string) : option N :=
  match k with
  | EmptyString => None
  | String c rest =>
      if Ascii.eqb c "0" && negb (String.eqb rest "") then None
      else match digits_value k 0 with
           | Some n => if (n <? 4294967295)%N then Some n else None
           | None => None
           end
  end.

Definition is_index (kv : string * json) : bool :=
  bool_decide (is_Some (array_index kv.1)).

Definition index_le (a b : string * json) : Prop :=
  (default 0 (array_index a.1) ≤ default 0 (array_index b.1))%N.

Global Instance index_le_dec a b : Decision (index_le a b).
Proof. unfold index_le. apply _. Defined.

(** The order in which an object enumerates its own properties: array
    indices first, ascending, then the other keys in the order of their
    creation. [fs] lists the properties in the order of creation. *)
Definition own_property_order (fs : list (string * json))
  : list (string * json) :=
  merge_sort index_le (List.filter is_index fs)
  ++ List.filter (λ kv, negb (is_index kv)) fs.

(** [{ ...a, ...b }]: the properties of [a], then those of [b], are
    assigned to a fresh object. *)
Definition merge_spread (a b : json) : json :=
  JObj (own_property_order
          (List.fold_left (λ acc kv, obj_set kv.1 kv.2 acc) (spread b)
             (List.fold_left (λ acc kv, obj_set kv.1 kv.2 acc) (spread a) []))).

(** ** The environment: file system, faults, console, clock *)

(** What the next [fs] call that can throw does. A partial failure of a
    writing call leaves the first [written] characters at the target. *)
Inductive fault :=
  | NoFault
  | Fail (msg : string)
  | FailPartial (msg : string) (written : nat).

Record DateTime := mkDateTime {
  year : N; month : N; day : N;
  hours : N; minutes : N; seconds : N; millis : N
}.

Record World := mkWorld {
  files : gmap string string;   (* regular files, by path *)
  dirs : gset string;           (* directories, by [dir_prefix] *)
  faults : list fault;          (* schedule of injected failures *)
  warnings : list string;       (* console.warn output *)
  today : DateTime;             (* new Date() *)
  clock_ms : Z                  (* Date.now() *)
}.

Definition set_files (f : gmap string string → gmap string string)
    (w : World) : World :=
  mkWorld (f (files w)) (dirs w) (faults w) (warnings w) (today w)
    (clock_ms w).

Definition set_dirs (f : gset string → gset string) (w : World) : World :=
  mkWorld (files w) (f (dirs w)) (faults w) (warnings w) (today w)
    (clock_ms w).

Definition set_faults (fs : list fault) (w : World) : World :=
  mkWorld (files w) (dirs w) fs (warnings w) (today w) (clock_ms w).

Definition add_warning (msg : string) (w : World) : World :=
  mkWorld (files w) (dirs w) (faults w) (warnings w ++ [msg]) (today w)
    (clock_ms w).

(** [Date.prototype.toISOString]. *)
Definition toISOString (d : DateTime) : string :=
  ((if (year d <=? 9999)%N then JsString.pad 4 (year d)
    else "+" +:+ JsString.pad 6 (year d))
   +:+ "-" +:+ JsString.pad 2 (month d) +:+ "-" +:+ JsString.pad 2 (day d)
   +:+ "T" +:+ JsString.pad 2 (hours d) +:+ ":" +:+ JsString.pad 2 (minutes d)
   +:+ ":" +:+ JsString.pad 2 (seconds d) +:+ "." +:+ JsString.pad 3 (millis d))
  +:+ "Z".

(** ** Code that may throw: a state and exception monad *)

Inductive outcome (A : Type) :=
  | Ret (a : A)
  | Throw (msg : string).
Arguments Ret {A} a.
Arguments Throw {A} msg.

Definition IO (A : Type) : Type := World → outcome A * World.

Definition ret {A} (a : A) : IO A := λ w, (Ret a, w).
Definition throw {A} (msg : string) : IO A := λ w, (Throw msg, w).

Definition bind {A B} (m : IO A) (k : A → IO B) : IO B :=
  λ w, match m w with
       | (Ret a, w') => k a w'
       | (Throw msg, w') => (Throw msg, w')
       end.

(** [try { m } catch (error) { h error.message }]: the effects of [m] up
    to the throw are kept. *)
Definition try_catch {A} (m : IO A) (h : string → IO A) : IO A :=
  λ w, match m w with
       | (Ret a, w') => (Ret a, w')
       | (Throw msg, w') => h msg w'
       end.

Declare Scope io_scope.
Delimit Scope io_scope with io.
Notation "'let!' x := m 'in' k" := (bind m (λ x, k))
  (at level 10, x name, m at level 200, k at level 200) : io_scope.
Local Open Scope io_scope.

(** *** The [fs] calls used by the program *)

(** The fault for the next call, and the world once it is consumed. An
    exhausted schedule means no further failure. *)
Definition cur_fault (w : World) : fault := hd NoFault (faults w).
Definition tick (w : World) : World := set_faults (tail (faults w)) w.

Definition next_fault : IO fault := λ w, (Ret (cur_fault w), tick w).

Definition console_warn (msg : string) : IO unit :=
  λ w, (Ret tt, add_warning msg w).

Definition new_Date_toISOString : IO string :=
  λ w, (Ret (toISOString (today w)), w).

(** The messages of the errors [fs] throws on Linux, as Node words
    them: the code and its text, the system call, and the path or paths
    of the call as they were passed. Reading a directory fails in
    [read], after the open, and names no path. *)
Definition enoent (syscall p : string) : string :=
  "ENOENT: no such file or directory, " +:+ syscall +:+ " '" +:+ p +:+ "'".

Definition enotdir (syscall p : string) : string :=
  "ENOTDIR: not a directory, " +:+ syscall +:+ " '" +:+ p +:+ "'".

Definition eisdir (syscall p : string) : string :=
  "EISDIR: illegal operation on a directory, " +:+ syscall
  +:+ " '" +:+ p +:+ "'".

Definition eisdir_read : string :=
  "EISDIR: illegal operation on a directory, read".

(** The two paths of [copyfile] and [rename]: ['src' -> 'dst]. *)
Definition from_to (src dst : string) : string := src +:+ "' -> '" +:+ dst.

Definition is_file (p : string) (w : World) : bool :=
  bool_decide (is_Some (files w !! p)).

Definition is_dir (p : string) (w : World) : bool :=
  negb (String.eqb p "") && bool_decide (NodePath.dir_prefix p ∈ dirs w).

(** [fs.existsSync] never throws. *)
Definition existsSync (p : string) : IO bool :=
  λ w, (Ret (is_file p w || is_dir p w), w).

Definition readFileSync (p : string) : IO string :=
  λ w, match files w !! p with
       | None =>
           if is_dir p w then (Throw eisdir_read, w)
           else (Throw (enoent "open" p), w)
       | Some c =>
           (let! f := next_fault in
            match f with
            | NoFault => ret c
            | Fail msg | FailPartial msg _ => throw msg
            end) w
       end.

Definition writeFileSync (p content : string) : IO unit :=
  let! f := next_fault in
  match f with
  | NoFault => λ w, (Ret tt, set_files (insert p content) w)
  | Fail msg => throw msg
  | FailPartial msg n =>
      λ w, (Throw msg, set_files (insert p (JsString.take_chars n content)) w)
  end.

Definition copyFileSync (src dst : string) : IO unit :=
  λ w, match files w !! src with
       | None =>
           if is_dir src w then (Throw (eisdir "copyfile" (from_to src dst)), w)
           else (Throw (enoent "copyfile" (from_to src dst)), w)
       | Some c => writeFileSync dst c w
       end.

(** [fs.renameSync] either moves the file as a whole or changes
    nothing. *)
Definition renameSync (src dst : string) : IO unit :=
  λ w, match files w !! src with
       | None => (Throw (enoent "rename" (from_to src dst)), w)
       | Some c =>
           (let! f := next_fault in
            match f with
            | NoFault =>
                λ w', (Ret tt, set_files (λ m, <[dst := c]> (delete src m)) w')
            | Fail msg | FailPartial msg _ => throw msg
            end) w
       end.

Definition unlinkSync (p : string) : IO unit :=
  λ w, match files w !! p with
       | None =>
           if is_dir p w then (Throw (eisdir "unlink" p), w)
           else (Throw (enoent "unlink" p), w)
       | Some _ =>
           (let! f := next_fault in
            match f with
            | NoFault => λ w', (Ret tt, set_files (delete p) w')
            | Fail msg | FailPartial msg _ => throw msg
            end) w
       end.

Definition mkdirSync (d : string) : IO unit :=
  let! f := next_fault in
  match f with
  | NoFault => λ w, (Ret tt, set_dirs (union {[NodePath.dir_prefix d]}) w)
  | Fail msg | FailPartial msg _ => throw msg
  end.

Definition child_file (pre key : string) : option string :=
  match JsString.strip_prefix pre key with
  | Some n => if NodePath.is_entry_name n then Some n else None
  | None => None
  end.

Definition child_dir (pre key : string) : option string :=
  match JsString.strip_prefix pre key with
  | Some r =>
      match NodePath.split r with
      | [n; e] =>
          if NodePath.is_entry_name n && String.eqb e "" then Some n else None
      | _ => None
      end
  | None => None
  end.

(** The names in directory [d], of files and of directories, before
    they are put in order. *)
Definition dir_names (d : string) (w : World) : list string :=
  omap (child_file (NodePath.dir_prefix d)) (elements (dom (files w)))
  ++ omap (child_dir (NodePath.dir_prefix d)) (elements (dirs w)).

(** The order of [strcmp]: by character code. *)
Definition name_le (a b : string) : Prop := String.leb a b = true.

Global Instance name_le_dec a b : Decision (name_le a b).
Proof. unfold name_le. apply _. Defined.

Global Instance name_le_total : Total name_le.
Proof. intros a b. apply String.leb_total. Qed.

(** The entries of directory [d] as [readdirSync] returns them: files
    and directories alike, sorted by name ([scandir] sorts with
    [strcmp]). *)
Definition dir_entries (d : string) (w : World) : list string :=
  merge_sort name_le (dir_names d w).

Definition readdirSync (d : string) : IO (list string) :=
  λ w, if is_dir d w then
         (let! f := next_fault in
          match f with
          | NoFault => ret (dir_entries d w)
          | Fail msg | FailPartial msg _ => throw msg
          end) w
       else if is_file d w then (Throw (enotdir "scandir" d), w)
       else (Throw (enoent "scandir" d), w).

(** ** Library functions taken as parameters

    [JSON.parse] and [JSON.stringify] and the Ajv validator are not part
    of the repository; the program is embedded over any behaviour of
    them. [JSON.parse] may throw. An Ajv instance is known by the calls
    of [addSchema(schema, key)] made on it since [new Ajv(...)], oldest
    first, the last of which may be one that threw. On an instance with
    these calls behind it, [ajv_addSchema calls schema key] tells
    whether a further [addSchema(schema, key)] returns or throws, and
    [ajv_getSchema calls key] is [getSchema(key)]: it can throw (a
    schema is compiled when it is first asked for), find nothing
    ([undefined]), or yield a validator, given by the errors it reports
    for a document ([[]] when the document is valid). *)

Record AjvError := mkAjvError { instancePath : string; message : string }.

Definition AjvCalls : Type := list (json * string).

Record Library := mkLibrary {
  JSON_parse : string → outcome json;
  JSON_stringify : json → string;
  ajv_addSchema : AjvCalls → json → string → outcome unit;
  ajv_getSchema :
    AjvCalls → string → outcome (option (json → list AjvError))
}.

(** ** core/fileManager.ts *)

Record FileOperation := mkFileOperation {
  success : bool;
  data : option json;
  error : option string
}.

Record FileManager := mkFileManager {
  dataDir : string;
  historyDir : string
}.

Definition safe_char (c : ascii) : bool :=
  JsString.in_range "a" "z" c || JsString.in_range "A" "Z" c
  || JsString.in_range "0" "9" c
  || Ascii.eqb c "." || Ascii.eqb c "_" || Ascii.eqb c "-".

Definition sanitizeFilename (filename : string) : string :=
  JsString.replace_outside safe_char "_" (NodePath.basename filename).

Definition baseFilename (filename : string) : string :=
  JsString.strip_suffix_ci ".json" (sanitizeFilename filename).

Definition getFilePath (fm : FileManager) (filename : string) : string :=
  NodePath.join (dataDir fm) (baseFilename filename +:+ ".json").

Definition ensureDirectories (fm : FileManager) : IO unit :=
  let! e := existsSync (dataDir fm) in
  let! _ := (if e then ret tt else mkdirSync (dataDir fm)) in
  let! e' := existsSync (historyDir fm) in
  if e' then ret tt else mkdirSync (historyDir fm).

(** [new FileManager(dataDir, historyDir)]. *)
Definition new_FileManager (dataDir historyDir : string) : IO FileManager :=
  let fm := mkFileManager dataDir historyDir in
  let! _ := ensureDirectories fm in
  ret fm.

Definition colon_or_dot (c : ascii) : bool :=
  Ascii.eqb c ":" || Ascii.eqb c ".".

Definition backup_timestamp (iso : string) : string :=
  JsString.replace_inside colon_or_dot "-" iso.

Definition backupPath (fm : FileManager) (filePath iso : string) : string :=
  NodePath.join (historyDir fm)
    (NodePath.basename filePath +:+ "." +:+ backup_timestamp iso).

Definition createBackup (fm : FileManager) (filePath : string) : IO unit :=
  try_catch
    (let! e := existsSync filePath in
     if e then
       let! iso := new_Date_toISOString in
       copyFileSync filePath (backupPath fm filePath iso)
     else ret tt)
    (λ msg, console_warn
              ("Failed to create backup for " +:+ filePath +:+ ": " +:+ msg)).

Definition fileExists (fm : FileManager) (filename : string) : IO bool :=
  existsSync (getFilePath fm filename).

Definition deleteFile (fm : FileManager) (filename : string)
  : IO FileOperation :=
  try_catch
    (let filePath := getFilePath fm filename in
     let! e := existsSync filePath in
     if negb e then ret (mkFileOperation false None (Some "File not found"))
     else
       let! _ := createBackup fm filePath in
       let! _ := unlinkSync filePath in
       ret (mkFileOperation true None None))
    (λ msg, ret (mkFileOperation false None
                   (Some ("Failed to delete file: " +:+ msg)))).

Definition json_ext (file : string) : bool := JsString.endsWith ".json" file.
Definition strip_json (file : string) : string :=
  JsString.replace_first ".json" "" file.

Definition listFiles (fm : FileManager) : IO FileOperation :=
  try_catch
    (let! entries := readdirSync (dataDir fm) in
     let files := List.map strip_json (List.filter json_ext entries) in
     ret (mkFileOperation true (Some (JArr (List.map JStr files))) None))
    (λ msg, ret (mkFileOperation false None
                   (Some ("Failed to list files: " +:+ msg)))).

Section WithLibrary.
Context (lib : Library).

Definition parse (s : string) : IO json :=
  match JSON_parse lib s with
  | Ret j => ret j
  | Throw msg => throw msg
  end.

Definition readFile (fm : FileManager) (filename : string)
  : IO FileOperation :=
  try_catch
    (let filePath := getFilePath fm filename in
     let! e := existsSync filePath in
     if negb e then ret (mkFileOperation false None (Some "File not found"))
     else
       let! data := readFileSync filePath in
       let! jsonData := parse data in
       ret (mkFileOperation true (Some jsonData) None))
    (λ msg, ret (mkFileOperation false None
                   (Some ("Failed to read file: " +:+ msg)))).

Definition writeFile (fm : FileManager) (filename : string) (data : json)
  : IO FileOperation :=
  try_catch
    (let filePath := getFilePath fm filename in
     let tempPath := filePath +:+ ".tmp" in
     let! _ := createBackup fm filePath in
     let jsonString := JSON_stringify lib data in
     let! _ := writeFileSync tempPath jsonString in
     let! _ := renameSync tempPath filePath in
     ret (mkFileOperation true (Some data) None))
    (λ msg,
       let tempPath := getFilePath fm filename +:+ ".tmp" in
       let! e := existsSync tempPath in
       let! _ := (if e then
                    try_catch (unlinkSync tempPath)
                      (λ cleanupError,
                         console_warn ("Failed to cleanup temp file: "
                                       +:+ cleanupError))
                  else ret tt) in
       ret (mkFileOperation false None
              (Some ("Failed to write file: " +:+ msg)))).

End WithLibrary.

(** ** core/config.ts (the part the server consults) *)

Inductive Permission := public | admin.

Record LiteJSONConfig := mkConfig {
  cfg_dataDir : string;
  cfg_schemasDir : string;
  cfg_port : Z;
  cfg_admin_username : string;
  cfg_admin_passwordHash : string;
  cfg_permissions : gmap string Permission
}.

(** ** core/auth.ts *)

Record AuthSession := mkAuthSession {
  username : string;
  authenticated : bool;
  timestamp : Z
}.

Definition maxAge : Z := 24 * 60 * 60 * 1000.

(** [createSession]: [sessionId] is the value [generateSessionId] drew
    from [Math.random], [now] the value of [Date.now()]. *)
Definition createSession (now : Z) (sessionId username : string)
    (sessions : gmap string AuthSession)
  : string * gmap string AuthSession :=
  let session := mkAuthSession username true now in
  (sessionId, <[sessionId := session]> sessions).

Definition validateSession (now : Z) (sessionId : string)
    (sessions : gmap string AuthSession)
  : bool * gmap string AuthSession :=
  match sessions !! sessionId with
  | None => (false, sessions)
  | Some session =>
      let sessionAge := (now - timestamp session)%Z in
      if (maxAge <? sessionAge)%Z then (false, delete sessionId sessions)
      else (authenticated session, sessions)
  end.

Definition invalidateSession (sessionId : string)
    (sessions : gmap string AuthSession) : gmap string AuthSession :=
  delete sessionId sessions.

Definition requiresAdmin (config : LiteJSONConfig) (filename : string)
  : bool :=
  match cfg_permissions config !! filename with
  | Some admin => true
  | _ => false
  end.

(** The operations on the session map, for histories of calls. *)
Inductive SessionCall :=
  | CallCreate (now : Z) (sessionId username : string)
  | CallValidate (now : Z) (sessionId : string)
  | CallInvalidate (sessionId : string).

Definition session_call (c : SessionCall)
    (sessions : gmap string AuthSession) : gmap string AuthSession :=
  match c with
  | CallCreate now sid user => (createSession now sid user sessions).2
  | CallValidate now sid => (validateSession now sid sessions).2
  | CallInvalidate sid => invalidateSession sid sessions
  end.



(** ** core/schema.ts *)

Record ValidationResult := mkValidationResult {
  valid : bool;
  errors : option (list string)
}.

Record SchemaValidator := mkSchemaValidator {
  ajv : AjvCalls;
  schemasDir : string;
  schemas : gmap string json
}.

Definition schemaName_of (filename : string) : string :=
  JsString.replace_first ".json" "" filename.

Definition hasSchema (sv : SchemaValidator) (filename : string) : bool :=
  bool_decide (is_Some (schemas sv !! schemaName_of filename)).

Definition getSchema (sv : SchemaValidator) (filename : string)
  : option json :=
  match schemas sv !! schemaName_of filename with
  | Some s => if truthy s then Some s else None
  | None => None
  end.

Definition format_error (e : AjvError) : string :=
  JsString.trim (instancePath e +:+ " " +:+ message e).

Section SchemaValidator.
Context (lib : Library).

(** [this.ajv.addSchema(schema, key)]: the instance has seen the call
    whether it returns or throws. *)
Definition addSchema (schema : json) (key : string) (a : AjvCalls)
  : outcome unit * AjvCalls :=
  (ajv_addSchema lib a schema key, a ++ [(schema, key)]).

(** The body of the [for] loop of [loadSchemas], for one file. The
    validator is a mutable object: what earlier iterations stored stays
    when a later one throws, so the loop returns the validator reached
    together with the exception, if any. *)
Fixpoint loadLoop (schemaFiles : list string) (sv : SchemaValidator)
  : World → (SchemaValidator * option string) * World :=
  match schemaFiles with
  | [] => λ w, ((sv, None), w)
  | file :: rest => λ w,
      let schemaName := JsString.replace_first ".json" "" file in
      let schemaPath := NodePath.join (schemasDir sv) file in
      match readFileSync schemaPath w with
      | (Throw msg, w') => ((sv, Some msg), w')
      | (Ret schemaContent, w') =>
          match JSON_parse lib schemaContent with
          | Throw msg => ((sv, Some msg), w')
          | Ret schema =>
              match addSchema schema schemaName (ajv sv) with
              | (Throw msg, a) =>
                  ((mkSchemaValidator a (schemasDir sv) (schemas sv),
                    Some msg), w')
              | (Ret _, a) =>
                  loadLoop rest
                    (mkSchemaValidator a (schemasDir sv)
                       (<[schemaName := schema]> (schemas sv))) w'
              end
          end
      end
  end.

Definition loadSchemas (sv : SchemaValidator)
  : World → SchemaValidator * World :=
  λ w,
    match existsSync (schemasDir sv) w with
    | (Ret true, w1) =>
        match readdirSync (schemasDir sv) w1 with
        | (Ret entries, w2) =>
            let schemaFiles := List.filter json_ext entries in
            match loadLoop schemaFiles sv w2 with
            | ((sv', None), w3) => (sv', w3)
            | ((sv', Some msg), w3) =>
                (sv', add_warning ("Failed to load schemas: " +:+ msg) w3)
            end
        | (Throw msg, w2) =>
            (sv, add_warning ("Failed to load schemas: " +:+ msg) w2)
        end
    | (_, w1) => (sv, w1)
    end.

(** [new SchemaValidator(schemasDir)]. *)
Definition new_SchemaValidator (schemasDir : string)
  : World → SchemaValidator * World :=
  loadSchemas (mkSchemaValidator [] schemasDir ∅).

Definition reloadSchemas (sv : SchemaValidator)
  : World → SchemaValidator * World :=
  loadSchemas (mkSchemaValidator [] (schemasDir sv) ∅).

(** [validate]: the call of [getSchema] is not inside a [try]; what it
    throws leaves the method. *)
Definition validate (sv : SchemaValidator) (filename : string)
    (data : json) : outcome ValidationResult :=
  let schemaName := JsString.replace_first ".json" "" filename in
  if negb (bool_decide (is_Some (schemas sv !! schemaName))) then
    Ret (mkValidationResult true None)
  else
    match ajv_getSchema lib (ajv sv) schemaName with
    | Throw msg => Throw msg
    | Ret None => Ret (mkValidationResult true None)
    | Ret (Some validate) =>
        match validate data with
        | [] => Ret (mkValidationResult true None)
        | errs =>
            Ret (mkValidationResult false (Some (List.map format_error errs)))
        end
    end.

End SchemaValidator.

(** ** server.ts and api/files.ts: the document routes *)

Record Request := mkRequest {
  cookies_sessionId : option string;       (* req.cookies?.sessionId *)
  headers_authorization : option string;   (* req.headers.authorization *)
  body_data : option json                  (* req.body.data *)
}.

Record Response := mkResponse {
  status : nat;
  body : json
}.

(** The mutable state of a running server. *)
Record Server := mkServer {
  world : World;
  sessions : gmap string AuthSession;
  validator : SchemaValidator
}.

Definition error_body (e : option string) : json :=
  match e with
  | Some msg => JObj [("error", JStr msg)]
  | None => JObj []
  end.

Definition auth_required : Response :=
  mkResponse 401 (JObj [("error", JStr "Authentication required")]).

Definition data_required : Response :=
  mkResponse 400 (JObj [("error", JStr "Data is required")]).

Definition validation_failed (details : option (list string)) : Response :=
  mkResponse 400
    (JObj (("error", JStr "Validation failed") ::
           match details with
           | Some l => [("details", JArr (List.map JStr l))]
           | None => []
           end)).

Definition success_body (d : option json) : json :=
  JObj (("success", JBool true) ::
        match d with Some j => [("data", j)] | None => [] end).

(** [req.cookies?.sessionId || req.headers.authorization?.replace('Bearer ', '')] *)
Definition request_sessionId (req : Request) : option string :=
  if truthy_str (cookies_sessionId req) then cookies_sessionId req
  else match headers_authorization req with
       | Some h => Some (JsString.replace_first "Bearer " "" h)
       | None => None
       end.

(** The session check shared by [requireAuth] and [optionalAuth]:
    [sessionId && this.validateSession(sessionId)]. *)
Definition session_check (req : Request) (s : Server) : bool * Server :=
  match request_sessionId req with
  | Some sid =>
      if negb (String.eqb sid "") then
        let '(ok, sess) := validateSession (clock_ms (world s)) sid (sessions s) in
        (ok, mkServer (world s) sess (validator s))
      else (false, s)
  | None => (false, s)
  end.

(** [optionalAuth]: the result is stored in [req.isAuthenticated]. *)
Definition optionalAuth (req : Request) (s : Server) : bool * Server :=
  session_check req s.

(** [requireAuth] in front of a handler. *)
Definition requireAuth (req : Request) (s : Server)
    (next : Server → Response * Server) : Response * Server :=
  let '(ok, s') := session_check req s in
  if ok then next s' else (auth_required, s').

Definition run_world {A} (m : IO A) (s : Server) : outcome A * Server :=
  let '(r, w) := m (world s) in
  (r, mkServer w (sessions s) (validator s)).

(** An exception that leaves a handler is answered by the error handler
    of Express: status 500 and an HTML page, which is not modelled (the
    body is left [null]). *)
Definition server_error : Response := mkResponse 500 JNull.

Section Routes.
Context (lib : Library) (config : LiteJSONConfig).

(** [new FileManager(this.config.dataDir)]: the history directory is
    the default one. The directories are made at start-up. *)
Definition fileManager : FileManager :=
  mkFileManager (cfg_dataDir config) "./.history".

Definition read_response (filename : string) (s : Server)
  : Response * Server :=
  match run_world (readFile lib fileManager filename) s with
  | (Ret result, s') =>
      if negb (success result) then
        (mkResponse 404 (error_body (error result)), s')
      else
        (mkResponse 200 (default JNull (data result)), s')
  | (Throw _, s') => (server_error, s')
  end.

(** [GET /data/:filename] *)
Definition get_data (filename : string) (req : Request) (s : Server)
  : Response * Server :=
  if requiresAdmin config filename then (auth_required, s)
  else read_response filename s.

(** [GET /api/file/:filename], behind [optionalAuth]. *)
Definition get_api_file (filename : string) (req : Request) (s : Server)
  : Response * Server :=
  let '(isAuthenticated, s1) := optionalAuth req s in
  if requiresAdmin config filename && negb isAuthenticated then
    (auth_required, s1)
  else read_response filename s1.

Definition write_response (filename : string) (d : json) (s : Server)
  : Response * Server :=
  match validate lib (validator s) filename d with
  | Throw _ => (server_error, s)
  | Ret validation =>
      if negb (valid validation) then
        (validation_failed (errors validation), s)
      else
        match run_world (writeFile lib fileManager filename d) s with
        | (Ret result, s') =>
            if negb (success result) then
              (mkResponse 500 (error_body (error result)), s')
            else (mkResponse 200 (success_body (data result)), s')
        | (Throw _, s') => (server_error, s')
        end
  end.

(** [POST /api/file/:filename], behind [optionalAuth] and
    [requireAuth]. *)
Definition post_api_file (filename : string) (req : Request) (s : Server)
  : Response * Server :=
  let '(_, s1) := optionalAuth req s in
  requireAuth req s1 (λ s2,
    if negb (truthy_opt (body_data req)) then (data_required, s2)
    else write_response filename (default JNull (body_data req)) s2).

(** [PUT /api/file/:filename]: the same handler body as POST. *)
Definition put_api_file (filename : string) (req : Request) (s : Server)
  : Response * Server :=
  let '(_, s1) := optionalAuth req s in
  requireAuth req s1 (λ s2,
    if negb (truthy_opt (body_data req)) then (data_required, s2)
    else write_response filename (default JNull (body_data req)) s2).

(** [PATCH /api/file/:filename] *)
Definition patch_api_file (filename : string) (req : Request) (s : Server)
  : Response * Server :=
  let '(_, s1) := optionalAuth req s in
  requireAuth req s1 (λ s2,
    if negb (truthy_opt (body_data req)) then (data_required, s2)
    else
      match run_world (readFile lib fileManager filename) s2 with
      | (Ret existingResult, s3) =>
          if negb (success existingResult) then
            (mkResponse 404 (JObj [("error", JStr "File not found")]), s3)
          else
            let mergedData :=
              merge_spread (default JNull (data existingResult))
                (default JNull (body_data req)) in
            write_response filename mergedData s3
      | (Throw _, s3) => (server_error, s3)
      end).

(** [DELETE /api/file/:filename] *)
Definition delete_api_file (filename : string) (req : Request) (s : Server)
  : Response * Server :=
  let '(_, s1) := optionalAuth req s in
  requireAuth req s1 (λ s2,
    match run_world (deleteFile fileManager filename) s2 with
    | (Ret result, s3) =>
        if negb (success result) then
          (mkResponse 404 (error_body (error result)), s3)
        else (mkResponse 200 (JObj [("success", JBool true)]), s3)
    | (Throw _, s3) => (server_error, s3)
    end).

(** [GET /api/files] *)
Definition get_api_files (req : Request) (s : Server)
  : Response * Server :=
  match run_world (listFiles fileManager) s with
  | (Ret result, s') =>
      if negb (success result) then
        (mkResponse 500 (error_body (error result)), s')
      else
        (mkResponse 200 (JObj [("files", default JNull (data result))]), s')
  | (Throw _, s') => (server_error, s')
  end.

End Routes.

(** ** A concrete library for the examples

    [demo_stringify] is [JSON.stringify(v, null, 2)] for values whose
    strings need no escape other than quote and backslash. [demo_parse]
    knows a handful of documents and rejects every other text; it agrees
    with [JSON.parse] on the texts used in the examples below, including
    the rejected one. The demo Ajv agrees with Ajv on the schemas and
    keys of the examples: [{}] and [true] accept every document, [false]
    none; an object whose [type] is a number is not a valid schema; an
    empty array adds nothing; a key can be used once. It takes every
    other object for a schema that accepts every document and rejects
    every other value. *)

Definition newline : string := String (ascii_of_nat 10) EmptyString.
Definition dquote : ascii := ascii_of_nat 34.
Definition backslash : ascii := ascii_of_nat 92.

Fixpoint escape (s : string) : string :=
  match s with
  | EmptyString => EmptyString
  | String c s' =>
      if Ascii.eqb c dquote || Ascii.eqb c backslash
      then String backslash (String c (escape s'))
      else String c (escape s')
  end.

Definition quote (s : string) : string :=
  String dquote (escape s +:+ String dquote EmptyString).

Definition Z_to_string (n : Z) : string :=
  NilEmpty.string_of_int (Z.to_int n).

Definition join_lines (indent : string) (items : list string) : string :=
  List.fold_right
    (λ item acc,
       if String.eqb acc "" then indent +:+ item
       else indent +:+ item +:+ "," +:+ newline +:+ acc)
    "" items.

Fixpoint stringify_at (indent : string) (v : json) : string :=
  let inner := indent +:+ "  " in
  match v with
  | JNull => "null"
  | JBool true => "true"
  | JBool false => "false"
  | JNum n => Z_to_string n
  | JStr s => quote s
  | JArr [] => "[]"
  | JArr items =>
      "[" +:+ newline +:+
      join_lines inner (List.map (stringify_at inner) items)
      +:+ newline +:+ indent +:+ "]"
  | JObj [] => "{}"
  | JObj fields =>
      "{" +:+ newline +:+
      join_lines inner
        (List.map (λ kv, quote (fst kv) +:+ ": " +:+ stringify_at inner (snd kv))
           fields)
      +:+ newline +:+ indent +:+ "}"
  end.

Definition demo_stringify (v : json) : string := stringify_at "" v.

(** A document and an invalid schema for the examples. *)
Definition menu_doc : json := JObj [("title", JStr "Lunch")].
Definition bad_schema : json := JObj [("type", JNum 1)].

Definition demo_parse (s : string) : outcome json :=
  if String.eqb s "null" then Ret JNull
  else if String.eqb s "true" then Ret (JBool true)
  else if String.eqb s "false" then Ret (JBool false)
  else if String.eqb s "{}" then Ret (JObj [])
  else if String.eqb s "[]" then Ret (JArr [])
  else if String.eqb s "1" then Ret (JNum 1)
  else if String.eqb s "2" then Ret (JNum 2)
  else if String.eqb s (demo_stringify menu_doc) then Ret menu_doc
  else if String.eqb s (demo_stringify bad_schema) then Ret bad_schema
  else Throw "Unexpected end of JSON input".

Definition demo_invalid (schema : json) : option string :=
  match schema with
  | JObj [("type", JNum _)] =>
      Some ("schema is invalid: data/type must be equal to one of the "
            +:+ "allowed values, data/type must be array, data/type must "
            +:+ "match a schema in anyOf")
  | JObj _ | JBool _ => None
  | _ => Some "schema must be object or boolean"
  end.

(** The schemas the demo Ajv holds after [calls], by key. *)
Definition demo_registered (calls : AjvCalls) : gmap string json :=
  List.fold_left
    (λ acc call,
       match call.1 with
       | JArr _ => acc
       | schema =>
           if bool_decide (is_Some (acc !! call.2)) then acc
           else match demo_invalid schema with
                | Some _ => acc
                | None => <[call.2 := schema]> acc
                end
       end)
    calls ∅.

Definition demo_addSchema (calls : AjvCalls) (schema : json) (key : string)
  : outcome unit :=
  match schema with
  | JArr [] => Ret tt
  | JArr _ => Throw "schema must be object or boolean"
  | _ =>
      if bool_decide (is_Some (demo_registered calls !! key)) then
        Throw ("schema with key or id " +:+ String dquote key
               +:+ String dquote " already exists")
      else match demo_invalid schema with
           | Some msg => Throw msg
           | None => Ret tt
           end
  end.

Definition demo_getSchema (calls : AjvCalls) (key : string)
  : outcome (option (json → list AjvError)) :=
  match demo_registered calls !! key with
  | None => Ret None
  | Some (JBool false) =>
      Ret (Some (λ _, [mkAjvError "" "boolean schema is false"]))
  | Some _ => Ret (Some (λ _, []))
  end.

Definition demo_lib : Library :=
  mkLibrary demo_parse demo_stringify demo_addSchema demo_getSchema.

(** ** Vocabulary of the statements *)

Definition no_sep (f : string) : bool :=
  JsString.all_chars (λ c, negb (NodePath.is_sep c)) f.

Definition with_seps (segs : list string) : string :=
  List.fold_right (λ s acc, s +:+ "/" +:+ acc) "" segs.

(** The name of the entry that [getFilePath] designates inside the data
    directory. *)
Definition entryName (filename : string) : string :=
  baseFilename filename +:+ ".json".

(** A file name with exactly one [.json] extension: it ends in [.json]
    and what precedes that does not. *)
Definition one_json_extension (file : string) : bool :=
  JsString.endsWith ".json" file
  && negb (JsString.endsWith ".json"
             (JsString.take_chars (String.length file - 5) file)).

(** What the environment keeps across the calls of the store: the
    directories and the clock. *)
Definition env_same (w w' : World) : Prop :=
  dirs w' = dirs w ∧ today w' = today w ∧ clock_ms w' = clock_ms w.

Definition backup_warning (filePath msg : string) : string :=
  "Failed to create backup for " +:+ filePath +:+ ": " +:+ msg.

Definition cleanup_warning (msg : string) : string :=
  "Failed to cleanup temp file: " +:+ msg.

Definition write_failure (msg : string) : FileOperation :=
  mkFileOperation false None (Some ("Failed to write file: " +:+ msg)).

(** A store and an environment for the examples: one document [x]
    holding [1], both directories present, the clock at
    2026-11-02T11:27:00.005Z. *)
Definition example_fm : FileManager := mkFileManager "./data" "./.history".

Definition example_world (schedule : list fault) : World :=
  mkWorld {[ "data/x.json" := "1" ]} {[ "data/"; ".history/" ]} schedule []
    (mkDateTime 2026 11 2 11 27 0 5) 1793618820005.

(** A store with both directories and no file at all. *)
Definition empty_world : World :=
  mkWorld ∅ {[ "data/"; ".history/" ]} [] []
    (mkDateTime 2026 11 2 11 27 0 5) 1793618820005.

(** Writing a list of documents one after the other. *)
Definition writeAll (lib : Library) (fm : FileManager)
    (docs : list (string * json)) (w : World) : World :=
  List.fold_left (λ w nd, (writeFile lib fm nd.1 nd.2 w).2) docs w.

(** The names [listFiles] reports in world [w]. *)
Definition listing (fm : FileManager) (w : World) : list string :=
  List.map strip_json (List.filter json_ext (dir_entries (dataDir fm) w)).

(** The [.json] entry, if any, that the file at path [key] contributes
    to the listing of the directory with prefix [pre], and the [.json]
    entries among a set of paths. *)
Definition contrib (pre key : string) : list string :=
  List.filter json_ext (option_list (child_file pre key)).

Definition json_names (pre : string) (X : gset string) : list string :=
  List.filter json_ext (omap (child_file pre) (elements X)).

(** A history of calls continued from a given session map. *)
Definition run_calls (calls : list SessionCall)
    (sessions : gmap string AuthSession) : gmap string AuthSession :=
  List.fold_left (λ s c, session_call c s) calls sessions.


(** The schema a file of the schema directory holds, when it can be
    read and parsed, and what it takes for the loop of [loadSchemas] to
    get past a run of files on an Ajv instance with the calls [a]
    behind it: each holds a schema, and [addSchema] returns for it on
    the instance as the files before it have left it. *)
Definition schema_at (lib : Library) (dir : string) (w : World)
    (file : string) : option json :=
  match files w !! NodePath.join dir file with
  | Some c => match JSON_parse lib c with
              | Ret j => Some j
              | Throw _ => None
              end
  | None => None
  end.

Fixpoint load_in_turn (lib : Library) (dir : string) (w : World)
    (a : AjvCalls) (l : list string) : Prop :=
  match l with
  | [] => True
  | file :: l' =>
      ∃ j, schema_at lib dir w file = Some j
           ∧ ajv_addSchema lib a j (schemaName_of file) = Ret tt
           ∧ load_in_turn lib dir w (a ++ [(j, schemaName_of file)]) l'
  end.


(** A schema directory with three files, the one in the middle cut
    short; the names are given out of order. *)
Definition schema_world_mixed : World :=
  mkWorld {[ "schemas/z.json" := "{}"; "schemas/m.json" := "{";
             "schemas/b.json" := "false" ]}
    {[ "schemas/" ]} [] [] (mkDateTime 2026 11 2 11 27 0 5) 1793618820005.

(** A configuration, a request and a running server for the examples:
    [menu.json] is marked admin and exists; the cookie [tok] names a
    session created some fourteen minutes before the current time. *)
Definition example_config : LiteJSONConfig :=
  mkConfig "./data" "./schemas" 3000 "admin" "$2b$10$hash"
    {[ "about.json" := public; "menu.json" := admin ]}.

Definition example_request : Request :=
  mkRequest (Some "tok") None None.

Definition example_server : Server :=
  mkServer
    (mkWorld {[ "data/menu.json" := "{}" ]} {[ "data/"; ".history/" ]} [] []
       (mkDateTime 2026 11 2 11 27 0 5) 1793618820005)
    {[ "tok" := mkAuthSession "admin" true 1793618000000 ]}
    (mkSchemaValidator [] "./schemas" ∅).

(** The falsy JSON values, and the absent field. *)
Definition falsy_data : list (option json) :=
  [None; Some JNull; Some (JBool false); Some (JNum 0); Some (JStr "")].

(** A request carries a valid session in server state [s]. *)
Definition authenticated_request (req : Request) (s : Server) : Prop :=
  (session_check req s).1 = true.

(** ** Further vocabulary: results of the store *)

Definition read_failure (msg : string) : FileOperation :=
  mkFileOperation false None (Some ("Failed to read file: " +:+ msg)).

Definition delete_failure (msg : string) : FileOperation :=
  mkFileOperation false None (Some ("Failed to delete file: " +:+ msg)).


Definition not_found : FileOperation :=
  mkFileOperation false None (Some "File not found").

(** ** The single-file server: its file manager

    Its [getFilePath] replaces the unsafe characters of the whole
    request name and always appends [.json]; it takes no base name and
    strips no extension. *)

Definition legacy_getFilePath (fm : FileManager) (filename : string)
  : string :=
  let sanitizedFilename := JsString.replace_outside safe_char "_" filename in
  NodePath.join (dataDir fm) (sanitizedFilename +:+ ".json").

(** ** api/auth.ts: login, logout, status

    [bcrypt.compare] is a library function: it answers whether the data
    matches the hash, or rejects (as it does for data that is not a
    string). The session id that [generateSessionId] draws from
    [Math.random] is an input of the login handler. *)

Record Crypto := mkCrypto { bcrypt_compare : json → string → outcome bool }.

Record LoginRequest := mkLoginRequest {
  body_username : option json;   (* req.body.username *)
  body_password : option json    (* req.body.password *)
}.

Definition verifyPassword (crypto : Crypto) (password : json) (hash : string)
  : outcome bool :=
  bcrypt_compare crypto password hash.

(** [username !== this.config.admin.username] holds for every value that
    is not that very string. *)
Definition authenticate (crypto : Crypto) (config : LiteJSONConfig)
    (username password : json) : outcome bool :=
  match username with
  | JStr u =>
      if negb (String.eqb u (cfg_admin_username config)) then Ret false
      else verifyPassword crypto password (cfg_admin_passwordHash config)
  | _ => Ret false
  end.

Definition login_ok (sessionId : string) : Response :=
  mkResponse 200
    (JObj [("success", JBool true); ("message", JStr "Login successful");
           ("sessionId", JStr sessionId)]).

Definition error_response (code : nat) (msg : string) : Response :=
  mkResponse code (JObj [("error", JStr msg)]).

(** [POST /api/auth/login]. The second component of the answer is the
    [sessionId] cookie it sets, if any. *)
Definition post_login (crypto : Crypto) (config : LiteJSONConfig)
    (sessionId : string) (req : LoginRequest) (s : Server)
  : (Response * option string) * Server :=
  if negb (truthy_opt (body_username req))
     || negb (truthy_opt (body_password req)) then
    ((error_response 400 "Username and password are required", None), s)
  else
    let username := default JNull (body_username req) in
    let password := default JNull (body_password req) in
    match authenticate crypto config username password with
    | Throw _ => ((error_response 500 "Authentication failed", None), s)
    | Ret false => ((error_response 401 "Invalid credentials", None), s)
    | Ret true =>
        (* [authenticate] accepts the configured name only, a string *)
        match username with
        | JStr u =>
            let '(sid, sess) :=
              createSession (clock_ms (world s)) sessionId u (sessions s) in
            ((login_ok sid, Some sid), mkServer (world s) sess (validator s))
        | _ => ((error_response 500 "Authentication failed", None), s)
        end
    end.

(** [POST /api/auth/logout]; the cookie is cleared in every case. *)
Definition post_logout (req : Request) (s : Server) : Response * Server :=
  let response :=
    mkResponse 200
      (JObj [("success", JBool true); ("message", JStr "Logout successful")])
  in
  match request_sessionId req with
  | Some sid =>
      if negb (String.eqb sid "") then
        (response,
         mkServer (world s) (invalidateSession sid (sessions s)) (validator s))
      else (response, s)
  | None => (response, s)
  end.

(** [GET /api/auth/status] *)
Definition get_status (req : Request) (s : Server) : Response * Server :=
  let '(ok, s') := session_check req s in
  (mkResponse 200 (JObj [("authenticated", JBool ok)]), s').

(** ** Further vocabulary: logging in

    A [bcrypt] for the examples: the hash [$2b$10$hash] stands for the
    password [secret]; data that is not a string is rejected. *)

Definition demo_crypto : Crypto :=
  mkCrypto (λ data hash,
    match data with
    | JStr p => Ret (String.eqb p "secret" && String.eqb hash "$2b$10$hash")
    | _ => Throw "data and hash must be strings"
    end).

Definition invalid_credentials : Response :=
  error_response 401 "Invalid credentials".

(** The server after a login that stored a session under [sid]. *)
Definition logged_in (sid user : string) (s : Server) : Server :=
  mkServer (world s)
    (<[sid := mkAuthSession user true (clock_ms (world s))]> (sessions s))
    (validator s).

(** The token of a session call. *)
Definition call_token (c : SessionCall) : string :=
  match c with
  | CallCreate _ sid _ => sid
  | CallValidate _ sid => sid
  | CallInvalidate sid => sid
  end.

(** The ways a request can carry the token [tok]. *)
Definition carries (tok : string) (req : Request) : Prop :=
  cookies_sessionId req = Some tok
  ∨ (truthy_str (cookies_sessionId req) = false
     ∧ (headers_authorization req = Some ("Bearer " +:+ tok)
        ∨ (headers_authorization req = Some tok
           ∧ JsString.includes "Bearer " tok = false))).

(** ** Further vocabulary: documents as maps, a rejecting schema *)

(** The value of property [k] of an object given by its fields: of two
    fields with the same key the later one counts, as in [JSON.parse]
    and in object spread. *)
Fixpoint obj_get (k : string) (fs : list (string * json)) : option json :=
  match fs with
  | [] => None
  | (k', v) :: fs' =>
      match obj_get k fs' with
      | Some x => Some x
      | None => if String.eqb k' k then Some v else None
      end
  end.

(** The verdict of a validation, when [validate] returns. *)
Definition verdict (r : outcome ValidationResult) : option bool :=
  match r with
  | Ret validation => Some (valid validation)
  | Throw _ => None
  end.

(** [example_server] with the schema [false] registered for [menu]. *)
Definition guarded_server : Server :=
  mkServer (world example_server) (sessions example_server)
    (mkSchemaValidator [(JBool false, "menu")] "./schemas"
       {[ "menu" := JBool false ]}).

(** [example_server] with a menu on file in [menu.json]. *)
Definition menu_server : Server :=
  mkServer
    (mkWorld {[ "data/menu.json" := demo_stringify menu_doc ]}
       {[ "data/"; ".history/" ]} [] []
       (mkDateTime 2026 11 2 11 27 0 5) 1793618820005)
    (sessions example_server) (validator example_server).

(** A server started over [schema_world_mixed]: of its three schema
    files the load registers [b] alone. *)
Definition schema_server : Server :=
  let '(sv, w) := new_SchemaValidator demo_lib "./schemas" schema_world_mixed in
  mkServer w (sessions example_server) sv.

(** A configuration that marks both spellings of the menu admin. *)
Definition both_config : LiteJSONConfig :=
  mkConfig "./data" "./schemas" 3000 "admin" "$2b$10$hash"
    {[ "menu.json" := admin; "menu" := admin ]}.


(** ** api/schema.ts: the schema routes

    The routes work on the files of [schemasDir] directly; the name in
    the request is used as it comes, with its first [.json] removed.
    [req.body.schema] is passed as [schema]. *)

Section SchemaRoutes.
Context (lib : Library) (config : LiteJSONConfig).

Definition schemaPath (filename : string) : string :=
  NodePath.join (cfg_schemasDir config) (schemaName_of filename +:+ ".json").

(** [typeof v === 'object' && v !== null] *)
Definition is_object (v : json) : bool :=
  match v with
  | JObj _ | JArr _ => true
  | _ => false
  end.

Definition run_route (m : IO Response) (s : Server) : Response * Server :=
  match run_world m s with
  | (Ret r, s') => (r, s')
  | (Throw _, s') => (server_error, s')
  end.

(** [GET /api/schema/:filename]; no authentication in front of it. *)
Definition get_schema (filename : string) (s : Server) : Response * Server :=
  let schemaPath := schemaPath filename in
  run_route
    (try_catch
       (let! e := existsSync schemaPath in
        if negb e then ret (error_response 404 "Schema not found")
        else
          let! schemaContent := readFileSync schemaPath in
          let! schema := parse lib schemaContent in
          ret (mkResponse 200 schema))
       (λ _, ret (error_response 500 "Failed to read schema"))) s.

(** [reloadSchemas] on the validator of the server. *)
Definition reload (s : Server) : Server :=
  let '(sv, w) := reloadSchemas lib (validator s) (world s) in
  mkServer w (sessions s) sv.

(** [POST /api/schema/:filename], behind [requireAuth]. *)
Definition post_schema (filename : string) (req : Request)
    (schema : option json) (s : Server) : Response * Server :=
  requireAuth req s (λ s1,
    if negb (truthy_opt schema) then
      (error_response 400 "Schema is required", s1)
    else
      let schema := default JNull schema in
      if negb (is_object schema) then
        (error_response 400 "Invalid schema format", s1)
      else
        let schemaPath := schemaPath filename in
        let schemasDir := cfg_schemasDir config in
        match run_world
                (let! e := existsSync schemasDir in
                 let! _ := (if e then ret tt else mkdirSync schemasDir) in
                 writeFileSync schemaPath (JSON_stringify lib schema)) s1
        with
        | (Ret _, s2) =>
            (mkResponse 200
               (JObj [("success", JBool true); ("schema", schema)]),
             reload s2)
        | (Throw _, s2) => (error_response 500 "Failed to save schema", s2)
        end).

(** [DELETE /api/schema/:filename], behind [requireAuth]. *)
Definition delete_schema (filename : string) (req : Request) (s : Server)
  : Response * Server :=
  requireAuth req s (λ s1,
    let schemaPath := schemaPath filename in
    match run_world (existsSync schemaPath) s1 with
    | (Ret false, s2) => (error_response 404 "Schema not found", s2)
    | (Ret true, s2) =>
        match run_world (unlinkSync schemaPath) s2 with
        | (Ret _, s3) =>
            (mkResponse 200 (JObj [("success", JBool true)]), reload s3)
        | (Throw _, s3) =>
            (error_response 500 "Failed to delete schema", s3)
        end
    | (Throw _, s2) => (error_response 500 "Failed to delete schema", s2)
    end).

(** [GET /api/schemas] *)
Definition get_schemas (s : Server) : Response * Server :=
  let schemasDir := cfg_schemasDir config in
  run_route
    (try_catch
       (let! e := existsSync schemasDir in
        if negb e then ret (mkResponse 200 (JObj [("schemas", JArr [])]))
        else
          let! entries := readdirSync schemasDir in
          let schemaFiles :=
            List.map strip_json (List.filter json_ext entries) in
          ret (mkResponse 200
                 (JObj [("schemas", JArr (List.map JStr schemaFiles))])))
       (λ _, ret (error_response 500 "Failed to list schemas"))) s.

End SchemaRoutes.

(** ** Further vocabulary: where a registered schema comes from *)

Definition loaded_from (lib : Library) (dir : string) (w : World)
    (calls : AjvCalls) (name : string) (schema : json) : Prop :=
  ∃ file before,
    file ∈ dir_entries dir w ∧ json_ext file = true
    ∧ schemaName_of file = name
    ∧ schema_at lib dir w file = Some schema
    ∧ ajv_addSchema lib before schema name = Ret tt
    ∧ ∃ after, calls = before ++ (schema, name) :: after.

(** The schema [schema] was read from a [.json] entry of [dir] named
    [name] up to its first [.json]. *)
Definition read_from (lib : Library) (dir : string) (w : World)
    (name : string) (schema : json) : Prop :=
  ∃ file,
    file ∈ dir_entries dir w ∧ json_ext file = true
    ∧ schemaName_of file = name
    ∧ schema_at lib dir w file = Some schema.

(** * Properties *)

#[local] Arguments String.eqb : simpl never.

(** ** Strings *)

Section StringFacts.
Import JsString.

Lemma str_app_cons c (s t : string) : String c s +:+ t = String c (s +:+ t).
Proof. reflexivity. Qed.

Lemma str_app_nil_l (t : string) : "" +:+ t = t.
Proof. reflexivity. Qed.

Lemma str_app_nil_r (s : string) : s +:+ "" = s.
Proof. induction s as [|c s IH]; [done|]. by rewrite str_app_cons, IH. Qed.

Lemma str_app_assoc (s t u : string) : (s +:+ t) +:+ u = s +:+ (t +:+ u).
Proof. induction s as [|c s IH]; [done|]. by rewrite !str_app_cons, IH. Qed.

Lemma str_app_length (s t : string) :
  String.length (s +:+ t) = String.length s + String.length t.
Proof. induction s as [|c s IH]; [done|]. rewrite str_app_cons. simpl. by rewrite IH. Qed.

Lemma str_app_eq_nil (s t : string) : s +:+ t = "" → s = "" ∧ t = "".
Proof. destruct s; [done|]. by rewrite str_app_cons. Qed.

Lemma to_list_app (s t : string) :
  list_ascii_of_string (s +:+ t)
  = list_ascii_of_string s ++ list_ascii_of_string t.
Proof. induction s as [|c s IH]; [done|]. rewrite str_app_cons. simpl. by rewrite IH. Qed.

Lemma to_list_inj (s t : string) :
  list_ascii_of_string s = list_ascii_of_string t → s = t.
Proof.
  intros H. rewrite <- (string_of_list_ascii_of_string s),
    <- (string_of_list_ascii_of_string t). by rewrite H.
Qed.

Lemma str_app_inv_tail (s1 s2 t : string) : s1 +:+ t = s2 +:+ t → s1 = s2.
Proof.
  intros H. apply to_list_inj.
  apply (f_equal list_ascii_of_string) in H. rewrite !to_list_app in H.
  by apply (inj (λ l, l ++ list_ascii_of_string t)) in H.
Qed.

Lemma eqb_false_length (s t : string) :
  String.length s ≠ String.length t → String.eqb s t = false.
Proof. intros H. apply String.eqb_neq. by intros ->. Qed.

Lemma last_char_app (s t : string) :
  t ≠ "" → last_char (s +:+ t) = last_char t.
Proof.
  intros Ht. unfold last_char. rewrite to_list_app, last_app.
  destruct t as [|c t]; [done|]. simpl.
  by rewrite last_cons; destruct (last (list_ascii_of_string t)).
Qed.

Lemma map_chars_app f (s t : string) :
  map_chars f (s +:+ t) = map_chars f s +:+ map_chars f t.
Proof. induction s as [|c s IH]; [done|]. rewrite str_app_cons. simpl. by rewrite IH, str_app_cons. Qed.

Lemma map_chars_length f (s : string) :
  String.length (map_chars f s) = String.length s.
Proof. induction s as [|c s IH]; [done|]. simpl. by rewrite IH. Qed.

Lemma all_chars_app p (s t : string) :
  all_chars p (s +:+ t) = all_chars p s && all_chars p t.
Proof.
  induction s as [|c s IH]; [done|]. rewrite str_app_cons. simpl.
  by rewrite IH, andb_assoc.
Qed.

Lemma all_chars_impl (p q : ascii → bool) (s : string) :
  (∀ c, p c = true → q c = true) →
  all_chars p s = true → all_chars q s = true.
Proof.
  intros Hpq. induction s as [|c s IH]; [done|]. simpl.
  rewrite !andb_true_iff. intros [? ?]. auto.
Qed.

Lemma all_chars_replace_outside keep rep (s : string) :
  keep rep = true → all_chars keep (replace_outside keep rep s) = true.
Proof.
  intros Hrep. unfold replace_outside.
  induction s as [|c s IH]; [done|]. simpl. rewrite IH, andb_true_r.
  by destruct (keep c) eqn:E.
Qed.

Lemma strip_prefix_app (p r : string) : strip_prefix p (p +:+ r) = Some r.
Proof.
  induction p as [|c p IH]; [done|]. rewrite str_app_cons. simpl.
  by rewrite Ascii.eqb_refl.
Qed.

Lemma strip_prefix_Some (p s r : string) :
  strip_prefix p s = Some r → s = p +:+ r.
Proof.
  revert s. induction p as [|c p IH]; intros s; simpl.
  - by intros [= ->].
  - destruct s as [|d s]; [done|].
    destruct (Ascii.eqb_spec c d) as [->|]; [|done].
    intros H. rewrite str_app_cons. f_equal. by apply IH.
Qed.

Lemma endsWith_unfold (suf s : string) :
  endsWith suf s =
    if String.eqb s suf then true
    else match s with
         | EmptyString => false
         | String _ s' => endsWith suf s'
         end.
Proof. by destruct s. Qed.

Lemma endsWith_app (suf b : string) : endsWith suf (b +:+ suf) = true.
Proof.
  induction b as [|c b IH].
  - by rewrite str_app_nil_l, endsWith_unfold, String.eqb_refl.
  - rewrite str_app_cons, endsWith_unfold, IH. by destruct (String.eqb _ _).
Qed.

Lemma endsWith_spec (suf s : string) :
  endsWith suf s = true → ∃ b, s = b +:+ suf.
Proof.
  induction s as [|c s IH]; simpl.
  - destruct suf; [by exists ""|done].
  - destruct (String.eqb_spec (String c s) suf) as [<-|_].
    + by exists "".
    + intros [b ->]%IH. by exists (String c b).
Qed.

(** What the case-insensitive removal of a trailing extension does. *)
Lemma strip_suffix_ci_spec (suf s : string) :
  strip_suffix_ci suf s = s
  ∨ ∃ e, s = strip_suffix_ci suf s +:+ e ∧ lower e = suf.
Proof.
  induction s as [|c s IH]; simpl.
  - destruct (String.eqb_spec (lower "") suf); [right; by exists ""|by left].
  - destruct (String.eqb_spec (lower (String c s)) suf) as [E|_].
    + right. by exists (String c s).
    + destruct IH as [->|(e & He & Hl)]; [by left|].
      right. exists e. split; [|done]. by rewrite str_app_cons, <- He.
Qed.

Lemma all_chars_strip_suffix_ci p suf (s : string) :
  all_chars p s = true → all_chars p (strip_suffix_ci suf s) = true.
Proof.
  induction s as [|c s IH]; simpl.
  - by destruct (String.eqb _ _).
  - destruct (String.eqb _ _); [done|]. simpl.
    rewrite !andb_true_iff. intros [? ?]. auto.
Qed.

End StringFacts.

(** ** Paths *)

Section PathFacts.
Import JsString NodePath.

Lemma split_not_nil (s : string) : split s ≠ [].
Proof. destruct s as [|c s]; simpl; [done|]. by destruct (is_sep c), (split s). Qed.

Lemma split_no_sep (f : string) : no_sep f = true → split f = [f].
Proof.
  unfold no_sep. induction f as [|c f IH]; simpl; [done|].
  rewrite andb_true_iff, negb_true_iff. intros [-> Hf]. by rewrite IH.
Qed.

Lemma split_app (d f : string) :
  no_sep f = true → split (d +:+ "/" +:+ f) = split d ++ [f].
Proof.
  intros Hf. induction d as [|c d IH].
  - rewrite str_app_nil_l. change ("/" +:+ f) with (String "/" f).
    simpl. by rewrite split_no_sep.
  - rewrite str_app_cons. simpl. rewrite IH.
    pose proof (split_not_nil d). by destruct (is_sep c), (split d).
Qed.

Lemma entry_name_inv (f : string) :
  is_entry_name f = true →
  f ≠ "" ∧ f ≠ "." ∧ f ≠ ".." ∧ no_sep f = true.
Proof.
  unfold is_entry_name. rewrite !andb_true_iff, !negb_true_iff.
  intros [[[H1 H2] H3] H4].
  by apply String.eqb_neq in H1, H2, H3.
Qed.

Lemma resolve_step_entry a stack (f : string) :
  is_entry_name f = true → resolve_step a stack f = f :: stack.
Proof.
  intros (H1 & H2 & H3 & _)%entry_name_inv. unfold resolve_step.
  by apply String.eqb_neq in H1 as ->, H2 as ->, H3 as ->.
Qed.

Lemma resolve_snoc a segs (f : string) :
  is_entry_name f = true → resolve a (segs ++ [f]) = resolve a segs ++ [f].
Proof.
  intros Hf. unfold resolve. rewrite fold_left_app. simpl.
  by rewrite resolve_step_entry.
Qed.

Lemma join_segs_snoc segs (f : string) :
  join_segs (segs ++ [f]) = with_seps segs +:+ f.
Proof.
  induction segs as [|s segs IH]; [done|]. simpl.
  rewrite !str_app_assoc, <- IH. by destruct (segs ++ [f]) eqn:E; [destruct segs|].
Qed.

Lemma isAbsolute_app (d t : string) :
  d ≠ "" → isAbsolute (d +:+ t) = isAbsolute d.
Proof. by destruct d. Qed.

Lemma no_sep_not_absolute (f : string) : no_sep f = true → isAbsolute f = false.
Proof.
  destruct f as [|c f]; [done|]. unfold no_sep. simpl.
  rewrite andb_true_iff, negb_true_iff. by intros [? _].
Qed.

Lemma no_sep_no_trailing (t f : string) :
  f ≠ "" → no_sep f = true → trailingSeparator (t +:+ f) = false.
Proof.
  intros Hne Hf. unfold trailingSeparator. rewrite last_char_app by done.
  unfold last_char. destruct (last _) as [c|] eqn:E; [|done].
  apply last_Some in E as [l' E].
  assert (all_chars (λ c, negb (is_sep c)) f = true) as Hall by done.
  clear Hf Hne. revert l' E. induction f as [|d f IH]; intros l' E.
  - by destruct l'.
  - simpl in *. apply andb_true_iff in Hall as [Hd Hall].
    destruct l' as [|x l'].
    + simplify_eq/=. destruct f; [|done]. simplify_eq/=.
      by apply negb_true_iff in Hd.
    + simplify_eq/=. by eapply IH.
Qed.

(** [path.join] with a plain entry name appends it to the directory. *)
Lemma join_entry (d f : string) :
  is_entry_name f = true → join d f = dir_prefix d +:+ f.
Proof.
  intros Hf. pose proof (entry_name_inv _ Hf) as (Hne & _ & _ & Hsep).
  unfold join, dir_prefix.
  apply String.eqb_neq in Hne as Hne'. rewrite Hne'.
  destruct (String.eqb_spec d "") as [->|Hd].
  - unfold normalize. rewrite Hne', (no_sep_not_absolute f) by done.
    pose proof (no_sep_no_trailing "" f Hne Hsep) as Ht.
    rewrite str_app_nil_l in Ht. rewrite Ht.
    rewrite split_no_sep by done.
    change [f] with ([] ++ [f]). rewrite resolve_snoc by done.
    rewrite join_segs_snoc. simpl. by rewrite !str_app_nil_l, Hne'.
  - unfold normalize.
    assert (d +:+ "/" +:+ f ≠ "") as ->%String.eqb_neq
      by (by intros [? _]%str_app_eq_nil).
    rewrite isAbsolute_app by done.
    rewrite <- str_app_assoc, no_sep_no_trailing, str_app_assoc by done.
    rewrite split_app, resolve_snoc, join_segs_snoc by done.
    fold (with_seps (resolve (negb (isAbsolute d)) (split d))).
    assert (with_seps (resolve (negb (isAbsolute d)) (split d)) +:+ f ≠ "")
      as ->%String.eqb_neq by (by intros [_ ?]%str_app_eq_nil).
    destruct (isAbsolute d); by rewrite ?str_app_assoc.
Qed.

Lemma with_seps_shape segs :
  with_seps segs = "" ∨ ∃ q, with_seps segs = q +:+ "/".
Proof.
  induction segs as [|s segs IH]; [by left|]. right. simpl.
  destruct IH as [->|[q ->]].
  - exists s. by rewrite str_app_nil_r.
  - exists (s +:+ "/" +:+ q). by rewrite !str_app_assoc.
Qed.

Lemma dir_prefix_shape (d : string) :
  dir_prefix d = "" ∨ ∃ q, dir_prefix d = q +:+ "/".
Proof.
  unfold dir_prefix. destruct (String.eqb d ""); [by left|].
  fold (with_seps (resolve (negb (isAbsolute d)) (split d))).
  destruct (with_seps_shape (resolve (negb (isAbsolute d)) (split d)))
    as [->|[q ->]]; destruct (isAbsolute d).
  - right. by exists "".
  - by left.
  - right. exists ("/" +:+ q). by rewrite str_app_assoc.
  - right. by exists q.
Qed.

Lemma basename_entry (pre f : string) :
  (pre = "" ∨ ∃ q, pre = q +:+ "/") → f ≠ "" → no_sep f = true →
  basename (pre +:+ f) = f.
Proof.
  intros Hpre Hne Hf. unfold basename.
  assert (∃ l, split (pre +:+ f) = l ++ [f]) as [l ->].
  { destruct Hpre as [->|[q ->]].
    - exists []. by rewrite str_app_nil_l, split_no_sep.
    - exists (split q). by rewrite str_app_assoc, split_app. }
  rewrite List.filter_app. simpl.
  apply String.eqb_neq in Hne as ->. simpl. by rewrite List.last_last.
Qed.

End PathFacts.

(** ** Document store: name resolution *)

Section Resolution.
Import JsString NodePath.

Lemma safe_char_not_sep c : safe_char c = true → negb (is_sep c) = true.
Proof.
  intros H. unfold is_sep. destruct (Ascii.eqb_spec c "/") as [->|]; [|done].
  by vm_compute in H.
Qed.

Lemma sanitizeFilename_safe (filename : string) :
  all_chars safe_char (sanitizeFilename filename) = true.
Proof. by apply all_chars_replace_outside. Qed.

Lemma entryName_safe (filename : string) :
  all_chars safe_char (entryName filename) = true.
Proof.
  unfold entryName, baseFilename. rewrite all_chars_app, andb_true_iff.
  split; [|done].
  apply all_chars_strip_suffix_ci, sanitizeFilename_safe.
Qed.

Lemma json_suffix_entry (b : string) :
  no_sep b = true → is_entry_name (b +:+ ".json") = true.
Proof.
  intros Hb. unfold is_entry_name.
  rewrite !eqb_false_length by (rewrite str_app_length; simpl; lia). simpl.
  fold (no_sep (b +:+ ".json")). unfold no_sep in *.
  by rewrite all_chars_app, Hb.
Qed.

Lemma entryName_is_entry (filename : string) :
  is_entry_name (entryName filename) = true.
Proof.
  apply json_suffix_entry. unfold no_sep.
  pose proof (entryName_safe filename) as H. unfold entryName in H.
  rewrite all_chars_app, andb_true_iff in H. destruct H as [H _].
  eapply all_chars_impl; [apply safe_char_not_sep|done].
Qed.

Lemma getFilePath_eq (fm : FileManager) (filename : string) :
  getFilePath fm filename = dir_prefix (dataDir fm) +:+ entryName filename.
Proof. apply join_entry, entryName_is_entry. Qed.

Lemma child_file_entry (pre f : string) :
  is_entry_name f = true → child_file pre (pre +:+ f) = Some f.
Proof. intros Hf. unfold child_file. by rewrite strip_prefix_app, Hf. Qed.

End Resolution.

(** C1 (as amended). For every request name, [getFilePath] - through
    which read, write, delete and exists all resolve the name - yields
    the data directory followed by [<base>.json], where [<base>] is the
    last path component of the request with every character outside
    [A-Za-z0-9._-] replaced by an underscore and one trailing [.json]
    (in any letter case) removed. The resulting entry name consists of
    safe characters only, is a plain entry of the data directory (no
    separator, never [.] or [..]), and always ends in [.json]; only one
    trailing extension is removed, so nothing is promised about names
    that already carry a doubled extension. *)
Theorem getFilePath_contained (fm : FileManager) (filename : string) :
  let sanitized :=
    JsString.replace_outside safe_char "_" (NodePath.basename filename) in
  let base := JsString.strip_suffix_ci ".json" sanitized in
  getFilePath fm filename
    = NodePath.dir_prefix (dataDir fm) +:+ (base +:+ ".json")
  ∧ JsString.all_chars safe_char (base +:+ ".json") = true
  ∧ NodePath.is_entry_name (base +:+ ".json") = true
  ∧ child_file (NodePath.dir_prefix (dataDir fm)) (getFilePath fm filename)
      = Some (base +:+ ".json")
  ∧ JsString.endsWith ".json" (base +:+ ".json") = true
  ∧ (sanitized = base
     ∨ ∃ e, sanitized = base +:+ e ∧ JsString.lower e = ".json")
  ∧ (∀ other, getFilePath fm other = getFilePath fm filename →
       ∀ lib d,
         readFile lib fm other = readFile lib fm filename
         ∧ writeFile lib fm other d = writeFile lib fm filename d
         ∧ deleteFile fm other = deleteFile fm filename
         ∧ fileExists fm other = fileExists fm filename).
Proof.
  intros sanitized base.
  change (base +:+ ".json") with (entryName filename).
  split_and!.
  - apply getFilePath_eq.
  - apply entryName_safe.
  - apply entryName_is_entry.
  - rewrite getFilePath_eq. apply child_file_entry, entryName_is_entry.
  - apply endsWith_app.
  - destruct (strip_suffix_ci_spec ".json" sanitized) as [H|H]; [left|right]; done.
  - intros other H lib d.
    unfold readFile, writeFile, deleteFile, fileExists. by rewrite H.
Qed.

(** C1, the claim as stated fails: a request for [a.json.json] resolves
    to an entry that carries the extension twice. *)
Lemma getFilePath_double_extension :
  NodePath.basename (getFilePath example_fm "a.json.json") = "a.json.json"
  ∧ one_json_extension
      (NodePath.basename (getFilePath example_fm "a.json.json")) = false.
Proof. by vm_compute. Qed.

Example one_json_extension_plain :
  one_json_extension (NodePath.basename (getFilePath example_fm "a.JSON"))
  = true.
Proof. by vm_compute. Qed.

(** ** The file system calls *)

Section FsFacts.
Implicit Types (w : World) (p : string).

Lemma env_same_refl w : env_same w w.
Proof. done. Qed.

Lemma env_same_trans w1 w2 w3 :
  env_same w1 w2 → env_same w2 w3 → env_same w1 w3.
Proof. unfold env_same. intros (-> & -> & ->) (-> & -> & ->). done. Qed.

Lemma writeFileSync_eq p content w :
  writeFileSync p content w =
    match cur_fault w with
    | NoFault => (Ret tt, set_files (insert p content) (tick w))
    | Fail msg => (Throw msg, tick w)
    | FailPartial msg n =>
        (Throw msg,
         set_files (insert p (JsString.take_chars n content)) (tick w))
    end.
Proof.
  unfold writeFileSync, bind, next_fault, throw. by destruct (cur_fault w).
Qed.

Lemma renameSync_eq src dst w :
  renameSync src dst w =
    match files w !! src with
    | None => (Throw (enoent "rename" (from_to src dst)), w)
    | Some c =>
        match cur_fault w with
        | NoFault =>
            (Ret tt, set_files (λ m, <[dst := c]> (delete src m)) (tick w))
        | Fail msg | FailPartial msg _ => (Throw msg, tick w)
        end
    end.
Proof.
  unfold renameSync, bind, next_fault, throw.
  destruct (files w !! src); [|done]. by destruct (cur_fault w).
Qed.

Lemma unlinkSync_eq p w :
  unlinkSync p w =
    match files w !! p with
    | None =>
        (Throw (if is_dir p w then eisdir "unlink" p else enoent "unlink" p),
         w)
    | Some _ =>
        match cur_fault w with
        | NoFault => (Ret tt, set_files (delete p) (tick w))
        | Fail msg | FailPartial msg _ => (Throw msg, tick w)
        end
    end.
Proof.
  unfold unlinkSync, bind, next_fault, throw.
  destruct (files w !! p); [|by destruct (is_dir p w)].
  by destruct (cur_fault w).
Qed.

Lemma readFileSync_eq p w :
  readFileSync p w =
    match files w !! p with
    | None => (Throw (if is_dir p w then eisdir_read else enoent "open" p), w)
    | Some c =>
        match cur_fault w with
        | NoFault => (Ret c, tick w)
        | Fail msg | FailPartial msg _ => (Throw msg, tick w)
        end
    end.
Proof.
  unfold readFileSync, bind, next_fault, throw, ret.
  destruct (files w !! p); [|by destruct (is_dir p w)].
  by destruct (cur_fault w).
Qed.

Lemma readdirSync_eq d w :
  readdirSync d w =
    if is_dir d w then
      match cur_fault w with
      | NoFault => (Ret (dir_entries d w), tick w)
      | Fail msg | FailPartial msg _ => (Throw msg, tick w)
      end
    else
      (Throw (if is_file d w then enotdir "scandir" d
              else enoent "scandir" d), w).
Proof.
  unfold readdirSync, bind, next_fault, throw, ret.
  destruct (is_dir d w); [|by destruct (is_file d w)].
  by destruct (cur_fault w).
Qed.

Lemma is_file_true p w : is_file p w = true ↔ is_Some (files w !! p).
Proof. unfold is_file. by rewrite bool_decide_eq_true. Qed.

Lemma is_file_false p w : is_file p w = false ↔ files w !! p = None.
Proof.
  unfold is_file. by rewrite bool_decide_eq_false, eq_None_not_Some.
Qed.

End FsFacts.

(** ** Time stamps and the paths of a write *)

Section PathsOfAWrite.
Import JsString NodePath.

Lemma digit_not_sep n : is_sep (digit n) = false.
Proof.
  unfold digit. assert (n mod 10 < 10)%N as H by (by apply N.mod_lt).
  generalize dependent (n mod 10)%N. intros r Hr.
  assert (r = 0 ∨ r = 1 ∨ r = 2 ∨ r = 3 ∨ r = 4 ∨ r = 5 ∨ r = 6 ∨ r = 7
          ∨ r = 8 ∨ r = 9)%N as Hc by lia.
  destruct_or!; by subst.
Qed.

Lemma pad_no_sep k n : no_sep (pad k n) = true.
Proof.
  revert n. induction k as [|k IH]; intros n; [done|].
  unfold no_sep in *. simpl. rewrite all_chars_app, IH. simpl.
  by rewrite digit_not_sep.
Qed.

Lemma toISOString_no_sep d : no_sep (toISOString d) = true.
Proof.
  pose proof pad_no_sep as Hp. unfold toISOString, no_sep in *.
  destruct (year d <=? 9999)%N; by rewrite !all_chars_app, !Hp.
Qed.

Lemma backup_timestamp_no_sep (iso : string) :
  no_sep iso = true → no_sep (backup_timestamp iso) = true.
Proof.
  unfold no_sep, backup_timestamp, replace_inside.
  induction iso as [|c iso IH]; [done|]. simpl.
  rewrite !andb_true_iff. intros [Hc ?]. split; [|auto].
  by destruct (colon_or_dot c).
Qed.

Lemma backup_timestamp_last d :
  ∃ t, backup_timestamp (toISOString d) = t +:+ "Z".
Proof.
  unfold backup_timestamp, replace_inside, toISOString.
  rewrite map_chars_app. by eexists.
Qed.

Lemma backup_entry_name (filename : string) d :
  is_entry_name
    (entryName filename +:+ "." +:+ backup_timestamp (toISOString d)) = true.
Proof.
  rewrite <- str_app_assoc.
  pose proof (entryName_is_entry filename) as (Hne & _ & _ & Hsep)%entry_name_inv.
  unfold is_entry_name.
  assert (5 ≤ String.length (entryName filename)) as Hlen
    by (unfold entryName; rewrite str_app_length; simpl; lia).
  rewrite !eqb_false_length by (rewrite !str_app_length; simpl; lia). simpl.
  fold (no_sep ((entryName filename +:+ ".")
                +:+ backup_timestamp (toISOString d))).
  unfold no_sep in *. rewrite !all_chars_app, Hsep. simpl.
  apply backup_timestamp_no_sep, toISOString_no_sep.
Qed.

Lemma basename_getFilePath (fm : FileManager) (filename : string) :
  basename (getFilePath fm filename) = entryName filename.
Proof.
  rewrite getFilePath_eq.
  pose proof (entryName_is_entry filename) as (? & _ & _ & ?)%entry_name_inv.
  by apply basename_entry; [apply dir_prefix_shape|..].
Qed.

(** The backup of a document goes to
    [<historyDir>/<base>.json.<timestamp>]. *)
Lemma backupPath_eq (fm : FileManager) (filename : string) d :
  backupPath fm (getFilePath fm filename) (toISOString d)
  = dir_prefix (historyDir fm)
    +:+ (entryName filename +:+ "." +:+ backup_timestamp (toISOString d)).
Proof.
  unfold backupPath. rewrite basename_getFilePath.
  apply join_entry, backup_entry_name.
Qed.

Lemma last_char_getFilePath (fm : FileManager) (filename : string) :
  last_char (getFilePath fm filename) = Some "n"%char.
Proof.
  rewrite getFilePath_eq. unfold entryName.
  by rewrite <- str_app_assoc, last_char_app.
Qed.

Lemma last_char_backupPath (fm : FileManager) (filename : string) d :
  last_char (backupPath fm (getFilePath fm filename) (toISOString d))
  = Some "Z"%char.
Proof.
  rewrite backupPath_eq. destruct (backup_timestamp_last d) as [t ->].
  by rewrite <- !str_app_assoc, last_char_app.
Qed.

Lemma tempPath_ne (fm : FileManager) (filename : string) :
  getFilePath fm filename +:+ ".tmp" ≠ getFilePath fm filename.
Proof.
  intros H. apply (f_equal String.length) in H.
  rewrite str_app_length in H. simpl in H. lia.
Qed.

Lemma backupPath_ne_file (fm : FileManager) (filename : string) d :
  backupPath fm (getFilePath fm filename) (toISOString d)
  ≠ getFilePath fm filename.
Proof.
  intros H. apply (f_equal last_char) in H.
  by rewrite last_char_backupPath, last_char_getFilePath in H.
Qed.

Lemma backupPath_ne_temp (fm : FileManager) (filename : string) d :
  backupPath fm (getFilePath fm filename) (toISOString d)
  ≠ getFilePath fm filename +:+ ".tmp".
Proof.
  intros H. apply (f_equal last_char) in H.
  by rewrite last_char_backupPath, last_char_app in H.
Qed.

End PathsOfAWrite.

(** ** Document store: writing, backing up, deleting *)

Section Store.
Local Open Scope io_scope.

Lemma bind_eq {A B} (m : IO A) (k : A → IO B) w :
  bind m k w =
    match m w with
    | (Ret a, w') => k a w'
    | (Throw msg, w') => (Throw msg, w')
    end.
Proof. done. Qed.

Lemma try_catch_eq {A} (m : IO A) (h : string → IO A) w :
  try_catch m h w =
    match m w with
    | (Ret a, w') => (Ret a, w')
    | (Throw msg, w') => h msg w'
    end.
Proof. done. Qed.

Lemma createBackup_eq fm (filePath : string) w :
  createBackup fm filePath w =
    if is_file filePath w || is_dir filePath w then
      match files w !! filePath with
      | None =>
          let B := backupPath fm filePath (toISOString (today w)) in
          (Ret tt,
           add_warning
             (backup_warning filePath
                (if is_dir filePath w
                 then eisdir "copyfile" (from_to filePath B)
                 else enoent "copyfile" (from_to filePath B))) w)
      | Some c =>
          let B := backupPath fm filePath (toISOString (today w)) in
          match cur_fault w with
          | NoFault => (Ret tt, set_files (insert B c) (tick w))
          | Fail msg => (Ret tt, add_warning (backup_warning filePath msg) (tick w))
          | FailPartial msg n =>
              (Ret tt, add_warning (backup_warning filePath msg)
                         (set_files (insert B (JsString.take_chars n c)) (tick w)))
          end
      end
    else (Ret tt, w).
Proof.
  unfold createBackup, try_catch, bind, existsSync, new_Date_toISOString,
    copyFileSync, console_warn, ret.
  destruct (is_file filePath w || is_dir filePath w); [|done].
  destruct (files w !! filePath); [|by destruct (is_dir filePath w)].
  rewrite writeFileSync_eq. by destruct (cur_fault w).
Qed.

Lemma createBackup_frame fm (filePath : string) w :
  ∃ w1, createBackup fm filePath w = (Ret tt, w1) ∧ env_same w w1
    ∧ ∀ k, k ≠ backupPath fm filePath (toISOString (today w)) →
           files w1 !! k = files w !! k.
Proof.
  rewrite createBackup_eq.
  destruct (is_file filePath w || is_dir filePath w); [|by eexists].
  destruct (files w !! filePath); [|by eexists].
  destruct (cur_fault w); eexists; (split; [done|]); (split; [done|]);
    intros k Hk; simpl; by rewrite ?lookup_insert_ne.
Qed.

(** The [catch] block of [writeFile]. *)
Lemma writeFile_cleanup (tempPath msg : string) w :
  ∃ w',
    (let! e := existsSync tempPath in
     let! _ := (if e then
                  try_catch (unlinkSync tempPath)
                    (λ cleanupError,
                       console_warn ("Failed to cleanup temp file: "
                                     +:+ cleanupError))
                else ret tt) in
     ret (mkFileOperation false None
            (Some ("Failed to write file: " +:+ msg)))) w
    = (Ret (write_failure msg), w')
    ∧ (∀ k, k ≠ tempPath → files w' !! k = files w !! k)
    ∧ (files w' !! tempPath = None
       ∨ ∃ m, last (warnings w') = Some (cleanup_warning m))
    ∧ env_same w w'.
Proof.
  rewrite bind_eq. unfold existsSync.
  destruct (is_file tempPath w) eqn:Ef; simpl.
  - apply is_file_true in Ef as [c Ec].
    rewrite bind_eq, try_catch_eq, unlinkSync_eq, Ec.
    destruct (cur_fault w); eexists; (split; [done|]); simpl;
      (split_and!; [by intros; rewrite ?lookup_delete_ne| |done]).
    + left. apply lookup_delete_eq.
    + right. eexists. by rewrite last_snoc.
    + right. eexists. by rewrite last_snoc.
  - apply is_file_false in Ef.
    destruct (is_dir tempPath w).
    + rewrite bind_eq, try_catch_eq, unlinkSync_eq, Ef.
      eexists; split; [done|]. by split_and!; [|left|].
    + eexists; split; [done|]. by split_and!; [|left|].
Qed.

(** Everything [writeFile] does, relative to the world [w1] in which
    [createBackup] leaves it. *)
Lemma writeFile_spec lib fm (filename : string) (d : json) w :
  let filePath := getFilePath fm filename in
  let tempPath := filePath +:+ ".tmp" in
  ∃ w1 res w',
    createBackup fm filePath w = (Ret tt, w1)
    ∧ writeFile lib fm filename d w = (Ret res, w')
    ∧ (success res = true
       ↔ cur_fault w1 = NoFault ∧ cur_fault (tick w1) = NoFault)
    ∧ (success res = true →
         data res = Some d
         ∧ files w' !! filePath = Some (JSON_stringify lib d)
         ∧ files w' !! tempPath = None)
    ∧ (success res = false →
         files w' !! filePath = files w1 !! filePath
         ∧ (files w' !! tempPath = None
            ∨ ∃ m, last (warnings w') = Some (cleanup_warning m)))
    ∧ (∀ k, k ≠ filePath → k ≠ tempPath → files w' !! k = files w1 !! k)
    ∧ env_same w w'.
Proof.
  intros filePath tempPath.
  pose proof (tempPath_ne fm filename) as HT. fold filePath tempPath in HT.
  destruct (createBackup_frame fm filePath w) as (w1 & E1 & Henv & _).
  exists w1. unfold writeFile. fold filePath tempPath. cbv zeta.
  rewrite try_catch_eq, bind_eq, E1, bind_eq, writeFileSync_eq.
  assert (∀ w2 w', env_same w1 w2 → env_same w2 w' → env_same w w') as Htrans.
  { intros w2 w' H2 H3. eapply env_same_trans; [done|].
    by eapply env_same_trans. }
  destruct (cur_fault w1) eqn:F1.
  - rewrite bind_eq, renameSync_eq. simpl. rewrite lookup_insert_eq.
    change (cur_fault (set_files _ (tick w1))) with (cur_fault (tick w1)).
    destruct (cur_fault (tick w1)) eqn:F2.
    + eexists _, _. split; [done|]. split; [done|]. split; [done|].
      split; [|split; [done|split]].
      * intros _. simpl. split_and!; [done|by rewrite lookup_insert_eq|].
        by rewrite lookup_insert_ne, lookup_delete_eq.
      * intros k ? ?. simpl.
        by rewrite lookup_insert_ne, lookup_delete_ne, lookup_insert_ne.
      * by eapply Htrans.
    + edestruct writeFile_cleanup as (w' & -> & Hk & Ht & Henv').
      eexists _, _. split; [done|]. split; [done|].
      split; [by intuition|]. split; [done|]. split; [|split].
      * intros _. split; [|done]. rewrite Hk by done. simpl.
        by rewrite lookup_insert_ne.
      * intros k ? ?. rewrite Hk by done. simpl. by rewrite lookup_insert_ne.
      * by eapply Htrans.
    + edestruct writeFile_cleanup as (w' & -> & Hk & Ht & Henv').
      eexists _, _. split; [done|]. split; [done|].
      split; [by intuition|]. split; [done|]. split; [|split].
      * intros _. split; [|done]. rewrite Hk by done. simpl.
        by rewrite lookup_insert_ne.
      * intros k ? ?. rewrite Hk by done. simpl. by rewrite lookup_insert_ne.
      * by eapply Htrans.
  - edestruct writeFile_cleanup as (w' & -> & Hk & Ht & Henv').
    eexists _, _. split; [done|]. split; [done|].
    split; [by intuition|]. split; [done|]. split; [|split].
    + intros _. split; [|done]. by rewrite Hk.
    + intros k ? ?. by rewrite Hk.
    + by eapply Htrans.
  - edestruct writeFile_cleanup as (w' & -> & Hk & Ht & Henv').
    eexists _, _. split; [done|]. split; [done|].
    split; [by intuition|]. split; [done|]. split; [|split].
    + intros _. split; [|done]. rewrite Hk by done. simpl.
      by rewrite lookup_insert_ne.
    + intros k ? ?. rewrite Hk by done. simpl. by rewrite lookup_insert_ne.
    + by eapply Htrans.
Qed.

(** The backup step on a document that exists. *)
Lemma createBackup_existing fm (filename : string) w (old : string) :
  let filePath := getFilePath fm filename in
  let backup :=
    NodePath.dir_prefix (historyDir fm)
    +:+ (entryName filename +:+ "."
         +:+ backup_timestamp (toISOString (today w))) in
  files w !! filePath = Some old →
  ∃ w1,
    createBackup fm filePath w = (Ret tt, w1)
    ∧ faults w1 = faults (tick w)
    ∧ (cur_fault w = NoFault → w1 = set_files (insert backup old) (tick w)).
Proof.
  intros filePath backup Hold. rewrite createBackup_eq. unfold is_file.
  rewrite Hold, bool_decide_true by done. simpl.
  unfold filePath. rewrite backupPath_eq.
  destruct (cur_fault w); eexists; by split_and!.
Qed.

End Store.


(** ** The backup directory *)

Section BackupEntries.
Import JsString NodePath.

Lemma dir_entries_Permutation d w : dir_entries d w ≡ₚ dir_names d w.
Proof. apply merge_sort_Permutation. Qed.

Lemma omap_filter_is_Some {A B} (f : A → option B) (l : list A) :
  omap f (filter (λ k, is_Some (f k)) l) = omap f l.
Proof.
  induction l as [|x l IH]; [done|].
  destruct (f x) as [y|] eqn:E.
  - rewrite filter_cons_True by by eexists. csimpl. by rewrite E, IH.
  - rewrite filter_cons_False by (rewrite E; by intros [??]).
    csimpl. by rewrite E, IH.
Qed.

Lemma omap_elements_same (f : string → option string) (X X' : gset string) :
  (∀ k, is_Some (f k) → (k ∈ X' ↔ k ∈ X)) →
  omap f (elements X') ≡ₚ omap f (elements X).
Proof.
  intros HX.
  rewrite <- (omap_filter_is_Some f (elements X')),
          <- (omap_filter_is_Some f (elements X)).
  apply omap_Permutation, NoDup_Permutation.
  - apply NoDup_filter, NoDup_elements.
  - apply NoDup_filter, NoDup_elements.
  - intros k. rewrite !list_elem_of_filter, !elem_of_elements.
    split; intros [HP Hk]; (split; [done|]); by apply HX.
Qed.

Lemma omap_elements_add (f : string → option string) (X X' : gset string)
    (b e : string) :
  f b = Some e → b ∉ X → b ∈ X' →
  (∀ k, k ≠ b → is_Some (f k) → (k ∈ X' ↔ k ∈ X)) →
  omap f (elements X') ≡ₚ e :: omap f (elements X).
Proof.
  intros Hb Hout Hin HX.
  rewrite <- (omap_filter_is_Some f (elements X')),
          <- (omap_filter_is_Some f (elements X)).
  assert (e :: omap f (filter (λ k, is_Some (f k)) (elements X))
          = omap f (b :: filter (λ k, is_Some (f k)) (elements X))) as ->
    by (csimpl; by rewrite Hb).
  apply omap_Permutation, NoDup_Permutation.
  - apply NoDup_filter, NoDup_elements.
  - apply NoDup_cons. split; [|apply NoDup_filter, NoDup_elements].
    rewrite list_elem_of_filter, elem_of_elements. by intros [_ ?].
  - intros k. rewrite elem_of_cons, !list_elem_of_filter, !elem_of_elements.
    destruct (decide (k = b)) as [->|Hne].
    + split; [by left|]. intros _. split; [by rewrite Hb|done].
    + split.
      * intros [HP Hk]. right. split; [done|]. by apply HX.
      * intros [?|[HP Hk]]; [done|]. split; [done|]. by apply HX.
Qed.

(** A path in one directory is no entry of another. *)
Lemma child_file_other_dir (d d' f : string) :
  dir_prefix d ≠ dir_prefix d' → f ≠ "" → no_sep f = true →
  child_file (dir_prefix d) (dir_prefix d' +:+ f) = None.
Proof.
  intros Hd Hne Hf. unfold child_file.
  destruct (strip_prefix _ _) as [n|] eqn:E; [|done].
  destruct (is_entry_name n) eqn:En; [|done]. exfalso. apply Hd.
  apply strip_prefix_Some in E.
  apply entry_name_inv in En as (Hn & _ & _ & Hnsep).
  pose proof (basename_entry _ f (dir_prefix_shape d') Hne Hf) as B1.
  pose proof (basename_entry _ n (dir_prefix_shape d) Hn Hnsep) as B2.
  rewrite E, B2 in B1. subst n. symmetry. by apply str_app_inv_tail in E.
Qed.

(** What a new or overwritten file does to the listing of a directory
    in which nothing else changes. *)
Lemma dir_entries_file (d b e : string) (old : string) w w' :
  dirs w' = dirs w →
  child_file (dir_prefix d) b = Some e →
  files w' !! b = Some old →
  (∀ k, k ≠ b → is_Some (child_file (dir_prefix d) k) →
        files w' !! k = files w !! k) →
  (e ∉ dir_entries d w → dir_entries d w' ≡ₚ e :: dir_entries d w)
  ∧ (is_Some (files w !! b) → dir_entries d w' ≡ₚ dir_entries d w).
Proof.
  intros Hdirs Hb Hnew Hk.
  rewrite !dir_entries_Permutation. unfold dir_names. rewrite Hdirs.
  split.
  - intros Hout.
    rewrite (omap_elements_add _ (dom (files w)) (dom (files w')) b e);
      [done|done| |by apply elem_of_dom|].
    + intros Hin. apply Hout. apply elem_of_app. left.
      apply list_elem_of_omap. exists b. by rewrite elem_of_elements.
    + intros k Hne HP. rewrite !elem_of_dom. by rewrite Hk.
  - intros Hold.
    rewrite (omap_elements_same _ (dom (files w)) (dom (files w')));
      [done|].
    intros k HP. rewrite !elem_of_dom.
    destruct (decide (k = b)) as [->|Hne]; [by rewrite Hnew|].
    by rewrite Hk.
Qed.

Lemma store_paths_outside (fm : FileManager) (filename : string) :
  dir_prefix (historyDir fm) ≠ dir_prefix (dataDir fm) →
  child_file (dir_prefix (historyDir fm)) (getFilePath fm filename) = None
  ∧ child_file (dir_prefix (historyDir fm))
      (getFilePath fm filename +:+ ".tmp") = None.
Proof.
  intros Hd.
  pose proof (entryName_is_entry filename)
    as (Hne & _ & _ & Hsep)%entry_name_inv.
  rewrite getFilePath_eq. split.
  - by apply child_file_other_dir.
  - rewrite str_app_assoc. apply child_file_other_dir; [done| |].
    + by intros [? _]%str_app_eq_nil.
    + unfold no_sep in *. rewrite all_chars_app, Hsep. done.
Qed.

End BackupEntries.

(** C3 (as amended). When a document whose file exists is written or
    deleted and the backup copy does not fail, the path
    [<historyDir>/<base>.json.<timestamp>] - a plain entry of the
    backup directory - holds the pre-mutation content afterwards,
    whatever the outcome of the mutation itself, and no path other than
    the backup, the document and (for a write) its temp file is
    changed. With a backup directory other than the data directory, the
    listing of the backup directory then gains exactly one entry, the
    backup, when it had no entry of that name; when a backup file of
    that name is there already - a mutation of the same document in the
    same millisecond - that file is overwritten and the listing gains
    nothing. The backup is best effort: whether the mutation succeeds
    depends only on its own steps (the temp-file write and the rename,
    or the removal), not on the copy. *)
Theorem backup_before_mutation lib fm (filename : string) (d : json) w
    (old : string) :
  let filePath := getFilePath fm filename in
  let tempPath := filePath +:+ ".tmp" in
  let entry :=
    entryName filename +:+ "." +:+ backup_timestamp (toISOString (today w)) in
  let backup := NodePath.dir_prefix (historyDir fm) +:+ entry in
  files w !! filePath = Some old →
  child_file (NodePath.dir_prefix (historyDir fm)) backup = Some entry
  ∧ (∃ res w',
       writeFile lib fm filename d w = (Ret res, w')
       ∧ (success res = true
          ↔ cur_fault (tick w) = NoFault
            ∧ cur_fault (tick (tick w)) = NoFault)
       ∧ (cur_fault w = NoFault →
            files w' !! backup = Some old
            ∧ (∀ k, k ≠ backup → k ≠ filePath → k ≠ tempPath →
                    files w' !! k = files w !! k)
            ∧ (NodePath.dir_prefix (historyDir fm)
               ≠ NodePath.dir_prefix (dataDir fm) →
               (entry ∉ dir_entries (historyDir fm) w →
                  dir_entries (historyDir fm) w'
                  ≡ₚ entry :: dir_entries (historyDir fm) w)
               ∧ (is_Some (files w !! backup) →
                    dir_entries (historyDir fm) w'
                    ≡ₚ dir_entries (historyDir fm) w))))
  ∧ (∃ res w',
       deleteFile fm filename w = (Ret res, w')
       ∧ (success res = true ↔ cur_fault (tick w) = NoFault)
       ∧ (success res = true → files w' !! filePath = None)
       ∧ (cur_fault w = NoFault →
            files w' !! backup = Some old
            ∧ (∀ k, k ≠ backup → k ≠ filePath →
                    files w' !! k = files w !! k)
            ∧ (NodePath.dir_prefix (historyDir fm)
               ≠ NodePath.dir_prefix (dataDir fm) →
               (entry ∉ dir_entries (historyDir fm) w →
                  dir_entries (historyDir fm) w'
                  ≡ₚ entry :: dir_entries (historyDir fm) w)
               ∧ (is_Some (files w !! backup) →
                    dir_entries (historyDir fm) w'
                    ≡ₚ dir_entries (historyDir fm) w)))).
Proof.
  intros filePath tempPath entry backup Hold.
  pose proof (backupPath_ne_file fm filename (today w)) as HB.
  pose proof (backupPath_ne_temp fm filename (today w)) as HBT.
  rewrite backupPath_eq in HB, HBT.
  fold filePath tempPath entry backup in HB, HBT.
  destruct (createBackup_existing fm filename w old Hold)
    as (w1 & Ebackup & Hfaults & Hw1).
  fold filePath entry backup in Ebackup, Hw1.
  assert (cur_fault w1 = cur_fault (tick w)) as Hcur
    by (unfold cur_fault; by rewrite Hfaults).
  assert (cur_fault (tick w1) = cur_fault (tick (tick w))) as Hcur'
    by (unfold cur_fault, tick; simpl; by rewrite Hfaults).
  assert (child_file (NodePath.dir_prefix (historyDir fm)) backup = Some entry)
    as Hentry by apply child_file_entry, backup_entry_name.
  assert (∀ w',
            dirs w' = dirs w →
            files w' !! backup = Some old →
            (∀ k, k ≠ backup → k ≠ filePath → k ≠ tempPath →
                  files w' !! k = files w !! k) →
            NodePath.dir_prefix (historyDir fm) ≠ NodePath.dir_prefix (dataDir fm) →
            (entry ∉ dir_entries (historyDir fm) w →
               dir_entries (historyDir fm) w'
               ≡ₚ entry :: dir_entries (historyDir fm) w)
            ∧ (is_Some (files w !! backup) →
                 dir_entries (historyDir fm) w'
                 ≡ₚ dir_entries (historyDir fm) w)) as Hlist.
  { intros w' Hdirs Hnew Hk Hd.
    destruct (store_paths_outside fm filename Hd) as [Hp Ht].
    fold filePath in Hp, Ht. fold tempPath in Ht.
    apply (dir_entries_file _ backup entry old); [done..|].
    intros k Hne [n Hn]. apply Hk; [done|..]; intros ->; congruence. }
  split_and!.
  - done.
  - destruct (writeFile_spec lib fm filename d w)
      as (w1' & res & w' & E1 & E & Hiff & _ & _ & Hk & Henv).
    fold filePath tempPath in E1, Hk. rewrite Ebackup in E1.
    injection E1 as <-. exists res, w'. split; [done|].
    rewrite Hcur, Hcur' in Hiff. split; [done|].
    intros ->%Hw1.
    assert (files w' !! backup = Some old) as Hnew.
    { rewrite Hk by done. simpl. apply lookup_insert_eq. }
    assert (∀ k, k ≠ backup → k ≠ filePath → k ≠ tempPath →
                 files w' !! k = files w !! k) as Hk'.
    { intros k ? ? ?. rewrite Hk by done. simpl. by rewrite lookup_insert_ne. }
    split; [done|]. split; [done|].
    apply Hlist; [apply Henv|done..].
  - unfold deleteFile. fold filePath. cbv zeta.
    rewrite try_catch_eq, bind_eq. unfold existsSync, is_file.
    rewrite Hold, bool_decide_true by done. simpl.
    rewrite bind_eq, Ebackup, bind_eq, unlinkSync_eq.
    assert (files w1 !! filePath = Some old) as ->.
    { destruct (createBackup_frame fm filePath w) as (w1' & E1 & _ & Hframe).
      rewrite Ebackup in E1. injection E1 as <-.
      rewrite Hframe; [done|]. unfold filePath. rewrite backupPath_eq.
      by apply not_eq_sym. }
    rewrite Hcur.
    destruct (cur_fault (tick w)); eexists _, _; (split; [done|]); simpl.
    + split_and!; [done|by rewrite lookup_delete_eq|].
      intros ->%Hw1. simpl.
      rewrite lookup_delete_ne, lookup_insert_eq by done.
      assert (∀ k, k ≠ backup → k ≠ filePath →
                files (set_files (delete filePath)
                         (tick (set_files (insert backup old) (tick w))))
                  !! k = files w !! k) as Hk'.
      { intros k ? ?. simpl. by rewrite lookup_delete_ne, lookup_insert_ne. }
      split; [done|]. split; [done|].
      apply Hlist; [done| |by intros; apply Hk'].
      simpl. by rewrite lookup_delete_ne, lookup_insert_eq.
    + split_and!; [by intuition|done|].
      intros ->%Hw1. simpl. rewrite lookup_insert_eq.
      assert (∀ k, k ≠ backup → k ≠ filePath →
                files (tick (set_files (insert backup old) (tick w)))
                  !! k = files w !! k) as Hk'.
      { intros k ? ?. simpl. by rewrite lookup_insert_ne. }
      split; [done|]. split; [done|].
      apply Hlist; [done| |by intros; apply Hk'].
      simpl. by rewrite lookup_insert_eq.
    + split_and!; [by intuition|done|].
      intros ->%Hw1. simpl. rewrite lookup_insert_eq.
      assert (∀ k, k ≠ backup → k ≠ filePath →
                files (tick (set_files (insert backup old) (tick w)))
                  !! k = files w !! k) as Hk'.
      { intros k ? ?. simpl. by rewrite lookup_insert_ne. }
      split; [done|]. split; [done|].
      apply Hlist; [done| |by intros; apply Hk'].
      simpl. by rewrite lookup_insert_eq.
Qed.

Lemma backup_before_mutation_witness :
  files (example_world []) !! getFilePath example_fm "x.json" = Some "1"
  ∧ ∃ res w',
      writeFile demo_lib example_fm "x.json" (JNum 2) (example_world [])
        = (Ret res, w')
      ∧ files w' !! ".history/x.json.2026-11-02T11-27-00-005Z" = Some "1"
      ∧ dir_entries "./.history" w' ≡ₚ ["x.json.2026-11-02T11-27-00-005Z"].
Proof.
  split; [by vm_compute|].
  destruct (backup_before_mutation demo_lib example_fm "x.json" (JNum 2)
              (example_world []) "1")
    as (_ & (res & w' & E & _ & Hb) & _); [by vm_compute|].
  exists res, w'. split; [done|].
  destruct (Hb eq_refl) as (H1 & _ & H2). split; [exact H1|].
  destruct H2 as [H2 _]; [by vm_compute|].
  apply H2. vm_compute. apply not_elem_of_nil.
Defined.

(** C3, the claim as stated fails, in two ways. The copy is made inside
    a [try]/[catch] that only logs, so with a failing copy the write of
    an existing document succeeds and the backup directory stays empty.
    And the name of the backup has the time to the millisecond only: of
    two writes of a document within one millisecond, the second adds no
    entry to the backup directory but overwrites the backup of the
    first, whose pre-mutation content is lost. *)
Lemma write_without_backup :
  files (example_world [Fail "EACCES"]) !! getFilePath example_fm "x"
    = Some "1"
  ∧ (writeFile demo_lib example_fm "x" (JNum 2)
       (example_world [Fail "EACCES"])).1
    = Ret (mkFileOperation true (Some (JNum 2)) None)
  ∧ files (writeFile demo_lib example_fm "x" (JNum 2)
             (example_world [Fail "EACCES"])).2 !! "data/x.json" = Some "2"
  ∧ dir_entries (historyDir example_fm)
      (writeFile demo_lib example_fm "x" (JNum 2)
         (example_world [Fail "EACCES"])).2 = []
  ∧ (let first := writeFile demo_lib example_fm "x" (JNum 2)
                    (example_world []) in
     let second := writeFile demo_lib example_fm "x" (JNum 3) first.2 in
     first.1 = Ret (mkFileOperation true (Some (JNum 2)) None)
     ∧ files first.2 !! "data/x.json" = Some "2"
     ∧ dir_entries (historyDir example_fm) first.2
       = ["x.json.2026-11-02T11-27-00-005Z"]
     ∧ files first.2 !! ".history/x.json.2026-11-02T11-27-00-005Z"
       = Some "1"
     ∧ second.1 = Ret (mkFileOperation true (Some (JNum 3)) None)
     ∧ files second.2 !! "data/x.json" = Some "3"
     ∧ dir_entries (historyDir example_fm) second.2
       = ["x.json.2026-11-02T11-27-00-005Z"]
     ∧ files second.2 !! ".history/x.json.2026-11-02T11-27-00-005Z"
       = Some "2").
Proof. by vm_compute. Qed.

(** ** Document store: listing *)

Section Listing.
Import JsString NodePath.
#[local] Arguments Ascii.eqb : simpl never.

Lemma List_filter_Permutation {A} (f : A → bool) (l l' : list A) :
  l ≡ₚ l' → List.filter f l ≡ₚ List.filter f l'.
Proof.
  induction 1 as [|x l l' _ IH|x y l|l1 l2 l3 _ IH1 _ IH2]; simpl.
  - done.
  - destruct (f x); by rewrite IH.
  - destruct (f x), (f y); try done. apply perm_swap.
  - by etrans.
Qed.

Lemma json_entries_Permutation d w :
  List.filter json_ext (dir_entries d w)
  ≡ₚ json_names (dir_prefix d) (dom (files w))
     ++ List.filter json_ext (omap (child_dir (dir_prefix d)) (elements (dirs w))).
Proof.
  rewrite (List_filter_Permutation _ _ _ (dir_entries_Permutation d w)).
  unfold dir_names. by rewrite List.filter_app.
Qed.

Lemma listing_Permutation fm w :
  listing fm w
  ≡ₚ strip_json
     <$> (json_names (dir_prefix (dataDir fm)) (dom (files w))
          ++ List.filter json_ext
               (omap (child_dir (dir_prefix (dataDir fm)))
                  (elements (dirs w)))).
Proof.
  unfold listing. change (List.map strip_json ?l) with (strip_json <$> l).
  by rewrite json_entries_Permutation.
Qed.

Lemma json_names_add pre (k : string) (X : gset string) :
  k ∉ X → json_names pre ({[k]} ∪ X) ≡ₚ contrib pre k ++ json_names pre X.
Proof.
  intros Hk. unfold json_names, contrib.
  rewrite <- List.filter_app. apply List_filter_Permutation.
  rewrite elements_union_singleton by done. simpl.
  by destruct (child_file pre k).
Qed.

Lemma json_names_add_other pre (k : string) (X : gset string) :
  contrib pre k = [] → json_names pre ({[k]} ∪ X) ≡ₚ json_names pre X.
Proof.
  intros Hc. destruct (decide (k ∈ X)) as [Hin|Hout].
  - by replace ({[k]} ∪ X) with X by set_solver.
  - by rewrite json_names_add, Hc.
Qed.

Lemma json_names_remove_other pre (k : string) (X : gset string) :
  contrib pre k = [] → json_names pre (X ∖ {[k]}) ≡ₚ json_names pre X.
Proof.
  intros Hc. destruct (decide (k ∈ X)) as [Hin|Hout].
  - rewrite (union_difference_singleton_L k X) at 2 by done.
    by rewrite json_names_add, Hc by set_solver.
  - by replace (X ∖ {[k]}) with X by set_solver.
Qed.

Lemma endsWith_last_char (suf s : string) :
  suf ≠ "" → endsWith suf s = true → last_char s = last_char suf.
Proof.
  intros Hsuf [b ->]%endsWith_spec. by apply last_char_app.
Qed.

Lemma contrib_by_last_char pre (k : string) :
  last_char k ≠ Some "n"%char → contrib pre k = [].
Proof.
  intros Hlast. unfold contrib, child_file.
  destruct (strip_prefix pre k) as [n|] eqn:E; [|done].
  destruct (is_entry_name n) eqn:En; [|done]. simpl.
  destruct (json_ext n) eqn:Ej; [|done]. exfalso. apply Hlast.
  apply strip_prefix_Some in E as ->.
  apply entry_name_inv in En as (Hne & _).
  rewrite last_char_app by done. by apply (endsWith_last_char ".json").
Qed.

Lemma contrib_entry (fm : FileManager) (filename : string) :
  contrib (dir_prefix (dataDir fm)) (getFilePath fm filename)
  = [entryName filename].
Proof.
  unfold contrib. rewrite getFilePath_eq, child_file_entry
    by apply entryName_is_entry.
  simpl. unfold json_ext, entryName. by rewrite endsWith_app.
Qed.


Lemma no_fault_cur w : faults w = [] → cur_fault w = NoFault.
Proof. unfold cur_fault. by intros ->. Qed.

Lemma no_fault_tick w : faults w = [] → faults (tick w) = [].
Proof. unfold tick. simpl. by intros ->. Qed.

(** A write in an environment without failures. *)
Lemma writeFile_no_fault lib fm (filename : string) (d : json) w :
  let filePath := getFilePath fm filename in
  let tempPath := filePath +:+ ".tmp" in
  let backup := backupPath fm filePath (toISOString (today w)) in
  faults w = [] →
  ∃ w',
    writeFile lib fm filename d w
      = (Ret (mkFileOperation true (Some d) None), w')
    ∧ faults w' = [] ∧ dirs w' = dirs w
    ∧ files w' =
        <[filePath := JSON_stringify lib d]>
          (delete tempPath
             (match files w !! filePath with
              | Some c => <[backup := c]> (files w)
              | None => files w
              end)).
Proof.
  intros filePath tempPath backup Hf.
  unfold writeFile. fold filePath tempPath. cbv zeta.
  rewrite try_catch_eq, bind_eq, createBackup_eq.
  rewrite (no_fault_cur w Hf). unfold is_file.
  destruct (files w !! filePath) as [c|] eqn:Ec.
  - rewrite bool_decide_true by done. simpl.
    rewrite bind_eq, writeFileSync_eq.
    rewrite no_fault_cur by (simpl; by rewrite Hf).
    rewrite bind_eq, renameSync_eq. simpl. rewrite lookup_insert_eq.
    rewrite no_fault_cur by (simpl; by rewrite Hf).
    eexists. split; [done|]. simpl. rewrite Hf. split_and!; [done..|].
    by rewrite delete_insert_eq.
  - rewrite bool_decide_false by (by intros [??]). simpl.
    destruct (is_dir filePath w).
    + rewrite bind_eq, writeFileSync_eq.
      rewrite no_fault_cur by (simpl; by rewrite Hf).
      rewrite bind_eq, renameSync_eq. simpl. rewrite lookup_insert_eq.
      rewrite no_fault_cur by (simpl; by rewrite Hf).
      eexists. split; [done|]. simpl. rewrite Hf. split_and!; [done..|].
      by rewrite delete_insert_eq.
    + rewrite bind_eq, writeFileSync_eq.
      rewrite no_fault_cur by (simpl; by rewrite Hf).
      rewrite bind_eq, renameSync_eq. simpl. rewrite lookup_insert_eq.
      rewrite no_fault_cur by (simpl; by rewrite Hf).
      eexists. split; [done|]. simpl. rewrite Hf. split_and!; [done..|].
      by rewrite delete_insert_eq.
Qed.


Lemma strip_prefix_json_border (s : string) :
  s ≠ "" → strip_prefix ".json" s = None →
  strip_prefix ".json" (s +:+ ".json") = None.
Proof.
  intros Hne H.
  destruct s as [|c1 [|c2 [|c3 [|c4 [|c5 s]]]]]; try done;
    rewrite ?str_app_cons, ?str_app_nil_l; simpl in *;
    repeat match goal with
           | |- context [Ascii.eqb ?a ?b] =>
               destruct (Ascii.eqb_spec a b); subst; simpl in *; try done
           | H : context [Ascii.eqb ?a ?a] |- _ =>
               rewrite Ascii.eqb_refl in H; simpl in H; try done
           end.
Qed.

Lemma includes_cons (pat : string) c (s : string) :
  includes pat (String c s) =
    match strip_prefix pat (String c s) with
    | Some _ => true
    | None => includes pat s
    end.
Proof. done. Qed.

Lemma replace_first_cons (pat rep : string) c (s : string) :
  replace_first pat rep (String c s) =
    match strip_prefix pat (String c s) with
    | Some rest => rep +:+ rest
    | None => String c (replace_first pat rep s)
    end.
Proof. done. Qed.

Lemma strip_json_entry (b : string) :
  includes ".json" b = false → strip_json (b +:+ ".json") = b.
Proof.
  unfold strip_json. induction b as [|c b IH]; [done|].
  rewrite includes_cons.
  destruct (strip_prefix ".json" (String c b)) eqn:E; [done|].
  intros Hb. rewrite str_app_cons, replace_first_cons.
  rewrite <- str_app_cons, strip_prefix_json_border by done.
  by rewrite IH.
Qed.


Lemma contrib_temp pre (fm : FileManager) (filename : string) :
  contrib pre (getFilePath fm filename +:+ ".tmp") = [].
Proof. apply contrib_by_last_char. by rewrite last_char_app. Qed.

Lemma contrib_backup pre (fm : FileManager) (filename : string) d :
  contrib pre (backupPath fm (getFilePath fm filename) (toISOString d)) = [].
Proof. apply contrib_by_last_char. by rewrite last_char_backupPath. Qed.

Lemma json_names_elem pre (k : string) (X : gset string) (e : string) :
  k ∈ X → e ∈ contrib pre k → e ∈ json_names pre X.
Proof.
  intros Hk. unfold contrib, json_names.
  rewrite !list_elem_of_In, !List.filter_In, <- !list_elem_of_In.
  intros [He ?]. split; [|done].
  apply list_elem_of_omap. exists k. split; [by apply elem_of_elements|].
  destruct (child_file pre k); [|by apply elem_of_nil in He].
  apply list_elem_of_singleton in He. by subst.
Qed.

(** The [.json] entries of the data directory after a write without
    failures. *)
Lemma writeFile_json_names lib fm (filename : string) (d : json) w :
  faults w = [] →
  let w' := (writeFile lib fm filename d w).2 in
  faults w' = [] ∧ dirs w' = dirs w
  ∧ json_names (dir_prefix (dataDir fm)) (dom (files w'))
    ≡ₚ (if decide (getFilePath fm filename ∈ dom (files w)) then []
        else [entryName filename])
       ++ json_names (dir_prefix (dataDir fm)) (dom (files w))
  ∧ (getFilePath fm filename ∉ dom (files w) →
     dom (files w') ⊆ {[getFilePath fm filename]} ∪ dom (files w)).
Proof.
  intros Hf.
  destruct (writeFile_no_fault lib fm filename d w Hf)
    as (w' & -> & Hf' & Hd & Hfiles).
  simpl. split; [done|]. split; [done|]. rewrite Hfiles.
  split; [|intros Hout; apply not_elem_of_dom in Hout; rewrite Hout;
           rewrite dom_insert_L, dom_delete_L; set_solver].
  rewrite dom_insert_L, dom_delete_L.
  pose proof (tempPath_ne fm filename) as HT.
  set (pre := dir_prefix (dataDir fm)).
  destruct (files w !! getFilePath fm filename) as [c|] eqn:Ec.
  - rewrite decide_True by (apply elem_of_dom; eauto). simpl.
    rewrite dom_insert_L.
    rewrite (subseteq_union_1_L {[getFilePath fm filename]}).
    + rewrite json_names_remove_other by apply contrib_temp.
      by rewrite json_names_add_other by apply contrib_backup.
    + apply singleton_subseteq_l, elem_of_difference. split.
      * apply elem_of_union_r, elem_of_dom. eauto.
      * by intros ?%elem_of_singleton.
  - rewrite decide_False by (by intros [??]%elem_of_dom; simplify_eq).
    rewrite json_names_add.
    + unfold pre. rewrite contrib_entry. simpl. f_equiv.
      by rewrite json_names_remove_other by apply contrib_temp.
    + intros [Hin _]%elem_of_difference.
      apply elem_of_dom in Hin as [? ?]. by simplify_eq.
Qed.

Lemma writeAll_cons lib fm (n : string) (d : json) docs w :
  writeAll lib fm ((n, d) :: docs) w
  = writeAll lib fm docs (writeFile lib fm n d w).2.
Proof. done. Qed.

Lemma writeAll_json_names lib fm (docs : list (string * json)) w :
  faults w = [] →
  NoDup (entryName <$> docs.*1) →
  (∀ n, n ∈ docs.*1 → getFilePath fm n ∉ dom (files w)) →
  let w' := writeAll lib fm docs w in
  faults w' = [] ∧ dirs w' = dirs w
  ∧ json_names (dir_prefix (dataDir fm)) (dom (files w'))
    ≡ₚ (entryName <$> docs.*1)
       ++ json_names (dir_prefix (dataDir fm)) (dom (files w)).
Proof.
  revert w. induction docs as [|[n d] docs IH]; intros w Hf Hnd Hnew; [done|].
  rewrite writeAll_cons. cbn [fmap list_fmap fst] in Hnd, Hnew |- *.
  apply NoDup_cons in Hnd as [Hn Hnd].
  destruct (writeFile_json_names lib fm n d w Hf) as (Hf1 & Hd1 & Hj1 & Hdom1).
  assert (getFilePath fm n ∉ dom (files w)) as Hout
    by (apply Hnew; by left).
  rewrite decide_False in Hj1 by done. specialize (Hdom1 Hout).
  destruct (IH (writeFile lib fm n d w).2) as (Hf2 & Hd2 & Hj2); [done..| |].
  { intros n' Hn' Hin. apply Hdom1 in Hin.
    apply elem_of_union in Hin as [Heq%elem_of_singleton|Hin].
    - rewrite !getFilePath_eq in Heq. apply (inj _) in Heq.
      apply Hn. rewrite <- Heq. by apply list_elem_of_fmap_2.
    - eapply Hnew; [|done]. by right. }
  split; [done|]. split; [congruence|].
  rewrite Hj2, Hj1. simpl. by rewrite Permutation_middle.
Qed.

End Listing.

Global Instance app_json_inj : Inj (=) (=) (λ b : string, b +:+ ".json").
Proof. intros b1 b2. apply str_app_inv_tail. Qed.


(** C9 (as amended). [listFiles] reports one name per entry of the data
    directory whose name ends in [.json]. After successful writes of N
    documents whose sanitized base names are pairwise distinct (distinct
    request names may share one: [a b] and [a_b], or [x] and [x.json])
    and contain [.json] nowhere, into a store that held no document, and
    no delete, the listing consists of exactly those N base names, each
    once, whatever the order of the writes. *)
Theorem listFiles_after_writes lib fm (docs : list (string * json)) w :
  (is_dir (dataDir fm) w = true → cur_fault w = NoFault →
     (listFiles fm w).1
       = Ret (mkFileOperation true (Some (JArr (JStr <$> listing fm w))) None)
     ∧ length (listing fm w)
       = length (List.filter json_ext (dir_entries (dataDir fm) w)))
  ∧ (faults w = [] →
     is_dir (dataDir fm) w = true →
     List.filter json_ext (dir_entries (dataDir fm) w) = [] →
     NoDup (baseFilename <$> docs.*1) →
     (∀ n, n ∈ docs.*1 →
        JsString.includes ".json" (baseFilename n) = false) →
     let w' := writeAll lib fm docs w in
     (listFiles fm w').1
       = Ret (mkFileOperation true (Some (JArr (JStr <$> listing fm w')))
                None)
     ∧ listing fm w' ≡ₚ baseFilename <$> docs.*1
     ∧ NoDup (listing fm w')
     ∧ length (listing fm w') = length docs).
Proof.
  assert (∀ w0, is_dir (dataDir fm) w0 = true → cur_fault w0 = NoFault →
            (listFiles fm w0).1
            = Ret (mkFileOperation true
                     (Some (JArr (JStr <$> listing fm w0))) None))
    as Hlist.
  { intros w0 Hdir Hcur. unfold listFiles.
    by rewrite try_catch_eq, bind_eq, readdirSync_eq, Hdir, Hcur. }
  split.
  { intros Hdir Hcur. split; [by apply Hlist|].
    unfold listing. by rewrite List.length_map. }
  intros Hf Hdir Hempty Hnd Hinc w'. subst w'.
  pose proof (json_entries_Permutation (dataDir fm) w) as Hempty'.
  rewrite Hempty in Hempty'. apply Permutation.Permutation_nil in Hempty'.
  apply app_eq_nil in Hempty' as [Hfiles Hdirs].
  destruct (writeAll_json_names lib fm docs w) as (Hf' & Hd' & Hj); [done| | |].
  { rewrite (list_fmap_compose baseFilename (λ b, b +:+ ".json")).
    by apply (NoDup_fmap_2 _). }
  { intros n _ Hin.
    assert (entryName n ∈ json_names (NodePath.dir_prefix (dataDir fm))
                            (dom (files w))) as He.
    { eapply json_names_elem; [done|]. rewrite contrib_entry. by left. }
    rewrite Hfiles in He. by apply elem_of_nil in He. }
  rewrite Hfiles, app_nil_r in Hj.
  set (w' := writeAll lib fm docs w) in *.
  assert (listing fm w' ≡ₚ baseFilename <$> docs.*1) as Hperm.
  { rewrite listing_Permutation, Hd', Hdirs, app_nil_r.
    rewrite Hj, <- list_fmap_compose.
    assert ((strip_json ∘ entryName) <$> docs.*1 = baseFilename <$> docs.*1)
      as ->; [|done].
    apply list_fmap_ext. intros i n Hn%list_elem_of_lookup_2. simpl.
    by apply strip_json_entry, Hinc. }
  split_and!.
  - apply Hlist; [|by apply no_fault_cur].
    unfold is_dir in *. by rewrite Hd'.
  - done.
  - by rewrite Hperm.
  - by rewrite Hperm, !length_fmap.
Qed.

Lemma listFiles_after_writes_witness :
  faults empty_world = []
  ∧ (listFiles example_fm
       (writeAll demo_lib example_fm [("a", JNum 1); ("b.json", JNum 2)]
          empty_world)).1
    = Ret (mkFileOperation true
             (Some (JArr (JStr <$>
                listing example_fm
                  (writeAll demo_lib example_fm
                     [("a", JNum 1); ("b.json", JNum 2)] empty_world))))
             None)
  ∧ listing example_fm
      (writeAll demo_lib example_fm [("a", JNum 1); ("b.json", JNum 2)]
         empty_world) ≡ₚ ["a"; "b"].
Proof.
  split; [reflexivity|].
  destruct (listFiles_after_writes demo_lib example_fm
              [("a", JNum 1); ("b.json", JNum 2)] empty_world)
    as (_ & H).
  destruct H as (E & Hperm & _).
  - reflexivity.
  - by vm_compute.
  - by vm_compute.
  - apply (bool_decide_unpack _). by vm_compute.
  - intros n [->|[->|[]%elem_of_nil]%elem_of_cons]%elem_of_cons;
      by vm_compute.
  - by split.
Defined.

(** C9, the claim as stated fails: two writes with the distinct names
    [a b] and [a_b] both succeed and the listing has one name. *)
Lemma listFiles_aliased_names :
  (writeFile demo_lib example_fm "a b" (JNum 1) empty_world).1
    = Ret (mkFileOperation true (Some (JNum 1)) None)
  ∧ (writeFile demo_lib example_fm "a_b" (JNum 2)
       (writeFile demo_lib example_fm "a b" (JNum 1) empty_world).2).1
    = Ret (mkFileOperation true (Some (JNum 2)) None)
  ∧ (listFiles example_fm
       (writeAll demo_lib example_fm [("a b", JNum 1); ("a_b", JNum 2)]
          empty_world)).1
    = Ret (mkFileOperation true (Some (JArr [JStr "a_b"])) None).
Proof. by vm_compute. Qed.

(** ** Session authority *)

Section Sessions.
Implicit Types (sessions : gmap string AuthSession) (token : string).

Lemma validateSession_sessions now token sessions :
  (validateSession now token sessions).2 = sessions
  ∨ (validateSession now token sessions).2 = delete token sessions.
Proof.
  unfold validateSession. destruct (sessions !! token); [|by left].
  destruct (maxAge <? _)%Z; [by right|by left].
Qed.






End Sessions.


Example session_expiry_example :
  let s1 := (createSession 0 "tok" "admin" ∅).2 in
  validateSession (maxAge + 1) "tok" s1 = (false, ∅)
  ∧ validateSession maxAge "tok" s1 = (true, s1).
Proof. by vm_compute. Qed.

(** ** Schema registry *)

Section Schemas.
Context (lib : Library).
Implicit Types (sv : SchemaValidator) (w : World).

Lemma no_fault_tick_eq w : faults w = [] → tick w = w.
Proof. destruct w. unfold tick. simpl. by intros ->. Qed.

Lemma loadLoop_cons (file : string) rest sv w :
  loadLoop lib (file :: rest) sv w =
    match readFileSync (NodePath.join (schemasDir sv) file) w with
    | (Throw msg, w') => ((sv, Some msg), w')
    | (Ret schemaContent, w') =>
        match JSON_parse lib schemaContent with
        | Throw msg => ((sv, Some msg), w')
        | Ret schema =>
            let a := ajv sv ++ [(schema, schemaName_of file)] in
            match ajv_addSchema lib (ajv sv) schema (schemaName_of file) with
            | Throw msg =>
                ((mkSchemaValidator a (schemasDir sv) (schemas sv), Some msg),
                 w')
            | Ret _ =>
                loadLoop lib rest
                  (mkSchemaValidator a (schemasDir sv)
                     (<[schemaName_of file := schema]> (schemas sv))) w'
            end
        end
    end.
Proof. done. Qed.

(** The loop gets past a run of files that load in turn. *)
Lemma loadLoop_app_ok (pre rest : list string) sv w :
  faults w = [] →
  load_in_turn lib (schemasDir sv) w (ajv sv) pre →
  NoDup (schemaName_of <$> pre) →
  ∃ sv',
    loadLoop lib (pre ++ rest) sv w = loadLoop lib rest sv' w
    ∧ schemasDir sv' = schemasDir sv
    ∧ (∀ name, name ∉ schemaName_of <$> pre →
         schemas sv' !! name = schemas sv !! name)
    ∧ (∀ f j, f ∈ pre → schema_at lib (schemasDir sv) w f = Some j →
         schemas sv' !! schemaName_of f = Some j).
Proof.
  intros Hf. revert sv.
  induction pre as [|f pre IH]; intros sv Hok Hnd.
  { exists sv. split_and!; [done..|]. by intros f j ?%elem_of_nil. }
  destruct Hok as (j & Hat & Hadd & Hok).
  cbn [fmap list_fmap] in Hnd. apply NoDup_cons in Hnd as [Hf_new Hnd].
  set (sv1 := mkSchemaValidator (ajv sv ++ [(j, schemaName_of f)])
                (schemasDir sv) (<[schemaName_of f := j]> (schemas sv))).
  destruct (IH sv1) as (sv' & E & Hdir & Hother & Hreg); [done..|].
  assert (∃ c, files w !! NodePath.join (schemasDir sv) f = Some c
               ∧ JSON_parse lib c = Ret j) as (c & Hc & Hj).
  { unfold schema_at in Hat.
    destruct (files w !! NodePath.join (schemasDir sv) f) as [c|]; [|done].
    exists c. split; [done|]. by destruct (JSON_parse lib c); simplify_eq. }
  exists sv'. split_and!.
  - rewrite <- E. simpl app. rewrite loadLoop_cons, readFileSync_eq, Hc.
    rewrite no_fault_cur, no_fault_tick_eq, Hj by done.
    cbv zeta. by rewrite Hadd.
  - done.
  - intros name Hname. cbn [fmap list_fmap] in Hname.
    apply not_elem_of_cons in Hname as [Hne Hname].
    rewrite (Hother name Hname). simpl. by rewrite lookup_insert_ne.
  - intros f' j' Hf' Hat'. apply elem_of_cons in Hf' as [->|Hf'].
    + rewrite (Hother (schemaName_of f) Hf_new). simpl.
      rewrite lookup_insert_eq. by rewrite Hat in Hat'.
    + by apply Hreg.
Qed.

Lemma compare_not_Gt_trans (a b c : string) :
  String.compare a b ≠ Gt → String.compare b c ≠ Gt →
  String.compare a c ≠ Gt.
Proof.
  revert b c. induction a as [|x a IH]; intros [|y b] [|z c]; simpl;
    try done.
  unfold Ascii.compare.
  destruct (N.compare_spec (N_of_ascii x) (N_of_ascii y)) as [Exy|Hxy|Hxy];
    destruct (N.compare_spec (N_of_ascii y) (N_of_ascii z)) as [Eyz|Hyz|Hyz];
    try done.
  - rewrite Exy, Eyz, N.compare_refl. apply IH.
  - intros _ _. rewrite Exy. by apply N.compare_lt_iff in Hyz as ->.
  - intros _ _. rewrite <- Eyz. by apply N.compare_lt_iff in Hxy as ->.
  - intros _ _. assert (N_of_ascii x < N_of_ascii z)%N as H by lia.
    by apply N.compare_lt_iff in H as ->.
Qed.

Global Instance name_le_trans : Transitive name_le.
Proof.
  intros a b c. unfold name_le, String.leb.
  pose proof (compare_not_Gt_trans a b c) as H.
  destruct (String.compare a b), (String.compare b c), (String.compare a c);
    try done; intros; exfalso; by apply H.
Qed.



(** When every schema file loads in its turn, every one is registered. *)
Lemma reloadSchemas_all_loaded sv w :
  let dir := schemasDir sv in
  let schemaFiles := List.filter json_ext (dir_entries dir w) in
  is_dir dir w = true → faults w = [] →
  load_in_turn lib dir w [] schemaFiles →
  NoDup (schemaName_of <$> schemaFiles) →
  ∀ f j, f ∈ schemaFiles → schema_at lib dir w f = Some j →
    schemas (reloadSchemas lib sv w).1 !! schemaName_of f = Some j.
Proof.
  intros dir schemaFiles Hdir Hf Hok Hnd f j Hin Hat.
  unfold reloadSchemas, loadSchemas, existsSync.
  cbn [schemasDir]. fold dir.
  rewrite Hdir, orb_true_r, readdirSync_eq, Hdir.
  rewrite no_fault_cur, no_fault_tick_eq by done.
  fold schemaFiles.
  destruct (loadLoop_app_ok schemaFiles []
              (mkSchemaValidator [] dir ∅) w)
    as (sv1 & E & Hd1 & Hother & Hreg); [done..|].
  rewrite app_nil_r in E. rewrite E. cbn. by apply Hreg.
Qed.

End Schemas.




(** C8. Validation is opt-in: for every JSON document and every name for
    which the registry holds no schema, [validate] returns
    [{ valid: true }] with no errors. *)
Theorem validate_without_schema lib sv (filename : string) (d : json) :
  hasSchema sv filename = false →
  validate lib sv filename d = Ret (mkValidationResult true None).
Proof.
  unfold hasSchema, validate, schemaName_of. by intros ->.
Qed.

Lemma validate_without_schema_witness :
  hasSchema (mkSchemaValidator [] "./schemas" ∅) "x.json" = false
  ∧ validate demo_lib (mkSchemaValidator [] "./schemas" ∅) "x.json"
      (JObj [("title", JStr "x")])
    = Ret (mkValidationResult true None).
Proof.
  split; [reflexivity|]. by apply validate_without_schema.
Defined.

(** ** Request pipeline *)

Section Reads.
Context (lib : Library) (config : LiteJSONConfig).

Lemma readFile_returns fm (filename : string) w :
  ∃ res w', readFile lib fm filename w = (Ret res, w').
Proof.
  unfold readFile. rewrite try_catch_eq, bind_eq. unfold existsSync.
  destruct (is_file _ w || is_dir _ w); simpl; [|by eexists _, _].
  rewrite bind_eq, readFileSync_eq.
  destruct (files w !! _); [|by eexists _, _].
  destruct (cur_fault w); try by eexists _, _.
  rewrite bind_eq. unfold parse.
  destruct (JSON_parse lib _); by eexists _, _.
Qed.

Lemma readFile_present fm (filename : string) w (c : string) (j : json) :
  files w !! getFilePath fm filename = Some c →
  cur_fault w = NoFault →
  JSON_parse lib c = Ret j →
  readFile lib fm filename w
  = (Ret (mkFileOperation true (Some j) None), tick w).
Proof.
  intros Hc Hf Hj. unfold readFile. rewrite try_catch_eq, bind_eq.
  unfold existsSync, is_file. rewrite Hc, bool_decide_true by done. simpl.
  rewrite bind_eq, readFileSync_eq, Hc, Hf, bind_eq. unfold parse.
  by rewrite Hj.
Qed.

Lemma readFile_absent fm (filename : string) w :
  files w !! getFilePath fm filename = None →
  is_dir (getFilePath fm filename) w = false →
  readFile lib fm filename w
  = (Ret (mkFileOperation false None (Some "File not found")), w).
Proof.
  intros Hc Hd. unfold readFile. rewrite try_catch_eq, bind_eq.
  unfold existsSync, is_file. rewrite Hc, Hd.
  by rewrite bool_decide_false by (by intros [??]).
Qed.

Lemma read_response_status (filename : string) s :
  status (read_response lib config filename s).1 = 200
  ∨ status (read_response lib config filename s).1 = 404.
Proof.
  unfold read_response, run_world.
  destruct (readFile_returns (fileManager config) filename (world s))
    as (res & w' & ->).
  destruct (success res); [by left|by right].
Qed.

Lemma read_response_sessions (filename : string) s :
  sessions (read_response lib config filename s).2 = sessions s.
Proof.
  unfold read_response, run_world.
  destruct (readFile_returns (fileManager config) filename (world s))
    as (res & w' & ->).
  by destruct (success res).
Qed.


End Reads.

(** C5 (as amended). On [GET /data/:name], a name marked admin is
    answered 401 whether or not the request carries a valid session: the
    route consults no session at all and leaves the server state as it
    is. A name not marked admin is read without authentication: the
    answer is 200 with the document when its file is present, readable
    and parseable, and 404 when it is absent; never 401. *)
Theorem get_data_gate lib config (filename : string) (req : Request)
    (s : Server) :
  (requiresAdmin config filename = true →
     get_data lib config filename req s = (auth_required, s))
  ∧ (requiresAdmin config filename = false →
     get_data lib config filename req s = read_response lib config filename s
     ∧ (status (get_data lib config filename req s).1 = 200
        ∨ status (get_data lib config filename req s).1 = 404)
     ∧ (∀ c j,
          files (world s) !! getFilePath (fileManager config) filename
            = Some c →
          cur_fault (world s) = NoFault →
          JSON_parse lib c = Ret j →
          (get_data lib config filename req s).1 = mkResponse 200 j)
     ∧ (files (world s) !! getFilePath (fileManager config) filename = None →
        is_dir (getFilePath (fileManager config) filename) (world s) = false →
        (get_data lib config filename req s).1
        = mkResponse 404 (JObj [("error", JStr "File not found")]))).
Proof.
  unfold get_data. split; intros ->; [done|].
  split_and!; [done|apply read_response_status|..].
  - intros c j Hc Hf Hj. unfold read_response, run_world.
    by rewrite (readFile_present lib _ _ _ c j).
  - intros Hc Hd. unfold read_response, run_world.
    by rewrite readFile_absent.
Qed.

(** C5, the claim as stated fails: the request carries a valid session,
    [menu.json] is marked admin and exists, and [GET /data/menu.json]
    answers 401. *)
Lemma get_data_rejects_valid_session :
  (session_check example_request example_server).1 = true
  ∧ requiresAdmin example_config "menu.json" = true
  ∧ files (world example_server)
      !! getFilePath (fileManager example_config) "menu.json" = Some "{}"
  ∧ status
      (get_data demo_lib example_config "menu.json" example_request
         example_server).1 = 401.
Proof. by vm_compute. Qed.



(** C4, the claim as stated fails for a spelling that is itself marked
    admin: with both [menu.json] and [menu] marked, the name [menu]
    resolves to the file of [menu.json], and a request without a
    session is answered 401 on both routes. *)
Lemma alias_also_marked_admin :
  cfg_permissions both_config !! "menu.json" = Some admin
  ∧ getFilePath (fileManager both_config) "menu"
    = getFilePath (fileManager both_config) "menu.json"
  ∧ files (world menu_server) !! getFilePath (fileManager both_config) "menu"
    = Some (demo_stringify menu_doc)
  ∧ get_data demo_lib both_config "menu" (mkRequest None None None)
      menu_server
    = (auth_required, menu_server)
  ∧ get_api_file demo_lib both_config "menu" (mkRequest None None None)
      menu_server
    = (auth_required, menu_server).
Proof. by vm_compute. Qed.

Section Writes.

Lemma validateSession_true now (sid : string) sessions :
  (validateSession now sid sessions).1 = true →
  validateSession now sid sessions = (true, sessions).
Proof.
  unfold validateSession. destruct (sessions !! sid); [|done].
  destruct (maxAge <? _)%Z; [done|]. simpl. by intros ->.
Qed.

Lemma session_check_true req s :
  authenticated_request req s → session_check req s = (true, s).
Proof.
  unfold authenticated_request, session_check.
  destruct (request_sessionId req) as [sid|]; [|done].
  destruct (negb (String.eqb sid "")); [|done].
  destruct (validateSession _ sid (sessions s)) as [ok sess] eqn:E.
  simpl. intros ->. apply (f_equal fst) in E as E1.
  apply validateSession_true in E1. rewrite E1 in E. injection E as <-.
  by destruct s.
Qed.

End Writes.

(** C10. With a valid session attached, POST, PUT and PATCH on
    [/api/file/:name] answer 400 [Data is required] when the [data]
    field of the body is [false], [0], the empty string or [null],
    exactly as when it is absent; the server state - files, sessions,
    schema registry - is left as it was, so nothing is written and the
    answer does not come from the validator. *)
Theorem falsy_data_rejected lib config (filename : string) (req : Request)
    (s : Server) :
  authenticated_request req s →
  body_data req ∈ falsy_data →
  post_api_file lib config filename req s = (data_required, s)
  ∧ put_api_file lib config filename req s = (data_required, s)
  ∧ patch_api_file lib config filename req s = (data_required, s)
  ∧ status data_required = 400
  ∧ body data_required = JObj [("error", JStr "Data is required")].
Proof.
  intros Hauth Hdata.
  assert (truthy_opt (body_data req) = false) as Hfalsy.
  { unfold falsy_data in Hdata. set_unfold.
    by destruct Hdata as [->|[->|[->|[->|[->|[]]]]]]. }
  pose proof (session_check_true req s Hauth) as Hcheck.
  unfold post_api_file, put_api_file, patch_api_file, optionalAuth,
    requireAuth.
  rewrite Hcheck. cbv beta iota zeta. by rewrite Hcheck, Hfalsy.
Qed.

Lemma falsy_data_rejected_witness :
  authenticated_request (mkRequest (Some "tok") None (Some (JNum 0)))
    example_server
  ∧ post_api_file demo_lib example_config "menu.json"
      (mkRequest (Some "tok") None (Some (JNum 0))) example_server
    = (data_required, example_server).
Proof.
  split; [by vm_compute|].
  apply (falsy_data_rejected demo_lib example_config "menu.json"
           (mkRequest (Some "tok") None (Some (JNum 0))) example_server).
  - by vm_compute.
  - unfold falsy_data. simpl. set_solver.
Defined.

(** ** The model at work *)

Example basename_traversal :
  NodePath.basename "../../etc/passwd" = "passwd".
Proof. reflexivity. Qed.

Example basename_trailing_separators : NodePath.basename "a/b//" = "b".
Proof. reflexivity. Qed.

Example join_relative : NodePath.join "./data" "x.json" = "data/x.json".
Proof. reflexivity. Qed.

Example join_parent : NodePath.join "./data" "../x.json" = "x.json".
Proof. reflexivity. Qed.

Example join_absolute :
  NodePath.join "/srv//www/" "x.json" = "/srv/www/x.json".
Proof. reflexivity. Qed.

Example strip_first_occurrence : strip_json "a.jsonb.json" = "ab.json".
Proof. reflexivity. Qed.

Example traversal_resolves_inside :
  getFilePath example_fm "../../etc/passwd" = "data/passwd.json".
Proof. reflexivity. Qed.

Example traversal_yields_404 :
  (get_api_file demo_lib example_config "../../etc/passwd"
     (mkRequest None None None) example_server).1
  = mkResponse 404 (JObj [("error", JStr "File not found")]).
Proof. by vm_compute. Qed.

Example patch_merge :
  merge_spread (JObj [("a", JNum 1); ("b", JNum 2)]) (JObj [("b", JNum 3)])
  = JObj [("a", JNum 1); ("b", JNum 3)].
Proof. reflexivity. Qed.

(** The rename fails after the temp file was written: the document is
    intact, the backup was made, the temp file is gone. *)
Example rename_failure_keeps_document :
  (writeFile demo_lib example_fm "x" (JNum 2)
     (example_world [NoFault; NoFault; Fail "EXDEV"])).1
  = Ret (write_failure "EXDEV")
  ∧ files (writeFile demo_lib example_fm "x" (JNum 2)
             (example_world [NoFault; NoFault; Fail "EXDEV"])).2
    = {[ "data/x.json" := "1";
         ".history/x.json.2026-11-02T11-27-00-005Z" := "1" ]}.
Proof. by vm_compute. Qed.

(** A partial write of the temp file followed by a failing cleanup
    leaves a truncated temp file, never a truncated document. *)
Example partial_temp_write :
  files (writeFile demo_lib example_fm "x" (JObj [])
           (example_world [NoFault; FailPartial "ENOSPC" 1; Fail "EBUSY"])).2
  = {[ "data/x.json" := "1"; "data/x.json.tmp" := "{";
       ".history/x.json.2026-11-02T11-27-00-005Z" := "1" ]}.
Proof. by vm_compute. Qed.

Example write_then_read :
  (readFile demo_lib example_fm "x.json"
     (writeFile demo_lib example_fm "x" (JBool true) (example_world [])).2).1
  = Ret (mkFileOperation true (Some (JBool true)) None).
Proof. by vm_compute. Qed.

(** * Further properties of the code *)

(** ** The document store *)

(** X1. [readFile] never throws and never changes a file, a directory
    or the warnings. A name whose path does not exist is answered with
    [File not found] and leaves the environment untouched. For a file
    that is there, the result is the parsed content when the read and
    the parse succeed, and [Failed to read file: <message>] with the
    message of the parser or of the failing read otherwise. A success
    always carries the parse of what the file holds. *)
Theorem readFile_outcomes lib fm (filename : string) w :
  let filePath := getFilePath fm filename in
  ∃ res w',
    readFile lib fm filename w = (Ret res, w')
    ∧ files w' = files w ∧ dirs w' = dirs w ∧ warnings w' = warnings w
    ∧ (is_file filePath w = false → is_dir filePath w = false →
         res = not_found ∧ w' = w)
    ∧ (∀ c, files w !! filePath = Some c → cur_fault w = NoFault →
         match JSON_parse lib c with
         | Ret j => res = mkFileOperation true (Some j) None
         | Throw msg => res = read_failure msg
         end)
    ∧ (∀ c msg, files w !! filePath = Some c → cur_fault w = Fail msg →
         res = read_failure msg)
    ∧ (success res = true →
         ∃ c j, files w !! filePath = Some c ∧ JSON_parse lib c = Ret j
                ∧ data res = Some j).
Proof.
  intros filePath. unfold readFile. fold filePath. cbv zeta.
  rewrite try_catch_eq, bind_eq. unfold existsSync.
  destruct (is_file filePath w) eqn:Ef; simpl.
  - apply is_file_true in Ef as [c Ec].
    rewrite bind_eq, readFileSync_eq, Ec.
    destruct (cur_fault w) eqn:Ecur.
    + rewrite bind_eq. unfold parse.
      destruct (JSON_parse lib c) as [j|msg] eqn:Ep;
        eexists _, _; (split; [done|]); simpl;
        (split_and!; [done..| | |]).
      * intros c' [= <-] _. by rewrite Ep.
      * by intros c' msg [= <-] ?.
      * intros _. by exists c, j.
      * intros c' [= <-] _. by rewrite Ep.
      * by intros c' msg' [= <-] ?.
      * done.
    + eexists _, _. split; [done|]. simpl.
      split_and!; [done..| | |done].
      * by intros c' [= <-] ?.
      * by intros c' msg' [= <-] [= <-].
    + eexists _, _. split; [done|]. simpl.
      split_and!; [done..| | |done].
      * by intros c' [= <-] ?.
      * by intros c' msg' [= <-] ?.
  - apply is_file_false in Ef.
    destruct (is_dir filePath w) eqn:Ed; simpl.
    + rewrite bind_eq, readFileSync_eq, Ef.
      eexists _, _. split; [done|]. simpl.
      split_and!; [done..| | |done]; intros; simplify_eq.
    + eexists _, _. split; [done|]. simpl.
      split_and!; [done..| | |done]; intros; simplify_eq.
Qed.

Section StoreMore.
Import JsString NodePath.

Lemma getFilePath_ne_temp fm (a b : string) :
  getFilePath fm a ≠ getFilePath fm b +:+ ".tmp".
Proof.
  intros H. apply (f_equal last_char) in H.
  by rewrite last_char_getFilePath, last_char_app in H.
Qed.

Lemma getFilePath_ne_backup fm (a b : string) d :
  getFilePath fm a ≠ backupPath fm (getFilePath fm b) (toISOString d).
Proof.
  intros H. apply (f_equal last_char) in H.
  by rewrite last_char_getFilePath, last_char_backupPath in H.
Qed.

(** What [deleteFile] does, for every state and fault schedule. *)
Lemma deleteFile_spec fm (filename : string) w :
  let filePath := getFilePath fm filename in
  ∃ res w',
    deleteFile fm filename w = (Ret res, w')
    ∧ dirs w' = dirs w
    ∧ (success res = true → is_Some (files w !! filePath)
                            ∧ files w' !! filePath = None)
    ∧ (success res = false → files w' !! filePath = files w !! filePath)
    ∧ (∀ k, k ≠ filePath →
            k ≠ backupPath fm filePath (toISOString (today w)) →
            files w' !! k = files w !! k)
    ∧ (is_file filePath w = false → is_dir filePath w = false →
         res = not_found ∧ w' = w).
Proof.
  intros filePath. unfold deleteFile. fold filePath. cbv zeta.
  rewrite try_catch_eq, bind_eq. unfold existsSync.
  destruct (is_file filePath w || is_dir filePath w) eqn:Ex; simpl.
  - destruct (createBackup_frame fm filePath w) as (w1 & E1 & Henv & Hframe).
    pose proof (backupPath_ne_file fm filename (today w)) as HB.
    fold filePath in HB.
    rewrite bind_eq, E1, bind_eq, unlinkSync_eq.
    rewrite (Hframe filePath) by done.
    destruct Henv as (Hd & _ & _).
    assert (is_file filePath w = false → is_dir filePath w = false → False)
      as Hno by (intros Hf Hd'; by rewrite Hf, Hd' in Ex).
    destruct (files w !! filePath) as [c|] eqn:Ec.
    + destruct (cur_fault w1); eexists _, _; (split; [done|]); simpl;
        (split; [done|]).
      * split_and!.
        -- intros _. split; [done|]. apply lookup_delete_eq.
        -- done.
        -- intros k ? ?. rewrite lookup_delete_ne by done. by apply Hframe.
        -- intros ? ?. by exfalso; apply Hno.
      * rewrite (Hframe filePath) by done. split_and!; [done|done| |].
        -- intros k ? ?. by apply Hframe.
        -- intros ? ?. by exfalso; apply Hno.
      * rewrite (Hframe filePath) by done. split_and!; [done|done| |].
        -- intros k ? ?. by apply Hframe.
        -- intros ? ?. by exfalso; apply Hno.
    + eexists _, _. split; [done|]. simpl. split; [done|].
      rewrite (Hframe filePath) by done. split_and!; [done|done| |].
      * intros k ? ?. by apply Hframe.
      * intros ? ?. by exfalso; apply Hno.
  - apply orb_false_iff in Ex as [Ef Ed]. apply is_file_false in Ef as Ef'.
    eexists _, _. split; [done|]. simpl. by split_and!.
Qed.

End StoreMore.

(** X2. Read after write. When [writeFile] reports success for [name],
    the document exists under every request name that resolves to the
    same path (with or without the [.json] extension, say), and - if
    [JSON.parse] inverts [JSON.stringify] on the data and the read
    itself does not fail - [readFile] returns exactly the data written. *)
Theorem read_after_write lib fm (name other : string) (d : json) w res w1 :
  JSON_parse lib (JSON_stringify lib d) = Ret d →
  getFilePath fm other = getFilePath fm name →
  writeFile lib fm name d w = (Ret res, w1) →
  success res = true →
  (fileExists fm other w1).1 = Ret true
  ∧ (cur_fault w1 = NoFault →
     (readFile lib fm other w1).1
     = Ret (mkFileOperation true (Some d) None)).
Proof.
  intros Hrt Hpath Hw Hok.
  destruct (writeFile_spec lib fm name d w)
    as (w0 & res' & w' & _ & E & _ & Hsucc & _).
  rewrite Hw in E. injection E as <- <-.
  destruct (Hsucc Hok) as (_ & Hfile & _).
  split.
  - unfold fileExists, existsSync, is_file. simpl.
    rewrite Hpath, Hfile. by rewrite bool_decide_true by done.
  - intros Hcur.
    rewrite (readFile_present lib fm other w1 (JSON_stringify lib d) d);
      [done| |done..].
    by rewrite Hpath.
Qed.

Lemma read_after_write_witness :
  JSON_parse demo_lib (JSON_stringify demo_lib (JBool true)) = Ret (JBool true)
  ∧ (readFile demo_lib example_fm "x.json"
       (writeFile demo_lib example_fm "x" (JBool true) (example_world [])).2).1
    = Ret (mkFileOperation true (Some (JBool true)) None).
Proof.
  split; [reflexivity|].
  eapply (read_after_write demo_lib example_fm "x" "x.json" (JBool true)
            (example_world [])).
  - reflexivity.
  - reflexivity.
  - by vm_compute.
  - reflexivity.
  - reflexivity.
Defined.

(** X3. [deleteFile] never throws. When it reports success the file
    was there before and is gone afterwards, so that a following
    [readFile] answers [File not found] and [fileExists] answers false;
    when it reports failure the document is what it was; and deleting a
    name that does not exist answers [File not found] and changes
    nothing at all. *)
Theorem deleteFile_outcomes lib fm (filename : string) w :
  let filePath := getFilePath fm filename in
  ∃ res w',
    deleteFile fm filename w = (Ret res, w')
    ∧ (success res = true →
         is_Some (files w !! filePath)
         ∧ files w' !! filePath = None
         ∧ (is_dir filePath w = false →
            (readFile lib fm filename w').1 = Ret not_found
            ∧ (fileExists fm filename w').1 = Ret false))
    ∧ (success res = false → files w' !! filePath = files w !! filePath)
    ∧ (is_file filePath w = false → is_dir filePath w = false →
         res = not_found ∧ w' = w).
Proof.
  intros filePath.
  destruct (deleteFile_spec fm filename w)
    as (res & w' & E & Hd & Hok & Hfail & _ & Habs).
  fold filePath in Hok, Hfail, Habs.
  exists res, w'. split_and!; [done| |done..].
  intros Hres. destruct (Hok Hres) as [Hsome Hnone]. split_and!; [done..|].
  intros Hdir.
  assert (is_dir filePath w' = false) as Hdir'
    by (unfold is_dir in *; by rewrite Hd).
  split.
  - by rewrite readFile_absent.
  - unfold fileExists, existsSync. fold filePath. simpl.
    rewrite Hdir'. by rewrite (proj2 (is_file_false _ _) Hnone).
Qed.

(** X4. Writing or deleting one document never changes another one:
    for every fault schedule, whether the operation succeeds or fails
    at any step, the file of a request name that resolves to a different
    path holds what it held before. *)
Theorem mutations_leave_other_documents lib fm (name other : string)
    (d : json) w :
  getFilePath fm other ≠ getFilePath fm name →
  files (writeFile lib fm name d w).2 !! getFilePath fm other
    = files w !! getFilePath fm other
  ∧ files (deleteFile fm name w).2 !! getFilePath fm other
    = files w !! getFilePath fm other.
Proof.
  intros Hne. split.
  - destruct (writeFile_spec lib fm name d w)
      as (w1 & res & w' & E1 & -> & _ & _ & _ & Hk & _).
    simpl. rewrite Hk by (done || apply getFilePath_ne_temp).
    destruct (createBackup_frame fm (getFilePath fm name) w)
      as (w1' & E1' & _ & Hframe).
    rewrite E1 in E1'. injection E1' as <-.
    apply Hframe, getFilePath_ne_backup.
  - destruct (deleteFile_spec fm name w)
      as (res & w' & -> & _ & _ & _ & Hk & _).
    simpl. apply Hk; [done|apply getFilePath_ne_backup].
Qed.

Lemma mutations_leave_other_documents_witness :
  getFilePath example_fm "x" ≠ getFilePath example_fm "y"
  ∧ files (writeFile demo_lib example_fm "y" (JNum 2)
             (example_world [NoFault; FailPartial "ENOSPC" 1])).2
      !! getFilePath example_fm "x" = Some "1".
Proof.
  split; [by vm_compute|].
  destruct (mutations_leave_other_documents demo_lib example_fm "y" "x"
              (JNum 2) (example_world [NoFault; FailPartial "ENOSPC" 1]))
    as [-> _]; by vm_compute.
Defined.

Section ListingMore.
Import JsString NodePath.

(** A delete in an environment without failures. *)
Lemma deleteFile_no_fault fm (filename : string) w (c : string) :
  let filePath := getFilePath fm filename in
  faults w = [] →
  files w !! filePath = Some c →
  ∃ w',
    deleteFile fm filename w = (Ret (mkFileOperation true None None), w')
    ∧ faults w' = [] ∧ dirs w' = dirs w
    ∧ files w' =
        delete filePath
          (<[backupPath fm filePath (toISOString (today w)) := c]> (files w)).
Proof.
  intros filePath Hf Hc. unfold deleteFile. fold filePath. cbv zeta.
  rewrite try_catch_eq, bind_eq. unfold existsSync, is_file.
  rewrite Hc, bool_decide_true by done. simpl.
  rewrite bind_eq, createBackup_eq. unfold is_file.
  rewrite Hc, bool_decide_true, (no_fault_cur w Hf) by done. simpl.
  rewrite bind_eq, unlinkSync_eq. simpl.
  pose proof (backupPath_ne_file fm filename (today w)) as HB.
  fold filePath in HB. rewrite lookup_insert_ne, Hc by done.
  rewrite no_fault_cur by (simpl; by rewrite Hf).
  eexists. split; [done|]. simpl. by rewrite Hf.
Qed.

End ListingMore.

(** X5. The listing follows the mutations. In an environment without
    failures, writing a document adds its name to what [listFiles]
    reports exactly when the document is new, and leaves the listing as
    it was when the document is replaced (the temporary file and the
    backup never show up); deleting an existing document removes
    exactly one occurrence of its name. *)
Theorem listing_after_mutation lib fm (filename : string) (d : json) w :
  faults w = [] →
  listing fm (writeFile lib fm filename d w).2
    ≡ₚ (if decide (getFilePath fm filename ∈ dom (files w)) then []
        else [strip_json (entryName filename)])
       ++ listing fm w
  ∧ (getFilePath fm filename ∈ dom (files w) →
     strip_json (entryName filename)
       :: listing fm (deleteFile fm filename w).2
     ≡ₚ listing fm w).
Proof.
  intros Hf. split.
  - destruct (writeFile_json_names lib fm filename d w Hf)
      as (_ & Hd & Hj & _).
    rewrite !listing_Permutation, Hd, Hj.
    rewrite !fmap_app. rewrite <- !(assoc_L (++)). f_equiv.
    by destruct (decide _).
  - intros [c Hc]%elem_of_dom.
    destruct (deleteFile_no_fault fm filename w c Hf Hc)
      as (w' & -> & _ & Hd & Hfiles).
    simpl. rewrite !listing_Permutation, Hd, Hfiles.
    rewrite dom_delete_L, dom_insert_L.
    rewrite !fmap_app.
    change (strip_json (entryName filename) :: ?l)
      with ((strip_json <$> [entryName filename]) ++ l).
    rewrite (assoc_L (++)), <- fmap_app. f_equiv. f_equiv.
    rewrite <- (contrib_entry fm filename).
    set (X := {[backupPath fm (getFilePath fm filename)
                  (toISOString (today w))]} ∪ dom (files w)).
    assert (getFilePath fm filename ∈ X) as Hin
      by (apply elem_of_union_r, elem_of_dom; eauto).
    rewrite <- json_names_add by set_solver.
    rewrite <- (union_difference_singleton_L _ X) by done.
    unfold X. by rewrite json_names_add_other by apply contrib_backup.
Qed.

Lemma listing_after_mutation_witness :
  faults (example_world []) = []
  ∧ listing example_fm
      (writeFile demo_lib example_fm "x.json" (JNum 2) (example_world [])).2
    ≡ₚ listing example_fm (example_world [])
  ∧ listing example_fm (example_world []) = ["x"].
Proof.
  split; [reflexivity|]. split; [|reflexivity].
  by destruct (listing_after_mutation demo_lib example_fm "x.json" (JNum 2)
                 (example_world []) eq_refl) as [-> _].
Defined.

Section Directories.

Lemma mkdirSync_eq (d : string) w :
  mkdirSync d w =
    match cur_fault w with
    | NoFault => (Ret tt, set_dirs (union {[NodePath.dir_prefix d]}) (tick w))
    | Fail msg | FailPartial msg _ => (Throw msg, tick w)
    end.
Proof. unfold mkdirSync, bind, next_fault, throw. by destruct (cur_fault w). Qed.

Lemma is_dir_after_mkdir (d d' : string) w :
  is_dir d' w = true →
  is_dir d' (set_dirs (union {[NodePath.dir_prefix d]}) (tick w)) = true.
Proof.
  unfold is_dir. simpl. rewrite !andb_true_iff, !bool_decide_eq_true.
  intros [? ?]. split; [done|]. by apply elem_of_union_r.
Qed.

Lemma is_dir_mkdir (d : string) w :
  d ≠ "" →
  is_dir d (set_dirs (union {[NodePath.dir_prefix d]}) (tick w)) = true.
Proof.
  intros Hd. unfold is_dir. simpl. apply String.eqb_neq in Hd as ->. simpl.
  apply bool_decide_eq_true. apply elem_of_union_l. by apply elem_of_singleton.
Qed.

End Directories.

(** X6. [ensureDirectories] is idempotent. When both directories exist
    it does nothing. In an environment without failures it creates the
    missing ones without touching any file, after which both paths
    exist and a second call does nothing. The constructor does not
    catch: when the data directory is missing and [mkdirSync] fails,
    [new FileManager] throws that error. *)
Theorem ensureDirectories_idempotent fm w :
  ((existsSync (dataDir fm) w).1 = Ret true →
   (existsSync (historyDir fm) w).1 = Ret true →
   ensureDirectories fm w = (Ret tt, w))
  ∧ (faults w = [] → dataDir fm ≠ "" → historyDir fm ≠ "" →
     ∃ w',
       ensureDirectories fm w = (Ret tt, w')
       ∧ files w' = files w
       ∧ (existsSync (dataDir fm) w').1 = Ret true
       ∧ (existsSync (historyDir fm) w').1 = Ret true
       ∧ (is_file (dataDir fm) w = false → is_dir (dataDir fm) w' = true)
       ∧ (is_file (historyDir fm) w = false →
          is_dir (historyDir fm) w' = true)
       ∧ ensureDirectories fm w' = (Ret tt, w'))
  ∧ (∀ msg, (existsSync (dataDir fm) w).1 = Ret false →
       cur_fault w = Fail msg →
       (new_FileManager (dataDir fm) (historyDir fm) w).1 = Throw msg).
Proof.
  assert (∀ w0, (existsSync (dataDir fm) w0).1 = Ret true →
                (existsSync (historyDir fm) w0).1 = Ret true →
                ensureDirectories fm w0 = (Ret tt, w0)) as Hidem.
  { intros w0. unfold ensureDirectories, bind, existsSync, ret. simpl.
    by intros [= ->] [= ->]. }
  split; [apply Hidem|]. split; cycle 1.
  { intros msg [= He] Hcur. unfold new_FileManager, ensureDirectories.
    rewrite !bind_eq. unfold existsSync at 1. cbv beta iota. simpl.
    rewrite He, bind_eq, mkdirSync_eq, Hcur. done. }
  intros Hf Hd Hh.
  assert (∀ (d : string) w0, faults w0 = [] → d ≠ "" →
            ∃ w1,
              (if is_file d w0 || is_dir d w0 then ret tt else mkdirSync d) w0
              = (Ret tt, w1)
              ∧ files w1 = files w0 ∧ faults w1 = []
              ∧ is_file d w0 || is_dir d w1 = true
              ∧ ∀ d', is_dir d' w0 = true → is_dir d' w1 = true) as Hone.
  { intros d w0 Hf0 Hd0. destruct (is_file d w0) eqn:Ef; simpl.
    { exists w0. by split_and!. }
    destruct (is_dir d w0) eqn:Ed.
    { exists w0. by split_and!. }
    rewrite mkdirSync_eq, (no_fault_cur w0 Hf0). eexists. split; [done|].
    simpl. rewrite Hf0. split_and!; [done..|by apply is_dir_mkdir|].
    intros d'. apply is_dir_after_mkdir. }
  assert (∃ w', ensureDirectories fm w = (Ret tt, w')
                ∧ files w' = files w
                ∧ (is_file (dataDir fm) w || is_dir (dataDir fm) w' = true)
                ∧ (is_file (historyDir fm) w || is_dir (historyDir fm) w'
                   = true)) as (w' & E & Hfiles & H1 & H2).
  { unfold ensureDirectories. rewrite bind_eq. unfold existsSync at 1.
    cbv beta iota. rewrite bind_eq.
    destruct (Hone (dataDir fm) w Hf Hd) as (w1 & -> & Hfs1 & Hf1 & Hx1 & Hk1).
    rewrite bind_eq. unfold existsSync. cbv beta iota.
    destruct (Hone (historyDir fm) w1 Hf1 Hh)
      as (w2 & -> & Hfs2 & Hf2 & Hx2 & Hk2).
    exists w2. split; [done|]. split; [congruence|]. split.
    - destruct (is_file (dataDir fm) w); [done|]. simpl in *. by apply Hk2.
    - replace (is_file (historyDir fm) w) with (is_file (historyDir fm) w1);
        [done|]. unfold is_file. by rewrite Hfs1. }
  exists w'. split; [done|]. split; [done|].
  assert (is_file (dataDir fm) w' = is_file (dataDir fm) w) as Hf1
    by (unfold is_file; by rewrite Hfiles).
  assert (is_file (historyDir fm) w' = is_file (historyDir fm) w) as Hf2
    by (unfold is_file; by rewrite Hfiles).
  assert ((existsSync (dataDir fm) w').1 = Ret true) as He1
    by (unfold existsSync; simpl; by rewrite Hf1, H1).
  assert ((existsSync (historyDir fm) w').1 = Ret true) as He2
    by (unfold existsSync; simpl; by rewrite Hf2, H2).
  split_and!; [done..| | |by apply Hidem].
  - intros Hnf. by rewrite Hnf in H1.
  - intros Hnf. by rewrite Hnf in H2.
Qed.

Lemma ensureDirectories_idempotent_witness :
  ∃ w',
    ensureDirectories example_fm
      (mkWorld ∅ ∅ [] [] (mkDateTime 2026 11 2 11 27 0 5) 0) = (Ret tt, w')
    ∧ is_dir "./data" w' = true ∧ is_dir "./.history" w' = true.
Proof.
  destruct (ensureDirectories_idempotent example_fm
              (mkWorld ∅ ∅ [] [] (mkDateTime 2026 11 2 11 27 0 5) 0))
    as (_ & H & _).
  destruct H as (w' & E & _ & _ & _ & H1 & H2 & _); [done..|].
  exists w'. split; [done|]. split; [by apply H1|by apply H2].
Defined.


(** ** Sessions and the authentication routes *)

Section TokenForms.
Import JsString.

Lemma replace_first_absent (pat rep s : string) :
  includes pat s = false → replace_first pat rep s = s.
Proof.
  induction s as [|c s IH].
  - simpl. by destruct (strip_prefix pat "").
  - rewrite includes_cons, replace_first_cons.
    destruct (strip_prefix pat (String c s)); [done|].
    intros H. by rewrite IH.
Qed.

Lemma replace_first_prefix (pat rep s : string) :
  replace_first pat rep (pat +:+ s) = rep +:+ s.
Proof.
  destruct (pat +:+ s) as [|c t] eqn:E.
  - simpl. pose proof (strip_prefix_app pat s) as H. rewrite E in H.
    by rewrite H.
  - rewrite replace_first_cons. pose proof (strip_prefix_app pat s) as H.
    rewrite E in H. by rewrite H.
Qed.

Lemma carries_sessionId tok req :
  tok ≠ "" → carries tok req → request_sessionId req = Some tok.
Proof.
  intros Hne [Hc|[Hc [Hh|[Hh Hinc]]]]; unfold request_sessionId.
  - rewrite Hc. simpl. by destruct (String.eqb_spec tok "").
  - by rewrite Hc, Hh, replace_first_prefix.
  - by rewrite Hc, Hh, replace_first_absent.
Qed.

Lemma session_check_sessionId req tok s :
  tok ≠ "" → request_sessionId req = Some tok →
  session_check req s =
    ((validateSession (clock_ms (world s)) tok (sessions s)).1,
     mkServer (world s)
       (validateSession (clock_ms (world s)) tok (sessions s)).2
       (validator s)).
Proof.
  intros Hne Hreq. unfold session_check. rewrite Hreq.
  destruct (String.eqb_spec tok ""); [done|]. simpl.
  by destruct (validateSession _ _ _).
Qed.



End TokenForms.

Section AuthRoutes.
Context (lib : Library) (config : LiteJSONConfig) (crypto : Crypto).

(** X8. What [POST /api/auth/login] answers. Without a truthy user name and
    password it answers 400. A user name other than the configured one
    is answered 401 without [bcrypt] being consulted. For the configured
    user name the answer follows [bcrypt.compare]: 200 with the session
    id, which is also set as cookie, and a session with the current time
    is stored under it; 401 when the password does not match; 500 when
    [bcrypt] rejects. Conversely a 200 is only given in that case, and
    every other answer sets no cookie and leaves the server as it was;
    no answer touches the files or the schemas. *)
Theorem login_outcomes (sid : string) (req : LoginRequest) (s : Server) :
  let r := post_login crypto config sid req s in
  let hash := cfg_admin_passwordHash config in
  (truthy_opt (body_username req) = false
   ∨ truthy_opt (body_password req) = false →
     r = ((error_response 400 "Username and password are required", None), s))
  ∧ (∀ u p, body_username req = Some u → body_password req = Some p →
       truthy u = true → truthy p = true →
       (u ≠ JStr (cfg_admin_username config) →
          r = ((invalid_credentials, None), s))
       ∧ (u = JStr (cfg_admin_username config) →
          match bcrypt_compare crypto p hash with
          | Ret true =>
              r = ((login_ok sid, Some sid),
                   logged_in sid (cfg_admin_username config) s)
          | Ret false => r = ((invalid_credentials, None), s)
          | Throw _ =>
              r = ((error_response 500 "Authentication failed", None), s)
          end))
  ∧ (status r.1.1 = 200 →
       ∃ p, body_username req = Some (JStr (cfg_admin_username config))
            ∧ body_password req = Some p
            ∧ bcrypt_compare crypto p hash = Ret true)
  ∧ (status r.1.1 ≠ 200 → r.1.2 = None ∧ r.2 = s)
  ∧ world r.2 = world s ∧ validator r.2 = validator s.
Proof.
  intros r hash. subst r hash. unfold post_login.
  split; [|split; [|split; [|split]]].
  - intros [->| ->]; simpl; [done|]. by rewrite orb_true_r.
  - intros u p Hu Hp Tu Tp. rewrite Hu, Hp. simpl. rewrite Tu, Tp. simpl.
    split.
    + intros Hne. unfold authenticate. destruct u as [| | |x| |]; try done.
      destruct (String.eqb_spec x (cfg_admin_username config)) as [->|];
        [done|done].
    + intros ->. unfold authenticate, verifyPassword.
      rewrite String.eqb_refl. simpl.
      destruct (bcrypt_compare crypto p _) as [[|]|]; done.
  - destruct (body_username req) as [u|]; [|done].
    destruct (body_password req) as [p|]; [|simpl; by rewrite orb_true_r].
    simpl. destruct (negb (truthy u) || negb (truthy p)); [done|].
    unfold authenticate, verifyPassword. destruct u as [| | |x| |]; try done.
    destruct (String.eqb_spec x (cfg_admin_username config)) as [->|];
      [|done]. simpl.
    destruct (bcrypt_compare crypto p _) as [[|]|] eqn:E; try done.
    intros _. by exists p.
  - destruct (negb (truthy_opt (body_username req))
              || negb (truthy_opt (body_password req))); [done|].
    destruct (authenticate _ _ _ _) as [[|]|]; [|done|done].
    by destruct (default JNull (body_username req)).
  - destruct (negb (truthy_opt (body_username req))
              || negb (truthy_opt (body_password req))); [done|].
    destruct (authenticate _ _ _ _) as [[|]|]; [|done|done].
    by destruct (default JNull (body_username req)).
Qed.

(** X9. From login to logout. After a login that set the cookie [tok], a
    request carrying [tok], as cookie, as [Bearer tok] or as the bare
    header value, passes the session check for the next 24 hours as long
    as the session map is not changed, and the check changes nothing.
    Once [POST /api/auth/logout] has been called with the token, the
    status route answers false, and the routes that write or delete
    documents answer 401 and leave files, schemas and sessions alone. *)
Theorem login_then_logout (sid tok : string) (lreq : LoginRequest)
    (req : Request) (s s1 : Server) (resp : Response) :
  post_login crypto config sid lreq s = ((resp, Some tok), s1) →
  tok ≠ "" → carries tok req →
  resp = login_ok tok
  ∧ (∀ s', sessions s' = sessions s1 →
       (clock_ms (world s') - clock_ms (world s) ≤ maxAge)%Z →
       session_check req s' = (true, s')
       ∧ get_status req s'
         = (mkResponse 200 (JObj [("authenticated", JBool true)]), s'))
  ∧ (let s2 := (post_logout req s1).2 in
     sessions s2 !! tok = None
     ∧ world s2 = world s1 ∧ validator s2 = validator s1
     ∧ get_status req s2
       = (mkResponse 200 (JObj [("authenticated", JBool false)]), s2)
     ∧ ∀ name,
         post_api_file lib config name req s2 = (auth_required, s2)
         ∧ put_api_file lib config name req s2 = (auth_required, s2)
         ∧ patch_api_file lib config name req s2 = (auth_required, s2)
         ∧ delete_api_file config name req s2 = (auth_required, s2)).
Proof.
  intros Hlogin Hne Hcar.
  pose proof (carries_sessionId _ _ Hne Hcar) as Hreq.
  assert (tok = sid ∧ resp = login_ok tok
          ∧ ∃ u, s1 = logged_in sid u s) as (-> & -> & u & ->).
  { unfold post_login in Hlogin.
    destruct (negb (truthy_opt (body_username lreq))
              || negb (truthy_opt (body_password lreq))); [done|].
    destruct (authenticate _ _ _ _) as [[|]|]; [|done|done].
    destruct (default JNull (body_username lreq)) as [| | |x| |]; try done.
    simpl in Hlogin. injection Hlogin as <- <- <-. split; [done|].
    split; [done|]. by exists x. }
  split; [done|]. split.
  - intros s' Hs' Hage.
    assert (session_check req s' = (true, s')) as Hcheck.
    { assert (sessions s' !! sid
              = Some (mkAuthSession u true (clock_ms (world s)))) as Hl.
      { rewrite Hs'. apply lookup_insert_eq. }
      rewrite (session_check_sessionId _ _ _ Hne Hreq).
      unfold validateSession. rewrite Hl. simpl.
      replace (maxAge <? _)%Z with false by lia. by destruct s'. }
    split; [done|]. unfold get_status. by rewrite Hcheck.
  - unfold post_logout. rewrite Hreq.
    destruct (String.eqb_spec sid ""); [done|]. simpl.
    set (s2 := mkServer _ _ _).
    assert (sessions s2 !! sid = None) as Habs.
    { unfold s2, invalidateSession. simpl. apply lookup_delete_eq. }
    assert (session_check req s2 = (false, s2)) as Hcheck.
    { rewrite (session_check_sessionId _ _ _ Hne Hreq).
      unfold validateSession. by rewrite Habs. }
    split; [done|]. split; [done|]. split; [done|]. split.
    { unfold get_status. by rewrite Hcheck. }
    intros name.
    unfold post_api_file, put_api_file, patch_api_file, delete_api_file,
      optionalAuth, requireAuth.
    by rewrite !Hcheck.
Qed.

End AuthRoutes.

Lemma login_then_logout_witness :
  let s := mkServer empty_world ∅ (mkSchemaValidator [] "./schemas" ∅) in
  let s1 := logged_in "k3j9x" "admin" s in
  let req := mkRequest None (Some "Bearer k3j9x") None in
  post_login demo_crypto example_config "k3j9x"
    (mkLoginRequest (Some (JStr "admin")) (Some (JStr "secret"))) s
  = ((login_ok "k3j9x", Some "k3j9x"), s1)
  ∧ session_check req s1 = (true, s1)
  ∧ delete_api_file example_config "menu" req (post_logout req s1).2
    = (auth_required, (post_logout req s1).2).
Proof.
  intros s s1 req.
  assert (post_login demo_crypto example_config "k3j9x"
            (mkLoginRequest (Some (JStr "admin")) (Some (JStr "secret"))) s
          = ((login_ok "k3j9x", Some "k3j9x"), s1)) as Hlogin
    by (vm_compute; reflexivity).
  assert (carries "k3j9x" req) as Hcar
    by (right; split; [reflexivity|by left]).
  destruct (login_then_logout demo_lib example_config demo_crypto
              "k3j9x" "k3j9x" _ req s s1 _ Hlogin ltac:(done) Hcar)
    as (_ & Hin & Hout).
  split; [exact Hlogin|]. split.
  - apply (Hin s1); [reflexivity|]. vm_compute. discriminate.
  - apply Hout.
Defined.

(** X10. Sessions do not interfere. Whatever is done with other tokens
    (logins that draw another id, checks that purge an expired session,
    logouts) leaves the session of [tok] as it is, so a check of [tok]
    has the same answer before and after. *)
Theorem sessions_independent (calls : list SessionCall) (tok : string)
    (sessions : gmap string AuthSession) (now : Z) :
  Forall (λ c, call_token c ≠ tok) calls →
  run_calls calls sessions !! tok = sessions !! tok
  ∧ (validateSession now tok (run_calls calls sessions)).1
    = (validateSession now tok sessions).1.
Proof.
  intros Hcalls.
  assert (run_calls calls sessions !! tok = sessions !! tok) as Hsame.
  { revert sessions. induction Hcalls as [|c calls Hc _ IH]; intros sessions;
      [done|].
    simpl. rewrite IH. destruct c as [t sid user|t sid|sid]; simpl in *.
    - by apply lookup_insert_ne.
    - destruct (validateSession_sessions t sid sessions) as [-> | ->];
        [done|]. by apply lookup_delete_ne.
    - by apply lookup_delete_ne. }
  split; [done|]. unfold validateSession. rewrite Hsame.
  destruct (sessions !! tok) as [sess|]; [|done].
  by destruct (maxAge <? _)%Z.
Qed.

Lemma sessions_independent_witness :
  (validateSession 1000 "a"
     (run_calls [CallCreate 900 "b" "admin"; CallInvalidate "b"]
        {[ "a" := mkAuthSession "admin" true 0 ]})).1 = true.
Proof.
  rewrite (proj2 (sessions_independent
    [CallCreate 900 "b" "admin"; CallInvalidate "b"] "a"
    {[ "a" := mkAuthSession "admin" true 0 ]} 1000
    ltac:(repeat constructor; discriminate))).
  reflexivity.
Defined.

Section Unauthenticated.
Context (lib : Library) (config : LiteJSONConfig).


End Unauthenticated.


(** ** Object spread *)


Lemma obj_get_absent (k : string) (fs : list (string * json)) :
  k ∉ fs.*1 → obj_get k fs = None.
Proof.
  induction fs as [|[k' v] fs IH]; [done|]. simpl.
  rewrite not_elem_of_cons. intros [Hne Hfs]. rewrite IH by done.
  by destruct (String.eqb_spec k' k).
Qed.

Lemma obj_set_keys (k : string) (v : json) (fs : list (string * json)) :
  (obj_set k v fs).*1 = if bool_decide (k ∈ fs.*1) then fs.*1
                        else fs.*1 ++ [k].
Proof.
  induction fs as [|[k' v'] fs IH]; [done|]. cbn [obj_set].
  destruct (String.eqb_spec k k') as [->|Hne]; rewrite !fmap_cons; cbn [fst].
  - rewrite bool_decide_true; [done|]. set_solver.
  - rewrite IH.
    destruct (decide (k ∈ fs.*1)) as [Hin|Hin].
    + rewrite !bool_decide_true; [done|set_solver|done].
    + rewrite !bool_decide_false; [done|set_solver|done].
Qed.

Lemma obj_set_NoDup (k : string) (v : json) (fs : list (string * json)) :
  NoDup fs.*1 → NoDup (obj_set k v fs).*1.
Proof.
  intros Hnd. rewrite obj_set_keys. case_bool_decide as Hin; [done|].
  apply NoDup_app. split; [done|]. split; [|apply NoDup_singleton].
  set_solver.
Qed.

Lemma obj_set_get (k k' : string) (v : json) (fs : list (string * json)) :
  NoDup fs.*1 →
  obj_get k (obj_set k' v fs) = if String.eqb k' k then Some v
                                else obj_get k fs.
Proof.
  induction fs as [|[k0 v0] fs IH]; [done|]. simpl.
  intros [Hk0 Hnd]%NoDup_cons.
  destruct (String.eqb_spec k' k0) as [->|Hne]; simpl.
  - destruct (String.eqb_spec k0 k) as [<-|]; [|done].
    by rewrite (obj_get_absent k0 fs).
  - rewrite IH by done. by destruct (String.eqb_spec k' k).
Qed.

Lemma spread_fold (k : string) (l acc : list (string * json)) :
  NoDup acc.*1 →
  NoDup (List.fold_left (λ acc kv, obj_set kv.1 kv.2 acc) l acc).*1
  ∧ obj_get k (List.fold_left (λ acc kv, obj_set kv.1 kv.2 acc) l acc)
    = match obj_get k l with
      | Some v => Some v
      | None => obj_get k acc
      end.
Proof.
  revert acc. induction l as [|[k0 v0] l IH]; intros acc Hnd; [done|].
  cbn [List.fold_left obj_get fst snd].
  destruct (IH (obj_set k0 v0 acc) (obj_set_NoDup _ _ _ Hnd))
    as [Hnd' Hget].
  split; [done|]. rewrite Hget, obj_set_get by done.
  destruct (obj_get k l); [done|]. by destruct (String.eqb k0 k).
Qed.

(** X12. The merge of PATCH, [{ ...existing, ...data }], read as a map: the
    result is an object without repeated keys in which a property has
    the value the patch gives it, and otherwise the value it had in the
    existing document. A patch that is a number, a boolean or [null]
    has no properties and changes no value. *)
Lemma filter_partition_Permutation {A} (f : A → bool) (l : list A) :
  List.filter f l ++ List.filter (λ x, negb (f x)) l ≡ₚ l.
Proof.
  induction l as [|x l IH]; [done|]. simpl. destruct (f x); simpl.
  - by rewrite IH.
  - by rewrite <- Permutation_middle, IH.
Qed.

Lemma own_property_order_Permutation (fs : list (string * json)) :
  own_property_order fs ≡ₚ fs.
Proof.
  unfold own_property_order. rewrite merge_sort_Permutation.
  apply filter_partition_Permutation.
Qed.

Lemma obj_get_Some (k : string) (v : json) (fs : list (string * json)) :
  NoDup fs.*1 → obj_get k fs = Some v ↔ (k, v) ∈ fs.
Proof.
  revert v. induction fs as [|[k0 v0] fs IH]; intros v; simpl.
  - intros _. split; [done|]. by intros ?%elem_of_nil.
  - intros [Hk0 Hnd]%NoDup_cons. rewrite elem_of_cons.
    destruct (obj_get k fs) as [x|].
    + assert ((k, x) ∈ fs) as Hin by (by apply IH).
      split.
      * intros [= ->]. by right.
      * intros [[= -> ->]|Hv].
        -- exfalso. apply Hk0. apply list_elem_of_fmap. by exists (k0, x).
        -- by apply IH in Hv.
    + assert (∀ v', (k, v') ∉ fs) as Hout.
      { intros v' Hv'. by apply IH in Hv'. }
      destruct (String.eqb_spec k0 k) as [->|Hne]; split.
      * intros [= ->]. by left.
      * intros [[= ->]|Hv]; [done|]. by apply Hout in Hv.
      * done.
      * intros [[= -> ->]|Hv]; [done|]. by apply Hout in Hv.
Qed.

Lemma obj_get_Permutation (k : string) (fs fs' : list (string * json)) :
  NoDup fs.*1 → fs' ≡ₚ fs → obj_get k fs' = obj_get k fs.
Proof.
  intros Hnd Hp.
  assert (NoDup fs'.*1) as Hnd' by (by rewrite Hp).
  apply option_eq. intros v. rewrite !obj_get_Some by done. by rewrite Hp.
Qed.

Theorem merge_spread_get (a b : json) :
  ∃ fs, merge_spread a b = JObj fs
        ∧ NoDup fs.*1
        ∧ (∀ k, obj_get k fs = match obj_get k (spread b) with
                               | Some v => Some v
                               | None => obj_get k (spread a)
                               end)
        ∧ (spread b = [] → ∀ k, obj_get k fs = obj_get k (spread a)).
Proof.
  eexists. split; [reflexivity|].
  assert (NoDup ([] : list (string * json)).*1) as Hnil by constructor.
  destruct (spread_fold "" (spread a) [] Hnil) as [Hnda _].
  pose proof (proj1 (spread_fold "" (spread b) _ Hnda)) as Hndb.
  split; [by rewrite own_property_order_Permutation|].
  assert (∀ k, obj_get k
      (own_property_order
         (fold_left (λ acc kv, obj_set kv.1 kv.2 acc) (spread b)
            (fold_left (λ acc kv, obj_set kv.1 kv.2 acc) (spread a) [])))
    = match obj_get k (spread b) with
      | Some v => Some v
      | None => obj_get k (spread a)
      end) as Hget.
  { intros k.
    rewrite (obj_get_Permutation k _ _ Hndb
               (own_property_order_Permutation _)).
    destruct (spread_fold k (spread b) _ Hnda) as [_ ->].
    destruct (spread_fold k (spread a) [] Hnil) as [_ ->].
    simpl. by destruct (obj_get k (spread a)). }
  split; [done|]. intros Hb k. by rewrite Hget, Hb.
Qed.

(** ** The document routes *)

Lemma session_check_same req s s' :
  authenticated_request req s →
  sessions s' = sessions s → clock_ms (world s') = clock_ms (world s) →
  session_check req s' = (true, s').
Proof.
  intros Hauth Hs Hc. apply session_check_true.
  unfold authenticated_request in *. unfold session_check in *.
  destruct (request_sessionId req) as [sid|]; [|done].
  destruct (negb (String.eqb sid "")); [|done].
  rewrite Hs, Hc.
  by destruct (validateSession _ sid (sessions s)).
Qed.

Section DocumentRoutes.
Context (lib : Library) (config : LiteJSONConfig).

Lemma writeFile_server (name : string) (d : json) (s : Server) :
  faults (world s) = [] →
  ∃ w',
    writeFile lib (fileManager config) name d (world s)
      = (Ret (mkFileOperation true (Some d) None), w')
    ∧ faults w' = [] ∧ clock_ms w' = clock_ms (world s)
    ∧ files w' !! getFilePath (fileManager config) name
      = Some (JSON_stringify lib d).
Proof.
  intros Hf.
  destruct (writeFile_no_fault lib (fileManager config) name d (world s) Hf)
    as (w' & E & Hf' & _ & Hfiles).
  destruct (writeFile_spec lib (fileManager config) name d (world s))
    as (w1 & res & w'' & _ & E' & _ & _ & _ & _ & _ & _ & Hclock).
  rewrite E in E'. injection E' as <- <-.
  exists w'. split; [done|]. split; [done|]. split; [done|].
  rewrite Hfiles. apply lookup_insert_eq.
Qed.

Lemma write_response_ok (name : string) (d : json) (s : Server) :
  verdict (validate lib (validator s) name d) = Some true →
  faults (world s) = [] →
  ∃ s',
    write_response lib config name d s
      = (mkResponse 200 (success_body (Some d)), s')
    ∧ sessions s' = sessions s ∧ validator s' = validator s
    ∧ faults (world s') = [] ∧ clock_ms (world s') = clock_ms (world s)
    ∧ files (world s') !! getFilePath (fileManager config) name
      = Some (JSON_stringify lib d).
Proof.
  intros Hv Hf. destruct (writeFile_server name d s Hf)
    as (w' & E & Hf' & Hc & Hfile).
  exists (mkServer w' (sessions s) (validator s)).
  unfold write_response, run_world.
  destruct (validate lib (validator s) name d) as [v|]; [|done].
  simpl in Hv. injection Hv as ->. rewrite E. by simpl.
Qed.

Lemma read_response_present (name : string) (s : Server) c j :
  files (world s) !! getFilePath (fileManager config) name = Some c →
  faults (world s) = [] →
  JSON_parse lib c = Ret j →
  read_response lib config name s = (mkResponse 200 j, s).
Proof.
  intros Hc Hf Hj. unfold read_response, run_world.
  rewrite (readFile_present lib _ name (world s) c j Hc (no_fault_cur _ Hf) Hj).
  rewrite (no_fault_tick_eq _ Hf). simpl. by destruct s.
Qed.

(** X13. Round trip through the routes. An authenticated POST or PUT with a
    truthy document that passes validation, in an environment without
    failures, is answered 200 with the document; sessions and schemas
    stay as they are. Afterwards the document is served, by
    [GET /api/file/] to the same client and by [GET /data/] unless the
    name is marked admin, under every request name that resolves to the
    same path, provided [JSON.parse] inverts [JSON.stringify] on it. *)
Theorem post_then_get (name : string) (d : json) (req : Request)
    (s : Server) :
  authenticated_request req s →
  body_data req = Some d → truthy d = true →
  verdict (validate lib (validator s) name d) = Some true →
  faults (world s) = [] →
  JSON_parse lib (JSON_stringify lib d) = Ret d →
  ∃ s',
    post_api_file lib config name req s
      = (mkResponse 200 (success_body (Some d)), s')
    ∧ put_api_file lib config name req s
      = (mkResponse 200 (success_body (Some d)), s')
    ∧ sessions s' = sessions s ∧ validator s' = validator s
    ∧ ∀ other,
        getFilePath (fileManager config) other
          = getFilePath (fileManager config) name →
        get_api_file lib config other req s' = (mkResponse 200 d, s')
        ∧ (requiresAdmin config other = false →
           get_data lib config other req s' = (mkResponse 200 d, s')).
Proof.
  intros Hauth Hd Ht Hv Hf Hrt.
  pose proof (session_check_true req s Hauth) as Hcheck.
  destruct (write_response_ok name d s Hv Hf)
    as (s' & E & Hs & Hval & Hf' & Hc & Hfile).
  exists s'.
  unfold post_api_file, put_api_file, optionalAuth, requireAuth.
  rewrite Hcheck. cbv beta iota zeta. rewrite Hcheck, Hd. simpl.
  rewrite Ht. simpl. rewrite E.
  split; [done|]. split; [done|]. split; [done|]. split; [done|].
  intros other Hpath.
  assert (read_response lib config other s' = (mkResponse 200 d, s')) as Hr.
  { apply (read_response_present other s' (JSON_stringify lib d));
      [by rewrite Hpath|done..]. }
  split.
  - unfold get_api_file, optionalAuth.
    rewrite (session_check_same req s s' Hauth Hs Hc).
    by rewrite andb_false_r.
  - intros Hadm. unfold get_data. by rewrite Hadm.
Qed.

(** X14. Validation stands in front of the store. When the validator rejects
    the document of an authenticated POST or PUT, the answer is 400
    [Validation failed] with the formatted messages of Ajv, of which
    there is at least one, and nothing is written: the server is left
    exactly as it was. *)
Theorem validation_blocks_write (name : string) (d : json) (req : Request)
    (s : Server) :
  authenticated_request req s →
  body_data req = Some d → truthy d = true →
  verdict (validate lib (validator s) name d) = Some false →
  ∃ check e errs,
    ajv_getSchema lib (ajv (validator s)) (schemaName_of name)
      = Ret (Some check)
    ∧ check d = e :: errs
    ∧ post_api_file lib config name req s
      = (validation_failed (Some (format_error <$> e :: errs)), s)
    ∧ put_api_file lib config name req s
      = (validation_failed (Some (format_error <$> e :: errs)), s).
Proof.
  intros Hauth Hd Ht Hv.
  pose proof (session_check_true req s Hauth) as Hcheck.
  assert (∃ check e errs,
    ajv_getSchema lib (ajv (validator s)) (schemaName_of name)
      = Ret (Some check)
    ∧ check d = e :: errs
    ∧ validate lib (validator s) name d
      = Ret (mkValidationResult false (Some (format_error <$> e :: errs))))
    as (check & e & errs & Hschema & Herrs & Hval).
  { unfold validate in *. fold (schemaName_of name) in *.
    destruct (negb (bool_decide _)); [done|].
    destruct (ajv_getSchema lib (ajv (validator s)) (schemaName_of name))
      as [[check|]|]; [|done..].
    destruct (check d) as [|e errs] eqn:Herrs; [done|].
    by exists check, e, errs. }
  exists check, e, errs. split; [done|]. split; [done|].
  unfold post_api_file, put_api_file, optionalAuth, requireAuth.
  rewrite Hcheck. cbv beta iota zeta. rewrite Hcheck, Hd. simpl.
  rewrite Ht. simpl. unfold write_response. by rewrite Hval.
Qed.

End DocumentRoutes.

Lemma post_then_get_witness :
  ∃ s',
    post_api_file demo_lib example_config "menu.json"
      (mkRequest (Some "tok") None (Some (JObj []))) example_server
    = (mkResponse 200 (success_body (Some (JObj []))), s')
    ∧ get_api_file demo_lib example_config "menu"
        (mkRequest (Some "tok") None (Some (JObj []))) s'
      = (mkResponse 200 (JObj []), s').
Proof.
  destruct (post_then_get demo_lib example_config "menu.json" (JObj [])
              (mkRequest (Some "tok") None (Some (JObj []))) example_server)
    as (s' & Hpost & _ & _ & _ & Hget).
  - vm_compute. reflexivity.
  - reflexivity.
  - reflexivity.
  - reflexivity.
  - reflexivity.
  - reflexivity.
  - exists s'. split; [exact Hpost|]. apply Hget. vm_compute. reflexivity.
Defined.

Lemma validation_blocks_write_witness :
  post_api_file demo_lib example_config "menu.json"
    (mkRequest (Some "tok") None (Some (JObj []))) guarded_server
  = (validation_failed (Some ["boolean schema is false"]), guarded_server).
Proof.
  destruct (validation_blocks_write demo_lib example_config "menu.json"
              (JObj []) (mkRequest (Some "tok") None (Some (JObj [])))
              guarded_server)
    as (schema & e & errs & Hschema & Herrs & Hpost & _).
  - vm_compute. reflexivity.
  - reflexivity.
  - reflexivity.
  - vm_compute. reflexivity.
  - vm_compute in Hschema. injection Hschema as <-.
    vm_compute in Herrs. injection Herrs as <- <-. exact Hpost.
Defined.

Section DocumentRoutes2.
Context (lib : Library) (config : LiteJSONConfig).


End DocumentRoutes2.


Section DeleteRoute.
Context (lib : Library) (config : LiteJSONConfig).

(** X16. What an authenticated DELETE does. A document that does not exist
    is answered 404 [File not found] and nothing changes. An existing
    document, in an environment without failures, is answered 200: its
    file is gone, its content is kept in the backup under the history
    directory, sessions and schemas are as before, and a following GET
    of the name by the same client is answered 404 [File not found]. *)
Theorem delete_route_outcomes (name : string) (req : Request) (s : Server) :
  authenticated_request req s →
  let fm := fileManager config in
  let path := getFilePath fm name in
  let r := delete_api_file config name req s in
  (files (world s) !! path = None → is_dir path (world s) = false →
     r = (mkResponse 404 (JObj [("error", JStr "File not found")]), s))
  ∧ (∀ c, files (world s) !! path = Some c → faults (world s) = [] →
       r.1 = mkResponse 200 (JObj [("success", JBool true)])
       ∧ files (world r.2) !! path = None
       ∧ files (world r.2)
           !! backupPath fm path (toISOString (today (world s))) = Some c
       ∧ sessions r.2 = sessions s ∧ validator r.2 = validator s
       ∧ (is_dir path (world s) = false →
          get_api_file lib config name req r.2
          = (mkResponse 404 (JObj [("error", JStr "File not found")]),
             r.2))).
Proof.
  intros Hauth fm path r.
  pose proof (session_check_true req s Hauth) as Hcheck.
  assert (r = match run_world (deleteFile fm name) s with
              | (Ret result, s3) =>
                  if negb (success result) then
                    (mkResponse 404 (error_body (error result)), s3)
                  else (mkResponse 200 (JObj [("success", JBool true)]), s3)
              | (Throw _, s3) => (server_error, s3)
              end) as Hr.
  { unfold r, delete_api_file, optionalAuth, requireAuth.
    rewrite Hcheck. cbv beta iota zeta. by rewrite Hcheck. }
  split.
  - intros Hnone Hdir.
    destruct (deleteFile_spec fm name (world s))
      as (res & w' & E & _ & _ & _ & _ & Habs).
    destruct Habs as [-> ->]; [by apply is_file_false|done|].
    rewrite Hr. unfold run_world. rewrite E. simpl. by destruct s.
  - intros c Hc Hf.
    destruct (deleteFile_no_fault fm name (world s) c Hf Hc)
      as (w' & E & Hf' & Hd & Hfiles).
    assert (clock_ms w' = clock_ms (world s)) as Hclock.
    { revert E. unfold deleteFile. rewrite try_catch_eq, bind_eq.
      unfold existsSync, is_file. fold fm path.
      rewrite Hc, bool_decide_true by done. simpl.
      destruct (createBackup_frame fm path (world s))
        as (w1 & E1 & (_ & _ & Hc1) & Hframe).
      rewrite bind_eq, E1, bind_eq, unlinkSync_eq.
      rewrite (Hframe path) by apply getFilePath_ne_backup.
      rewrite Hc. destruct (cur_fault w1); simpl; [|done..].
      intros [= <-]. by simpl. }
    assert (files w' !! path = None) as Hgone
      by (rewrite Hfiles; apply lookup_delete_eq).
    rewrite Hr. unfold run_world. rewrite E. simpl.
    split; [done|]. split; [done|]. split.
    { rewrite Hfiles, lookup_delete_ne by apply getFilePath_ne_backup.
      apply lookup_insert_eq. }
    split; [done|]. split; [done|].
    intros Hdir. unfold get_api_file, optionalAuth.
    rewrite (session_check_same req s (mkServer w' (sessions s) (validator s))
               Hauth) by done.
    rewrite andb_false_r. unfold read_response, run_world. simpl.
    rewrite readFile_absent; [done|done|].
    unfold is_dir in *. by rewrite Hd.
Qed.

End DeleteRoute.

Lemma delete_route_outcomes_witness :
  (delete_api_file example_config "menu.json" example_request
     example_server).1
  = mkResponse 200 (JObj [("success", JBool true)]).
Proof.
  destruct (delete_route_outcomes demo_lib example_config "menu.json"
              example_request example_server) as [_ H].
  - vm_compute. reflexivity.
  - apply (H "{}"); reflexivity.
Defined.

(** ** The schema registry *)

Section Registry.
Context (lib : Library).

Lemma loaded_from_app (dir : string) (w : World) calls more n j :
  loaded_from lib dir w calls n j → loaded_from lib dir w (calls ++ more) n j.
Proof.
  intros (file & before & H1 & H2 & H3 & H4 & H5 & after & ->).
  exists file, before. split_and!; try done.
  exists (after ++ more). by rewrite <- app_assoc.
Qed.

(** An invariant of the loading loop: it only reads; every call it
    makes to Ajv passes the parsed content of one of its files; and what
    it stores in the schema map, Ajv has taken under the same name. *)
Lemma loadLoop_inv (w0 : World) (l : list string) sv w :
  files w = files w0 →
  (∀ file, file ∈ l →
     file ∈ dir_entries (schemasDir sv) w0 ∧ json_ext file = true) →
  (∀ n j, (j, n) ∈ ajv sv → read_from lib (schemasDir sv) w0 n j) →
  (∀ n j, schemas sv !! n = Some j →
     loaded_from lib (schemasDir sv) w0 (ajv sv) n j) →
  schemasDir (loadLoop lib l sv w).1.1 = schemasDir sv
  ∧ (∀ n j, (j, n) ∈ ajv (loadLoop lib l sv w).1.1 →
       read_from lib (schemasDir sv) w0 n j)
  ∧ (∀ n j, schemas (loadLoop lib l sv w).1.1 !! n = Some j →
       loaded_from lib (schemasDir sv) w0 (ajv (loadLoop lib l sv w).1.1) n j)
  ∧ files (loadLoop lib l sv w).2 = files w
  ∧ dirs (loadLoop lib l sv w).2 = dirs w
  ∧ warnings (loadLoop lib l sv w).2 = warnings w.
Proof.
  revert sv w. induction l as [|file l IH]; intros sv w Hw Hl Hcalls Hreg;
    [done|].
  rewrite loadLoop_cons, readFileSync_eq.
  destruct (files w !! NodePath.join (schemasDir sv) file) as [c|] eqn:Hc;
    [|by destruct (is_dir _ w)].
  destruct (cur_fault w); [|done..].
  destruct (JSON_parse lib c) as [schema|msg] eqn:Hj; [|done].
  cbv zeta.
  assert (read_from lib (schemasDir sv) w0 (schemaName_of file) schema)
    as Hfrom.
  { exists file. destruct (Hl file) as [Hin Hext]; [by left|].
    split_and!; try done. unfold schema_at. by rewrite <- Hw, Hc, Hj. }
  assert (∀ n j, (j, n) ∈ ajv sv ++ [(schema, schemaName_of file)] →
            read_from lib (schemasDir sv) w0 n j) as Hcalls'.
  { intros n j [Hin|Hin]%elem_of_app; [by apply Hcalls|].
    apply list_elem_of_singleton in Hin. by injection Hin as -> ->. }
  destruct (ajv_addSchema lib (ajv sv) schema (schemaName_of file))
    as [[]|msg] eqn:Hadd.
  - set (sv1 := mkSchemaValidator _ _ _).
    destruct (IH sv1 (tick w)) as (H2 & H3 & H4 & H5 & H6 & H7).
    + done.
    + intros f Hf. apply Hl. by right.
    + done.
    + intros n j. unfold sv1. simpl.
      destruct (decide (schemaName_of file = n)) as [<-|Hne].
      * rewrite lookup_insert_eq. intros [= <-].
        destruct Hfrom as (f & Hin & Hext & Hn & Hat).
        exists f, (ajv sv). rewrite Hn. split_and!; try done. by exists [].
      * rewrite lookup_insert_ne by done. intros H.
        by apply loaded_from_app, Hreg.
    + by split_and!.
  - simpl. split_and!; try done. intros n j H.
    by apply loaded_from_app, Hreg.
Qed.

Lemma loadLoop_no_fault (l : list string) sv w :
  faults w = [] → faults (loadLoop lib l sv w).2 = []
  ∧ clock_ms (loadLoop lib l sv w).2 = clock_ms w.
Proof.
  revert sv w. induction l as [|file l IH]; intros sv w Hf; [done|].
  rewrite loadLoop_cons, readFileSync_eq.
  destruct (files w !! _) as [c|]; [|by destruct (is_dir _ w)].
  rewrite (no_fault_cur _ Hf), (no_fault_tick_eq _ Hf).
  destruct (JSON_parse lib c) as [schema|msg]; [|done].
  cbv zeta. destruct (ajv_addSchema lib _ _ _); [|done]. by apply IH.
Qed.

Lemma reloadSchemas_registry (sv : SchemaValidator) (w : World) :
  let dir := schemasDir sv in
  let sv' := (reloadSchemas lib sv w).1 in
  let w' := (reloadSchemas lib sv w).2 in
  files w' = files w ∧ dirs w' = dirs w
  ∧ (warnings w' = warnings w
     ∨ ∃ msg, warnings w' = warnings w ++ ["Failed to load schemas: " +:+ msg])
  ∧ schemasDir sv' = dir
  ∧ (∀ n j, (j, n) ∈ ajv sv' → read_from lib dir w n j)
  ∧ (∀ n j, schemas sv' !! n = Some j → loaded_from lib dir w (ajv sv') n j)
  ∧ (faults w = [] → faults w' = [] ∧ clock_ms w' = clock_ms w).
Proof.
  intros dir sv' w'.
  subst sv' w'. unfold reloadSchemas, loadSchemas, existsSync.
  cbn [schemasDir]. fold dir.
  assert (∀ n j, (j, n) ∈ @nil (json * string) → read_from lib dir w n j)
    as Hnil by (intros n j Hin; by apply elem_of_nil in Hin).
  destruct (is_file dir w || is_dir dir w);
    [|split_and!; [done|done|by left|done|done|done|done]].
  rewrite readdirSync_eq.
  destruct (is_dir dir w);
    [|destruct (is_file dir w);
      split_and!; [done|done|right; by eexists|done|done|done|done
                  |done|done|right; by eexists|done|done|done|done]].
  destruct (cur_fault w) eqn:Hcur;
    [|split_and!; [done|done|right; by eexists|done|done|done|
                   intros Hf; by rewrite (no_fault_cur _ Hf) in Hcur]..].
  pose proof (loadLoop_inv w
                (List.filter json_ext (dir_entries dir w))
                (mkSchemaValidator [] dir ∅) (tick w)) as Hloop.
  pose proof (loadLoop_no_fault (List.filter json_ext (dir_entries dir w))
                (mkSchemaValidator [] dir ∅) (tick w)) as Hnf.
  destruct (loadLoop lib _ _ (tick w)) as [[sv1 err] w1].
  destruct Hloop as (H2 & H3 & H4 & H5 & H6 & H7); [done| |done|done|].
  - intros file Hin.
    apply list_elem_of_In, List.filter_In in Hin as [Hin Hext].
    by apply list_elem_of_In in Hin.
  - assert (faults w = [] → faults w1 = [] ∧ clock_ms w1 = clock_ms w) as Hnf'.
    { intros Hf. apply Hnf. by apply no_fault_tick. }
    simpl in *.
    destruct err as [msg|]; simpl.
    + split_and!; [done|done| |done|done|done|done].
      right. exists msg. by rewrite H7.
    + split_and!; [done|done|by left|done|done|done|done].
Qed.


End Registry.

Lemma getFilePath_basename fm (q f : string) :
  f ≠ "" → no_sep f = true →
  getFilePath fm (q +:+ "/" +:+ f) = getFilePath fm f.
Proof.
  intros Hne Hf. unfold getFilePath, baseFilename, sanitizeFilename.
  assert (NodePath.basename (q +:+ "/" +:+ f) = f) as ->.
  { rewrite <- str_app_assoc. apply basename_entry; [|done..].
    right. by exists q. }
  assert (NodePath.basename f = f) as ->; [|done].
  rewrite <- (str_app_nil_l f) at 1. apply basename_entry; [|done..].
  by left.
Qed.

Section Aliases.
Context (lib : Library) (config : LiteJSONConfig).

(** X18. Validation is keyed by the request name, the store by the
    sanitized base name. A request name with a directory part, [q/f],
    addresses the document of [f], but its schema is looked up under the
    name as sent. So an authenticated POST or PUT of a truthy document
    to [q/f], for which no schema is registered, overwrites the document
    of [f] with it in an environment without failures - whether or not a
    schema registered for [f] accepts the document. *)
Theorem validation_keyed_by_request_name (q f : string) (d : json)
    (req : Request) (s : Server) :
  authenticated_request req s →
  body_data req = Some d → truthy d = true →
  faults (world s) = [] →
  f ≠ "" → no_sep f = true →
  hasSchema (validator s) (q +:+ "/" +:+ f) = false →
  let fm := fileManager config in
  getFilePath fm (q +:+ "/" +:+ f) = getFilePath fm f
  ∧ ∃ s',
      post_api_file lib config (q +:+ "/" +:+ f) req s
        = (mkResponse 200 (success_body (Some d)), s')
      ∧ put_api_file lib config (q +:+ "/" +:+ f) req s
        = (mkResponse 200 (success_body (Some d)), s')
      ∧ files (world s') !! getFilePath fm f = Some (JSON_stringify lib d).
Proof.
  intros Hauth Hd Ht Hf Hne Hsep Hno fm.
  pose proof (getFilePath_basename fm q f Hne Hsep) as Hpath.
  split; [done|].
  pose proof (session_check_true req s Hauth) as Hcheck.
  assert (verdict (validate lib (validator s) (q +:+ "/" +:+ f) d)
          = Some true) as Hv.
  { unfold hasSchema, schemaName_of in Hno. unfold validate.
    by rewrite Hno. }
  destruct (write_response_ok lib config (q +:+ "/" +:+ f) d s Hv Hf)
    as (s' & E & _ & _ & _ & _ & Hfile).
  exists s'.
  unfold post_api_file, put_api_file, optionalAuth, requireAuth.
  rewrite Hcheck. cbv beta iota zeta. rewrite Hcheck, Hd. simpl.
  rewrite Ht. simpl. rewrite E. fold fm in Hfile. by rewrite <- Hpath.
Qed.

End Aliases.

Lemma validation_keyed_by_request_name_witness :
  verdict (validate demo_lib (validator guarded_server) "menu" (JObj []))
    = Some false
  ∧ ∃ s',
      post_api_file demo_lib example_config "x/menu"
        (mkRequest (Some "tok") None (Some (JObj []))) guarded_server
      = (mkResponse 200 (success_body (Some (JObj []))), s')
      ∧ files (world s') !! "data/menu.json" = Some "{}".
Proof.
  split; [reflexivity|].
  destruct (validation_keyed_by_request_name demo_lib example_config
              "x" "menu" (JObj [])
              (mkRequest (Some "tok") None (Some (JObj []))) guarded_server)
    as (_ & s' & Hpost & _ & Hfile).
  - vm_compute. reflexivity.
  - reflexivity.
  - reflexivity.
  - reflexivity.
  - done.
  - reflexivity.
  - reflexivity.
  - exists s'. split; [exact Hpost|exact Hfile].
Defined.

(** ** The schema routes *)

Section SchemaPaths.
Import JsString NodePath.

(** [path.join] follows [..] out of a one-segment relative directory. *)
Lemma join_sibling (dir S D e : string) :
  dir ≠ "" → isAbsolute dir = false →
  resolve true (split dir) = [S] → S ≠ ".." →
  is_entry_name D = true → is_entry_name e = true →
  join dir ("../" +:+ D +:+ "/" +:+ e) = D +:+ "/" +:+ e.
Proof.
  intros Hdir Habs Hres HS HD He.
  pose proof (entry_name_inv _ HD) as (HDne & _ & _ & HDsep).
  pose proof (entry_name_inv _ He) as (Hene & _ & _ & Hesep).
  unfold join.
  apply String.eqb_neq in Hdir as Hdir'. rewrite Hdir'.
  assert ("../" +:+ D +:+ "/" +:+ e ≠ "") as ->%String.eqb_neq by done.
  unfold normalize.
  assert (dir +:+ "/" +:+ "../" +:+ D +:+ "/" +:+ e ≠ "") as ->%String.eqb_neq
    by (by intros [? _]%str_app_eq_nil).
  rewrite isAbsolute_app, Habs by done.
  assert (dir +:+ "/" +:+ "../" +:+ D +:+ "/" +:+ e
          = ((dir +:+ "/" +:+ "..") +:+ "/" +:+ D) +:+ "/" +:+ e) as Hshape.
  { rewrite !str_app_assoc. done. }
  rewrite Hshape.
  rewrite <- (str_app_assoc _ "/" e), no_sep_no_trailing by done.
  rewrite (str_app_assoc _ "/" e).
  rewrite !split_app by done.
  cbn [negb]. unfold resolve in *. rewrite !fold_left_app.
  apply (f_equal (@List.rev string)) in Hres. rewrite List.rev_involutive in Hres.
  rewrite Hres. simpl.
  assert (resolve_step true [S] ".." = []) as ->.
  { unfold resolve_step. simpl. apply String.eqb_neq in HS. by rewrite HS. }
  rewrite !resolve_step_entry by done. simpl.
  assert (D +:+ "/" +:+ e ≠ "") as ->%String.eqb_neq
    by (by intros [? _]%str_app_eq_nil).
  done.
Qed.

End SchemaPaths.

Section SchemaRouteProps.
Context (lib : Library) (config : LiteJSONConfig).

Lemma get_schema_present (filename : string) (s : Server) c j :
  files (world s) !! schemaPath config filename = Some c →
  cur_fault (world s) = NoFault →
  JSON_parse lib c = Ret j →
  get_schema lib config filename s
  = (mkResponse 200 j, mkServer (tick (world s)) (sessions s) (validator s)).
Proof.
  intros Hc Hf Hj. unfold get_schema, run_route, run_world.
  rewrite try_catch_eq, bind_eq. unfold existsSync, is_file.
  rewrite Hc, bool_decide_true by done. simpl.
  rewrite bind_eq, readFileSync_eq, Hc, Hf, bind_eq. unfold parse.
  by rewrite Hj.
Qed.

Lemma get_schema_absent (filename : string) (s : Server) :
  files (world s) !! schemaPath config filename = None →
  is_dir (schemaPath config filename) (world s) = false →
  get_schema lib config filename s
  = (error_response 404 "Schema not found", s).
Proof.
  intros Hc Hd. unfold get_schema, run_route, run_world.
  rewrite try_catch_eq, bind_eq. unfold existsSync, is_file.
  rewrite Hc, Hd, bool_decide_false by (by intros [??]). simpl.
  by destruct s.
Qed.

(** X19. The schema route reads outside the schema directory, and asks
    for no session. When the schema directory is one relative segment
    and the data directory a sibling [D] of it, then for every document
    whose entry is [b.json], the request
    [GET /api/schema/../D/b] resolves to the file of that document and
    is answered 200 with its content - also for a document that the
    configuration marks admin. *)
Theorem schema_route_serves_documents (S D b name : string) (c : string)
    (j : json) (s : Server) :
  cfg_schemasDir config ≠ "" →
  NodePath.isAbsolute (cfg_schemasDir config) = false →
  NodePath.resolve true (NodePath.split (cfg_schemasDir config)) = [S] →
  S ≠ ".." →
  NodePath.dir_prefix (cfg_dataDir config) = D +:+ "/" →
  NodePath.is_entry_name D = true →
  entryName name = b +:+ ".json" →
  JsString.includes ".json" ("../" +:+ D +:+ "/" +:+ b) = false →
  files (world s) !! getFilePath (fileManager config) name = Some c →
  JSON_parse lib c = Ret j →
  cur_fault (world s) = NoFault →
  schemaPath config ("../" +:+ D +:+ "/" +:+ b)
    = getFilePath (fileManager config) name
  ∧ get_schema lib config ("../" +:+ D +:+ "/" +:+ b) s
    = (mkResponse 200 j,
       mkServer (tick (world s)) (sessions s) (validator s)).
Proof.
  intros Hne Habs Hres HS HD HDe Hentry Hinc Hc Hj Hf.
  assert (schemaPath config ("../" +:+ D +:+ "/" +:+ b)
          = getFilePath (fileManager config) name) as Hpath.
  { unfold schemaPath, schemaName_of.
    rewrite replace_first_absent by done.
    rewrite !str_app_assoc.
    rewrite (join_sibling _ S D (b +:+ ".json")); [|done..|].
    - rewrite getFilePath_eq. simpl. by rewrite HD, Hentry, str_app_assoc.
    - rewrite <- Hentry. apply entryName_is_entry. }
  split; [done|].
  apply (get_schema_present _ s c j); [by rewrite Hpath|done..].
Qed.

End SchemaRouteProps.

Lemma schema_route_serves_documents_witness :
  requiresAdmin example_config "menu.json" = true
  ∧ get_data demo_lib example_config "menu.json"
      (mkRequest None None None) example_server
    = (auth_required, example_server)
  ∧ get_schema demo_lib example_config "../data/menu" example_server
    = (mkResponse 200 (JObj []), example_server).
Proof.
  split; [reflexivity|]. split; [reflexivity|].
  apply (schema_route_serves_documents demo_lib example_config
           "schemas" "data" "menu" "menu.json" "{}" (JObj [])
           example_server); try reflexivity; done.
Defined.

Section SchemaWrites.
Context (lib : Library) (config : LiteJSONConfig).

Lemma reload_frame (s : Server) :
  files (world (reload lib s)) = files (world s)
  ∧ dirs (world (reload lib s)) = dirs (world s)
  ∧ sessions (reload lib s) = sessions s
  ∧ validator (reload lib s) = (reloadSchemas lib (validator s) (world s)).1
  ∧ (∀ n j, schemas (validator (reload lib s)) !! n = Some j →
       loaded_from lib (schemasDir (validator s)) (world s)
         (ajv (validator (reload lib s))) n j)
  ∧ (faults (world s) = [] → faults (world (reload lib s)) = []).
Proof.
  unfold reload.
  destruct (reloadSchemas_registry lib (validator s) (world s))
    as (Hf & Hd & _ & _ & _ & Hreg & Hnf).
  destruct (reloadSchemas lib (validator s) (world s)) as [sv w'].
  simpl in *. split_and!; [done..|].
  intros H. by apply Hnf.
Qed.

(** The world after the schema directory is made sure of and the
    schema file written, when nothing fails. *)
Lemma schema_write (p content : string) w :
  faults w = [] →
  (let! e := existsSync (cfg_schemasDir config) in
   let! _ := (if e then ret tt else mkdirSync (cfg_schemasDir config)) in
   writeFileSync p content) w
  = (Ret tt,
     set_files (insert p content)
       (if is_file (cfg_schemasDir config) w
           || is_dir (cfg_schemasDir config) w
        then w
        else set_dirs (union {[NodePath.dir_prefix (cfg_schemasDir config)]})
               w)).
Proof.
  intros Hf. rewrite bind_eq. unfold existsSync.
  destruct (is_file _ w || is_dir _ w); rewrite bind_eq.
  - unfold ret. by rewrite writeFileSync_eq, (no_fault_cur _ Hf),
      (no_fault_tick_eq _ Hf).
  - rewrite mkdirSync_eq, (no_fault_cur _ Hf), writeFileSync_eq.
    rewrite (no_fault_tick_eq _ Hf).
    assert (faults (set_dirs (union {[NodePath.dir_prefix
              (cfg_schemasDir config)]}) w) = []) as Hf' by done.
    by rewrite (no_fault_cur _ Hf'), (no_fault_tick_eq _ Hf').
Qed.

(** X20. What an authenticated [POST /api/schema/:name] does. Without a
    truthy schema it answers 400 [Schema is required], with one that is
    not an object or array 400 [Invalid schema format], and changes
    nothing. Otherwise, in an environment without failures, it answers
    200 with the schema, and the server is left as [reloadSchemas]
    leaves it when run on the disk on which the schema directory exists
    and the schema file holds the text of the schema: no other file is
    touched (no backup is kept), sessions are as before, and the
    registry is the one a load of the schema directory builds from that
    disk, so every schema in it is the parsed content of a schema file
    of that disk which Ajv took without throwing. The 200 does not mean
    that the schema is in force: one on which Ajv throws whatever it
    holds is written and acknowledged, and is not registered. A
    following GET of the name returns the schema, if [JSON.parse]
    inverts [JSON.stringify] on it. *)
Theorem post_schema_outcomes (filename : string) (req : Request)
    (schema : option json) (s : Server) :
  authenticated_request req s →
  faults (world s) = [] →
  let r := post_schema lib config filename req schema s in
  let path := schemaPath config filename in
  let dir := cfg_schemasDir config in
  (truthy_opt schema = false →
     r = (error_response 400 "Schema is required", s))
  ∧ (∀ v, schema = Some v → truthy v = true → is_object v = false →
       r = (error_response 400 "Invalid schema format", s))
  ∧ (∀ v, schema = Some v → is_object v = true →
       let disk :=
         set_files (insert path (JSON_stringify lib v))
           (if is_file dir (world s) || is_dir dir (world s) then world s
            else set_dirs (union {[NodePath.dir_prefix dir]}) (world s)) in
       r.1 = mkResponse 200 (JObj [("success", JBool true); ("schema", v)])
       ∧ r.2 = reload lib (mkServer disk (sessions s) (validator s))
       ∧ validator r.2 = (reloadSchemas lib (validator s) disk).1
       ∧ files (world r.2) = <[path := JSON_stringify lib v]> (files (world s))
       ∧ sessions r.2 = sessions s
       ∧ (∀ n j, schemas (validator r.2) !! n = Some j →
            ∃ file before after,
              file ∈ dir_entries (schemasDir (validator s)) disk
              ∧ json_ext file = true ∧ schemaName_of file = n
              ∧ schema_at lib (schemasDir (validator s)) disk file = Some j
              ∧ ajv (validator r.2) = before ++ (j, n) :: after
              ∧ ajv_addSchema lib before j n = Ret tt)
       ∧ ((∀ a n, ajv_addSchema lib a v n ≠ Ret tt) →
          ∀ n, schemas (validator r.2) !! n ≠ Some v)
       ∧ (schemasDir (validator s) = dir → is_dir dir disk = true →
          load_in_turn lib dir disk []
            (List.filter json_ext (dir_entries dir disk)) →
          NoDup (schemaName_of
                   <$> List.filter json_ext (dir_entries dir disk)) →
          (∀ f j, f ∈ List.filter json_ext (dir_entries dir disk) →
                  schema_at lib dir disk f = Some j →
                  schemas (validator r.2) !! schemaName_of f = Some j)
          ∧ (no_sep (schemaName_of filename) = true →
             JSON_parse lib (JSON_stringify lib v) = Ret v →
             schemas (validator r.2)
               !! schemaName_of (schemaName_of filename +:+ ".json")
             = Some v))
       ∧ (JSON_parse lib (JSON_stringify lib v) = Ret v →
          get_schema lib config filename r.2 = (mkResponse 200 v, r.2))).
Proof.
  intros Hauth Hf r path dir.
  pose proof (session_check_true req s Hauth) as Hcheck.
  subst r. unfold post_schema, requireAuth. rewrite Hcheck.
  split; [|split].
  - by intros ->.
  - intros v -> Ht Hobj. simpl. by rewrite Ht, Hobj.
  - intros v -> Hobj.
    set (disk := set_files (insert path (JSON_stringify lib v))
                   (if is_file dir (world s) || is_dir dir (world s)
                    then world s
                    else set_dirs (union {[NodePath.dir_prefix dir]})
                           (world s))).
    assert (truthy v = true) as Ht by (by destruct v).
    simpl. rewrite Ht, Hobj. simpl. unfold run_world.
    fold path. rewrite (schema_write path (JSON_stringify lib v) (world s) Hf).
    fold dir. fold disk. cbn [fst snd].
    set (s2 := mkServer disk (sessions s) (validator s)).
    assert (faults disk = []) as Hf1.
    { unfold disk. by destruct (is_file dir (world s) || is_dir dir (world s)). }
    assert (files disk = <[path := JSON_stringify lib v]> (files (world s)))
      as Hfiles.
    { unfold disk. by destruct (is_file dir (world s) || is_dir dir (world s)). }
    destruct (reload_frame s2) as (Hrf & _ & Hrs & Hrv & Hreg & Hrn).
    split; [done|]. split; [done|]. split; [done|].
    split; [by rewrite Hrf, <- Hfiles|]. split; [done|].
    split; [|split; [|split]].
    + intros n j Hn.
      destruct (Hreg n j Hn)
        as (file & before & H1 & H2 & H3 & H4 & H5 & after & H6).
      exists file, before, after. by split_and!.
    + intros Hrej n Hn.
      destruct (Hreg n v Hn) as (_ & before & _ & _ & _ & _ & H5 & _).
      by apply Hrej in H5.
    + intros Hsv Hdir Hok Hnd.
      assert (∀ f j, f ∈ List.filter json_ext (dir_entries dir disk) →
                schema_at lib dir disk f = Some j →
                schemas (validator (reload lib s2)) !! schemaName_of f
                = Some j) as Hall.
      { intros f j Hin Hat. rewrite Hrv. cbn [validator world s2].
        apply reloadSchemas_all_loaded; by rewrite ?Hsv. }
      split; [done|]. intros Hsep Hrt.
      set (file := schemaName_of filename +:+ ".json").
      assert (NodePath.is_entry_name file = true) as Hentry
        by by apply json_suffix_entry.
      assert (path = NodePath.dir_prefix dir +:+ file) as Hpath
        by (unfold path, schemaPath; by apply join_entry).
      apply Hall.
      * apply list_elem_of_In, List.filter_In. split.
        -- apply list_elem_of_In. rewrite dir_entries_Permutation.
           apply elem_of_app. left. apply list_elem_of_omap. exists path.
           split.
           ++ apply elem_of_elements, elem_of_dom.
              rewrite Hfiles, lookup_insert_eq. by eexists.
           ++ rewrite Hpath. by apply child_file_entry.
        -- apply endsWith_app.
      * unfold schema_at. fold file.
        change (NodePath.join dir file) with path.
        by rewrite Hfiles, lookup_insert_eq, Hrt.
    + intros Hrt.
      rewrite (get_schema_present lib config filename _
                 (JSON_stringify lib v) v);
        [| |by apply no_fault_cur, Hrn|done].
      * rewrite no_fault_tick_eq by by apply Hrn. by destruct (reload lib s2).
      * fold path. rewrite Hrf.
        change (files (world s2)) with (files disk). rewrite Hfiles.
        apply lookup_insert_eq.
Qed.

(** X21. What an authenticated [DELETE /api/schema/:name] does. A schema
    file that does not exist is answered 404 [Schema not found] and
    nothing changes. In an environment without failures an existing one
    is answered 200, and the server is left as [reloadSchemas] leaves
    it when run on the disk without that file: the file is removed, no
    other file is touched (no backup is kept, unlike for documents),
    sessions are as before, the registry is the one a load of the
    schema directory builds from the disk without the file, and a
    following GET of the name is answered 404. *)
Theorem delete_schema_outcomes (filename : string) (req : Request)
    (s : Server) :
  authenticated_request req s →
  faults (world s) = [] →
  let r := delete_schema lib config filename req s in
  let path := schemaPath config filename in
  (files (world s) !! path = None → is_dir path (world s) = false →
     r = (error_response 404 "Schema not found", s))
  ∧ (∀ c, files (world s) !! path = Some c →
       let disk := set_files (delete path) (world s) in
       r.1 = mkResponse 200 (JObj [("success", JBool true)])
       ∧ r.2 = reload lib (mkServer disk (sessions s) (validator s))
       ∧ validator r.2 = (reloadSchemas lib (validator s) disk).1
       ∧ files (world r.2) = delete path (files (world s))
       ∧ sessions r.2 = sessions s
       ∧ (∀ n j, schemas (validator r.2) !! n = Some j →
            ∃ file before after,
              file ∈ dir_entries (schemasDir (validator s)) disk
              ∧ json_ext file = true ∧ schemaName_of file = n
              ∧ schema_at lib (schemasDir (validator s)) disk file = Some j
              ∧ ajv (validator r.2) = before ++ (j, n) :: after
              ∧ ajv_addSchema lib before j n = Ret tt)
       ∧ (schemasDir (validator s) = cfg_schemasDir config →
          is_dir (cfg_schemasDir config) (world s) = true →
          load_in_turn lib (cfg_schemasDir config) disk []
            (List.filter json_ext
               (dir_entries (cfg_schemasDir config) disk)) →
          NoDup (schemaName_of
                   <$> List.filter json_ext
                         (dir_entries (cfg_schemasDir config) disk)) →
          ∀ f j,
            f ∈ List.filter json_ext
                  (dir_entries (cfg_schemasDir config) disk) →
            schema_at lib (cfg_schemasDir config) disk f = Some j →
            schemas (validator r.2) !! schemaName_of f = Some j)
       ∧ (is_dir path (world s) = false →
          get_schema lib config filename r.2
          = (error_response 404 "Schema not found", r.2))).
Proof.
  intros Hauth Hf r path.
  pose proof (session_check_true req s Hauth) as Hcheck.
  assert (run_world (existsSync path) s
          = (Ret (is_file path (world s) || is_dir path (world s)), s))
    as Hrun by (unfold run_world, existsSync; by destruct s).
  split.
  - intros Hnone Hdir. subst r. unfold delete_schema, requireAuth.
    rewrite Hcheck. fold path. rewrite Hrun.
    apply is_file_false in Hnone. by rewrite Hnone, Hdir.
  - intros c Hc disk.
    set (s3 := mkServer disk (sessions s) (validator s)).
    assert (r = (mkResponse 200 (JObj [("success", JBool true)]),
                 reload lib s3)) as ->.
    { subst r. unfold delete_schema, requireAuth.
      rewrite Hcheck. fold path. rewrite Hrun.
      assert (is_file path (world s) = true) as ->
        by (apply is_file_true; by rewrite Hc).
      simpl. unfold run_world.
      rewrite unlinkSync_eq, Hc, (no_fault_cur _ Hf), (no_fault_tick_eq _ Hf).
      done. }
    cbn [fst snd].
    destruct (reload_frame s3) as (Hrf & Hrd & Hrs & Hrv & Hreg & _).
    split; [done|]. split; [done|]. split; [done|].
    split; [by rewrite Hrf|]. split; [done|]. split; [|split].
    + intros n j Hn.
      destruct (Hreg n j Hn)
        as (file & before & H1 & H2 & H3 & H4 & H5 & after & H6).
      exists file, before, after. by split_and!.
    + intros Hsv Hdir Hok Hnd f j Hin Hat. rewrite Hrv.
      cbn [validator world s3].
      apply reloadSchemas_all_loaded; by rewrite ?Hsv.
    + intros Hdir. apply get_schema_absent.
      * fold path. rewrite Hrf. unfold s3. simpl. apply lookup_delete_eq.
      * fold path. unfold is_dir in *. by rewrite Hrd.
Qed.

End SchemaWrites.

Lemma demo_addSchema_bad (a : AjvCalls) (n : string) :
  demo_addSchema a bad_schema n ≠ Ret tt.
Proof.
  unfold demo_addSchema, bad_schema.
  by destruct (bool_decide _).
Qed.

(** ** Names: what is listed, what is addressed *)

Section Names.
Import JsString NodePath.

Lemma strip_suffix_ci_none (suf s : string) :
  endsWith suf (lower s) = false → strip_suffix_ci suf s = s.
Proof.
  induction s as [|c s IH].
  - intros _. simpl. by destruct (String.eqb _ _).
  - cbn [strip_suffix_ci]. unfold lower in *. cbn [map_chars].
    rewrite endsWith_unfold.
    destruct (String.eqb (String (to_lower c) (map_chars to_lower s)) suf);
      [done|].
    intros H. by rewrite IH.
Qed.

Lemma replace_outside_safe keep rep (s : string) :
  all_chars keep s = true → replace_outside keep rep s = s.
Proof.
  unfold replace_outside. induction s as [|c s IH]; [done|]. simpl.
  rewrite andb_true_iff. intros [-> Hs]. by rewrite IH.
Qed.

Lemma basename_plain (f : string) : no_sep f = true → basename f = f.
Proof.
  intros Hf. destruct (decide (f = "")) as [->|Hne]; [done|].
  rewrite <- (str_app_nil_l f) at 1. apply basename_entry; [by left|done..].
Qed.

Lemma safe_no_sep (s : string) : all_chars safe_char s = true → no_sep s = true.
Proof. apply all_chars_impl, safe_char_not_sep. Qed.

Lemma baseFilename_safe (filename : string) :
  all_chars safe_char (baseFilename filename) = true.
Proof. apply all_chars_strip_suffix_ci, sanitizeFilename_safe. Qed.

Lemma str_app_inv_head (p a b : string) : p +:+ a = p +:+ b → a = b.
Proof.
  induction p as [|c p IH]; [done|]. rewrite !str_app_cons.
  intros [= H]. by apply IH.
Qed.

(** X22. What [listFiles] reports can be read back. A stored document
    whose base name contains no [.json] and does not end in [.json] in
    any letter case is listed under its base name (whatever request
    name it was stored under), and the listed name addresses that very
    document: reading, writing, deleting and testing it under the listed
    name act on the same file. *)
Theorem listed_names_read_back (fm : FileManager) (name : string)
    (w : World) :
  let b := baseFilename name in
  is_Some (files w !! getFilePath fm name) →
  includes ".json" b = false →
  endsWith ".json" (lower b) = false →
  b ∈ listing fm w
  ∧ getFilePath fm b = getFilePath fm name
  ∧ ∀ lib d,
      readFile lib fm b = readFile lib fm name
      ∧ writeFile lib fm b d = writeFile lib fm name d
      ∧ deleteFile fm b = deleteFile fm name
      ∧ fileExists fm b = fileExists fm name.
Proof.
  intros b Hsome Hinc Hend.
  assert (getFilePath fm b = getFilePath fm name) as Hpath.
  { unfold getFilePath at 1. unfold baseFilename at 1, sanitizeFilename.
    pose proof (baseFilename_safe name) as Hsafe. fold b in Hsafe.
    rewrite basename_plain by by apply safe_no_sep.
    rewrite replace_outside_safe by done.
    by rewrite strip_suffix_ci_none by done. }
  split; [|split; [done|]].
  - rewrite listing_Permutation, fmap_app. apply elem_of_app. left.
    apply list_elem_of_fmap. exists (entryName name). split.
    + unfold entryName. fold b. symmetry. by apply strip_json_entry.
    + apply (json_names_elem _ (getFilePath fm name)).
      * by apply elem_of_dom.
      * rewrite contrib_entry. by apply list_elem_of_singleton.
  - intros lib d. unfold readFile, writeFile, deleteFile, fileExists.
    by rewrite Hpath.
Qed.

(** X23. The file manager of the single-file server names files differently.
    For every request name its path is the data directory followed by
    the whole name, unsafe characters (separators included) replaced by
    an underscore, with [.json] appended: a plain entry of the data
    directory made of safe characters. Nothing is stripped, so a safe
    name is mapped to itself plus [.json] - [x.json] to [x.json.json] -
    and two different safe names never address the same file. *)
Theorem legacy_getFilePath_contained (fm : FileManager) (filename : string) :
  let entry := replace_outside safe_char "_" filename +:+ ".json" in
  legacy_getFilePath fm filename = dir_prefix (dataDir fm) +:+ entry
  ∧ all_chars safe_char entry = true
  ∧ is_entry_name entry = true
  ∧ child_file (dir_prefix (dataDir fm)) (legacy_getFilePath fm filename)
    = Some entry
  ∧ (all_chars safe_char filename = true → entry = filename +:+ ".json")
  ∧ (∀ other,
       all_chars safe_char filename = true →
       all_chars safe_char other = true →
       legacy_getFilePath fm other = legacy_getFilePath fm filename →
       other = filename).
Proof.
  intros entry.
  assert (all_chars safe_char entry = true) as Hsafe.
  { unfold entry. rewrite all_chars_app, andb_true_iff. split; [|done].
    by apply all_chars_replace_outside. }
  assert (is_entry_name entry = true) as Hentry.
  { apply json_suffix_entry, safe_no_sep, all_chars_replace_outside. done. }
  assert (∀ f, legacy_getFilePath fm f
               = dir_prefix (dataDir fm)
                 +:+ (replace_outside safe_char "_" f +:+ ".json")) as Heq.
  { intros f. apply join_entry, json_suffix_entry, safe_no_sep.
    by apply all_chars_replace_outside. }
  split; [apply Heq|]. split; [done|]. split; [done|]. split.
  { rewrite Heq. by apply child_file_entry. }
  split.
  { intros H. unfold entry. by rewrite replace_outside_safe. }
  intros other Hf Ho. rewrite !Heq, !replace_outside_safe by done.
  intros H%str_app_inv_head. by apply str_app_inv_tail in H.
Qed.

End Names.

Lemma listed_names_read_back_witness :
  listing example_fm (example_world []) = ["x"]
  ∧ getFilePath example_fm "x" = getFilePath example_fm "dir/x.JSON".
Proof.
  split; [reflexivity|].
  apply (listed_names_read_back example_fm "dir/x.JSON" (example_world []));
    [by eexists|reflexivity..].
Defined.

Section SchemaList.
Context (lib : Library) (config : LiteJSONConfig).

(** X24. [GET /api/schemas] lists files, not the registry. A missing
    schema directory is answered 200 with the empty list. When the
    directory exists, the answer is 200 with its [.json] entries, first
    [.json] removed, if it can be read, and 500 if reading it fails. No
    file is changed. Every schema that a load of the same directory
    registers is in that list. *)
Theorem get_schemas_outcomes (s : Server) :
  let dir := cfg_schemasDir config in
  let names :=
    strip_json <$> List.filter json_ext (dir_entries dir (world s)) in
  let r := get_schemas config s in
  files (world r.2) = files (world s)
  ∧ (is_file dir (world s) = false → is_dir dir (world s) = false →
       r = (mkResponse 200 (JObj [("schemas", JArr [])]), s))
  ∧ (is_dir dir (world s) = true →
       match cur_fault (world s) with
       | NoFault =>
           r.1 = mkResponse 200 (JObj [("schemas", JArr (JStr <$> names))])
       | _ => r.1 = error_response 500 "Failed to list schemas"
       end)
  ∧ (∀ sv n j,
       schemasDir sv = dir →
       schemas (reloadSchemas lib sv (world s)).1 !! n = Some j →
       n ∈ names).
Proof.
  intros dir names r. subst r.
  unfold get_schemas, run_route, run_world. fold dir.
  rewrite try_catch_eq, bind_eq. unfold existsSync.
  split; [|split; [|split]].
  - destruct (is_file dir (world s) || is_dir dir (world s)); [|done].
    simpl. rewrite bind_eq, readdirSync_eq.
    destruct (is_dir dir (world s)); [|done].
    by destruct (cur_fault (world s)).
  - intros -> ->. simpl. by destruct s.
  - intros Hdir. rewrite Hdir, orb_true_r. simpl.
    rewrite bind_eq, readdirSync_eq, Hdir.
    by destruct (cur_fault (world s)).
  - intros sv n j Hsv Hn.
    destruct (reloadSchemas_registry lib sv (world s))
      as (_ & _ & _ & _ & _ & Hreg & _).
    destruct (Hreg n j Hn) as (file & before & Hin & Hext & Hname & _).
    rewrite Hsv in Hin. unfold names.
    apply list_elem_of_fmap. exists file. split; [done|].
    apply list_elem_of_In, List.filter_In. split; [|done].
    by apply list_elem_of_In.
Qed.

End SchemaList.
